(** * Mitra Bot front end: conversation store, chat turns, formatter, auth

    A shallow embedding of the browser-side modules of the repository
    ([API], [UI], [Chat], [Auth]) and the properties of the conversation
    pipeline that are checked against them.

    Conventions.
    - A JavaScript string is the list of its UTF-16 code units ([list N]);
      [js "..."] turns an ASCII literal into such a list.
    - [undefined] is [None] ([null] is the JSON value [JNull]; a [null]
      object reference is [None] as well); a property that holds
      [undefined] is modelled as an absent property (the program only ever
      reads properties and serialises objects, and [JSON.stringify] omits
      such properties).
    - A thrown exception / rejected promise is the [Throw] outcome.
    - One browser event runs to completion before the next one starts
      (single thread); the continuation after the network call of a turn
      is part of the same turn. *)

From Stdlib Require Import ZArith NArith List String Ascii Bool Lia.
From Stdlib Require DecimalFacts DecimalPos DecimalN.
From stdpp Require Import base option list gmap strings.

Open Scope N_scope.
Open Scope list_scope.

(** ** JavaScript strings *)

Abbreviation jsstring := (list N).

Definition js (s : string) : jsstring :=
  map N_of_ascii (list_ascii_of_string s).

(** Code units used by the program text. *)
Definition c_nl : N := 10.
Definition c_space : N := 32.
Definition c_dquote : N := 34.
Definition c_amp : N := 38.
Definition c_star : N := 42.
Definition c_lt : N := 60.
Definition c_gt : N := 62.
Definition c_backtick : N := 96.
Definition c_nbsp : N := 160.

(** [s || d] for a possibly-undefined string: the empty string is falsy. *)
Definition str_truthy (s : jsstring) : bool :=
  match s with [] => false | _ => true end.

Definition opt_truthy (o : option jsstring) : bool :=
  match o with Some s => str_truthy s | None => false end.

Definition or_else (o : option jsstring) (d : jsstring) : jsstring :=
  match o with
  | Some s => if str_truthy s then s else d
  | None => d
  end.

(** WhiteSpace and LineTerminator code units, as removed by
    [String.prototype.trim]. *)
Definition is_js_space (c : N) : bool :=
  ((9 <=? c) && (c <=? 13)) || (c =? 32) || (c =? 160) || (c =? 5760)
  || ((8192 <=? c) && (c <=? 8202)) || (c =? 8232) || (c =? 8233)
  || (c =? 8239) || (c =? 8287) || (c =? 12288) || (c =? 65279).

Fixpoint drop_spaces (s : jsstring) : jsstring :=
  match s with
  | c :: r => if is_js_space c then drop_spaces r else s
  | [] => []
  end.

Definition trim (s : jsstring) : jsstring :=
  rev (drop_spaces (rev (drop_spaces s))).

(** [s.substring(0, n)] and [s.substr(i, n)] for in-range non-negative
    arguments. *)
Definition substring0 (n : nat) (s : jsstring) : jsstring := firstn n s.
Definition substr (i n : nat) (s : jsstring) : jsstring := firstn n (skipn i s).

(** The longest prefix whose code units satisfy [p], and the rest. *)
Fixpoint span (p : N -> bool) (s : jsstring) : jsstring * jsstring :=
  match s with
  | c :: r =>
      if p c then let '(a, b) := span p r in (c :: a, b) else ([], s)
  | [] => ([], [])
  end.

(** [strip_prefix p s = Some r] when [s = p ++ r]. *)
Fixpoint strip_prefix (p s : jsstring) : option jsstring :=
  match p, s with
  | [], _ => Some s
  | a :: p', b :: s' => if a =? b then strip_prefix p' s' else None
  | _ :: _, [] => None
  end.

(** The shortest [a] with [s = a ++ p ++ b], for a non-empty [p]. *)
Fixpoint split_at_first (p s : jsstring) : option (jsstring * jsstring) :=
  match strip_prefix p s with
  | Some b => Some ([], b)
  | None =>
      match s with
      | c :: r =>
          match split_at_first p r with
          | Some (a, b) => Some (c :: a, b)
          | None => None
          end
      | [] => None
      end
  end.

(** ** Global regular-expression replacement

    [s.replace(/re/g, ...)] scans [s] from left to right; at each index
    it tries the expression, and on a match emits the replacement and
    resumes after the match.  A [matcher] answers, for the text starting
    at the current index, whether the expression matches there, and if so
    the replacement and the number of code units of the match (at least
    one for every expression of this program).  [skip] counts the code
    units of the current match that are still to be passed over. *)

Definition matcher := jsstring -> option (jsstring * nat).

Fixpoint replace_from (m : matcher) (skip : nat) (s : jsstring) : jsstring :=
  match s with
  | [] => []
  | c :: r =>
      match skip with
      | S k => replace_from m k r
      | O =>
          match m s with
          | Some (repl, len) => repl ++ replace_from m (pred len) r
          | None => c :: replace_from m O r
          end
      end
  end.

Definition replace_all (m : matcher) (s : jsstring) : jsstring :=
  replace_from m O s.

(** ** UI module (utilities) *)

Module UI.

(** [escapeHtml]: the text is assigned to [textContent] of a fresh
    element and read back through [innerHTML], i.e. serialised as an
    HTML text node. *)
Definition escape_unit (c : N) : jsstring :=
  if c =? c_amp then js "&amp;"
  else if c =? c_nbsp then js "&nbsp;"
  else if c =? c_lt then js "&lt;"
  else if c =? c_gt then js "&gt;"
  else [c].

Definition escapeHtml (text : jsstring) : jsstring :=
  concat (map escape_unit text).

End UI.

(** ** JSON values

    The value space of [JSON.parse] / [JSON.stringify].  An object is
    the list of its members in text order; reading a property takes the
    last member with that key, as [JSON.parse] does for repeated keys.
    A number [m * 10 ^ e] is kept exactly as the pair of its decimal
    mantissa and exponent (no rounding to binary64). *)

Record number := Number { mant : Z; expo : Z }.

#[warnings="-register-all"] Inductive json :=
  | JNull
  | JBool (b : bool)
  | JNum (n : number)
  | JStr (s : jsstring)
  | JArr (elems : list json)
  | JObj (members : list (jsstring * json)).

(** [o.k]: [None] is [undefined]. *)
Fixpoint lookup_last (k : jsstring) (l : list (jsstring * json)) : option json :=
  match l with
  | [] => None
  | (k', v) :: r =>
      match lookup_last k r with
      | Some w => Some w
      | None => if bool_decide (k' = k) then Some v else None
      end
  end.

(** Outcome of an operation that may throw. *)
Inductive outcome (A : Type) :=
  | Ok (a : A)
  | Throw (message : jsstring).
Arguments Ok {A} a.
Arguments Throw {A} message.

Module JSON.

Definition is_ws (c : N) : bool :=
  (c =? 32) || (c =? 9) || (c =? 10) || (c =? 13).

Fixpoint skip_ws (s : jsstring) : jsstring :=
  match s with
  | c :: r => if is_ws c then skip_ws r else s
  | [] => []
  end.

(** *** Digits *)

Definition digit_char (d : N) : N := 48 + d.

Fixpoint print_uint (u : Decimal.uint) : jsstring :=
  match u with
  | Decimal.Nil => []
  | Decimal.D0 u => 48 :: print_uint u
  | Decimal.D1 u => 49 :: print_uint u
  | Decimal.D2 u => 50 :: print_uint u
  | Decimal.D3 u => 51 :: print_uint u
  | Decimal.D4 u => 52 :: print_uint u
  | Decimal.D5 u => 53 :: print_uint u
  | Decimal.D6 u => 54 :: print_uint u
  | Decimal.D7 u => 55 :: print_uint u
  | Decimal.D8 u => 56 :: print_uint u
  | Decimal.D9 u => 57 :: print_uint u
  end.

Definition is_digit (c : N) : bool := (48 <=? c) && (c <=? 57).

Definition cons_digit (c : N) (u : Decimal.uint) : Decimal.uint :=
  if c =? 48 then Decimal.D0 u else if c =? 49 then Decimal.D1 u
  else if c =? 50 then Decimal.D2 u else if c =? 51 then Decimal.D3 u
  else if c =? 52 then Decimal.D4 u else if c =? 53 then Decimal.D5 u
  else if c =? 54 then Decimal.D6 u else if c =? 55 then Decimal.D7 u
  else if c =? 56 then Decimal.D8 u else Decimal.D9 u.

(** The longest run of decimal digits at the head of [s]. *)
Fixpoint parse_uint (s : jsstring) : Decimal.uint * jsstring :=
  match s with
  | c :: r =>
      if is_digit c then
        let '(u, r') := parse_uint r in (cons_digit c u, r')
      else (Decimal.Nil, s)
  | [] => (Decimal.Nil, [])
  end.

Fixpoint uint_length (u : Decimal.uint) : nat :=
  match u with
  | Decimal.Nil => O
  | Decimal.D0 u | Decimal.D1 u | Decimal.D2 u | Decimal.D3 u
  | Decimal.D4 u | Decimal.D5 u | Decimal.D6 u | Decimal.D7 u
  | Decimal.D8 u | Decimal.D9 u => S (uint_length u)
  end.

Definition print_N (n : N) : jsstring := print_uint (N.to_uint n).

Definition print_Z (z : Z) : jsstring :=
  (if (z <? 0)%Z then [45] else []) ++ print_N (Z.abs_N z).

(** *** Numbers: -? int frac? exp? *)

(** A number is written as its mantissa, followed by [e] and the
    exponent when that is not zero.  [Number::toString] writes the same
    value in another notation; the text is only ever read back by
    [parse], which reads both as the same number. *)
Definition print_number (n : number) : jsstring :=
  print_Z (mant n) ++
  (if (expo n =? 0)%Z then [] else 101 :: print_Z (expo n)).

Definition int_part_ok (u : Decimal.uint) : bool :=
  match u with
  | Decimal.Nil => false
  | Decimal.D0 Decimal.Nil => true
  | Decimal.D0 _ => false
  | _ => true
  end.

Definition take_minus (s : jsstring) : bool * jsstring :=
  match s with
  | c :: r => if c =? 45 then (true, r) else (false, s)
  | [] => (false, s)
  end.

Definition take_sign (s : jsstring) : bool * jsstring :=
  match s with
  | c :: r =>
      if c =? 45 then (true, r) else if c =? 43 then (false, r) else (false, s)
  | [] => (false, s)
  end.

(** frac?: the digits after the point ([Nil] when there is no point). *)
Definition parse_fraction (s : jsstring) : option (Decimal.uint * jsstring) :=
  match s with
  | c :: r =>
      if c =? 46 then
        let '(fp, rest) := parse_uint r in
        match fp with
        | Decimal.Nil => None
        | _ => Some (fp, rest)
        end
      else Some (Decimal.Nil, s)
  | [] => Some (Decimal.Nil, s)
  end.

(** exp?: the exponent ([0] when there is none). *)
Definition parse_exponent (s : jsstring) : option (Z * jsstring) :=
  match s with
  | c :: r =>
      if (c =? 101) || (c =? 69) then
        let '(eneg, r1) := take_sign r in
        let '(ep, rest) := parse_uint r1 in
        match ep with
        | Decimal.Nil => None
        | _ =>
            let e := Z.of_N (N.of_uint ep) in
            Some ((if eneg then - e else e)%Z, rest)
        end
      else Some (0%Z, s)
  | [] => Some (0%Z, s)
  end.

Definition parse_number (s : jsstring) : option (number * jsstring) :=
  let '(neg, s1) := take_minus s in
  let '(ip, s2) := parse_uint s1 in
  if negb (int_part_ok ip) then None
  else
    match parse_fraction s2 with
    | None => None
    | Some (fp, s3) =>
        match parse_exponent s3 with
        | None => None
        | Some (e, s4) =>
            let m := Z.of_N (N.of_uint ip * 10 ^ N.of_nat (uint_length fp)
                             + N.of_uint fp) in
            Some (Number (if neg then - m else m)%Z
                         (e - Z.of_nat (uint_length fp))%Z, s4)
        end
    end.

(** *** Strings *)

Definition hex_char (d : N) : N := if d <? 10 then 48 + d else 87 + d.

Definition hex_value (c : N) : option N :=
  if (48 <=? c) && (c <=? 57) then Some (c - 48)
  else if (97 <=? c) && (c <=? 102) then Some (c - 87)
  else if (65 <=? c) && (c <=? 70) then Some (c - 55)
  else None.

(** \uXXXX with lower-case digits, as [JSON.stringify] writes it. *)
Definition escape_u (c : N) : jsstring :=
  [92; 117; hex_char (c / 4096); hex_char ((c / 256) mod 16);
   hex_char ((c / 16) mod 16); hex_char (c mod 16)].

Definition is_high_surrogate (c : N) : bool := (55296 <=? c) && (c <=? 56319).
Definition is_low_surrogate (c : N) : bool := (56320 <=? c) && (c <=? 57343).

(** QuoteJSONString, without the enclosing quotes. *)
Fixpoint print_chars (s : jsstring) : jsstring :=
  match s with
  | [] => []
  | c :: r =>
      if c =? 34 then 92 :: 34 :: print_chars r
      else if c =? 92 then 92 :: 92 :: print_chars r
      else if c =? 8 then 92 :: 98 :: print_chars r
      else if c =? 12 then 92 :: 102 :: print_chars r
      else if c =? 10 then 92 :: 110 :: print_chars r
      else if c =? 13 then 92 :: 114 :: print_chars r
      else if c =? 9 then 92 :: 116 :: print_chars r
      else if c <? 32 then escape_u c ++ print_chars r
      else if is_high_surrogate c then
        match r with
        | d :: r' =>
            if is_low_surrogate d then c :: d :: print_chars r'
            else escape_u c ++ print_chars r
        | [] => escape_u c
        end
      else if is_low_surrogate c then escape_u c ++ print_chars r
      else c :: print_chars r
  end.

Definition quote (s : jsstring) : jsstring := 34 :: print_chars s ++ [34].

(** The characters of a string literal after its opening quote, up to
    and including the closing quote. *)
Fixpoint parse_chars (s : jsstring) : option (jsstring * jsstring) :=
  match s with
  | [] => None
  | c :: r =>
      if c =? 34 then Some ([], r)
      else if c =? 92 then
        match r with
        | [] => None
        | e :: r1 =>
            let simple (x : N) :=
              match parse_chars r1 with
              | Some (t, rest) => Some (x :: t, rest)
              | None => None
              end in
            if e =? 34 then simple 34
            else if e =? 92 then simple 92
            else if e =? 47 then simple 47
            else if e =? 98 then simple 8
            else if e =? 102 then simple 12
            else if e =? 110 then simple 10
            else if e =? 114 then simple 13
            else if e =? 116 then simple 9
            else if e =? 117 then
              match r1 with
              | h3 :: h2 :: h1 :: h0 :: r2 =>
                  match hex_value h3, hex_value h2, hex_value h1, hex_value h0 with
                  | Some d3, Some d2, Some d1, Some d0 =>
                      match parse_chars r2 with
                      | Some (t, rest) =>
                          Some (((d3 * 16 + d2) * 16 + d1) * 16 + d0 :: t, rest)
                      | None => None
                      end
                  | _, _, _, _ => None
                  end
              | _ => None
              end
            else None
        end
      else if c <? 32 then None
      else
        match parse_chars r with
        | Some (t, rest) => Some (c :: t, rest)
        | None => None
        end
  end.

(** *** Values *)

Fixpoint join_comma (l : list jsstring) : jsstring :=
  match l with
  | [] => []
  | [x] => x
  | x :: r => x ++ 44 :: join_comma r
  end.

Fixpoint print (j : json) : jsstring :=
  match j with
  | JNull => js "null"
  | JBool true => js "true"
  | JBool false => js "false"
  | JNum n => print_number n
  | JStr s => quote s
  | JArr l => 91 :: join_comma (map print l) ++ [93]
  | JObj l =>
      123 :: join_comma (map (fun kv => quote (fst kv) ++ 58 :: print (snd kv)) l)
          ++ [125]
  end.

Fixpoint parse_value (fuel : nat) (s : jsstring) : option (json * jsstring) :=
  match fuel with
  | O => None
  | S f =>
      match skip_ws s with
      | [] => None
      | c :: r =>
          if c =? 34 then
            match parse_chars r with
            | Some (t, rest) => Some (JStr t, rest)
            | None => None
            end
          else if c =? 91 then
            match skip_ws r with
            | d :: r' =>
                if d =? 93 then Some (JArr [], r')
                else
                  match parse_elements f r with
                  | Some (l, rest) => Some (JArr l, rest)
                  | None => None
                  end
            | [] => None
            end
          else if c =? 123 then
            match skip_ws r with
            | d :: r' =>
                if d =? 125 then Some (JObj [], r')
                else
                  match parse_members f r with
                  | Some (l, rest) => Some (JObj l, rest)
                  | None => None
                  end
            | [] => None
            end
          else if c =? 110 then
            match strip_prefix (js "ull") r with
            | Some rest => Some (JNull, rest)
            | None => None
            end
          else if c =? 116 then
            match strip_prefix (js "rue") r with
            | Some rest => Some (JBool true, rest)
            | None => None
            end
          else if c =? 102 then
            match strip_prefix (js "alse") r with
            | Some rest => Some (JBool false, rest)
            | None => None
            end
          else
            match parse_number (c :: r) with
            | Some (n, rest) => Some (JNum n, rest)
            | None => None
            end
      end
  end
with parse_elements (fuel : nat) (s : jsstring) : option (list json * jsstring) :=
  match fuel with
  | O => None
  | S f =>
      match parse_value f s with
      | None => None
      | Some (v, r) =>
          match skip_ws r with
          | c :: r' =>
              if c =? 44 then
                match parse_elements f r' with
                | Some (l, rest) => Some (v :: l, rest)
                | None => None
                end
              else if c =? 93 then Some ([v], r')
              else None
          | [] => None
          end
      end
  end
with parse_members (fuel : nat) (s : jsstring)
  : option (list (jsstring * json) * jsstring) :=
  match fuel with
  | O => None
  | S f =>
      match skip_ws s with
      | q :: r0 =>
          if q =? 34 then
            match parse_chars r0 with
            | None => None
            | Some (k, r1) =>
                match skip_ws r1 with
                | c :: r2 =>
                    if c =? 58 then
                      match parse_value f r2 with
                      | None => None
                      | Some (v, r3) =>
                          match skip_ws r3 with
                          | d :: r4 =>
                              if d =? 44 then
                                match parse_members f r4 with
                                | Some (l, rest) => Some ((k, v) :: l, rest)
                                | None => None
                                end
                              else if d =? 125 then Some ([(k, v)], r4)
                              else None
                          | [] => None
                          end
                      end
                    else None
                | [] => None
                end
            end
          else None
      | [] => None
      end
  end.

(** [JSON.parse(text)]: [None] when it throws SyntaxError.  The fuel
    is never exhausted: a value needs at most two units per code unit of
    its text (see [parse_fuel]). *)
Definition parse (text : jsstring) : option json :=
  match parse_value (S (2 * length text)) text with
  | Some (j, rest) =>
      match skip_ws rest with
      | [] => Some j
      | _ :: _ => None
      end
  | None => None
  end.

(** [JSON.stringify(value)] for a value without [undefined]. *)
Definition stringify (j : json) : jsstring := print j.

End JSON.

(** ** Values read through property access *)

(** [v.k] for a non-null value: members of an object, [undefined] for
    every other kind of value (none of the keys read by the program is a
    property of a string, number, boolean or array). *)
Definition get_prop (v : json) (k : string) : option json :=
  match v with
  | JObj l => lookup_last (js k) l
  | _ => None
  end.

Definition truthy (v : json) : bool :=
  match v with
  | JNull => false
  | JBool b => b
  | JNum n => negb (mant n =? 0)%Z
  | JStr s => str_truthy s
  | JArr _ | JObj _ => true
  end.

Definition opt_json_truthy (o : option json) : bool :=
  match o with Some v => truthy v | None => false end.

(** [x === s] for a string [s]. *)
Definition strict_eq_string (x : option json) (s : jsstring) : bool :=
  match x with
  | Some (JStr t) => bool_decide (t = s)
  | _ => false
  end.

(** The message of the TypeError raised by a property read on [null]
    or by calling something that is not a function. *)
Definition type_error : jsstring := js "TypeError".
Definition syntax_error : jsstring := js "SyntaxError".

(** ** CONFIG *)

Module CONFIG.
Definition MAX_MESSAGE_LENGTH : nat := 3000.
Definition CONVERSATIONS_STORAGE_KEY : string := "mitra-bot-conversations".
Definition CHAT : jsstring := js "/api/chat".
Definition THEME_STORAGE_KEY : string := "mitra-bot-theme".
End CONFIG.

(** ** Entities *)

Record message := Message {
  role : jsstring;
  content : json;
  timestamp : jsstring;
  confidence : option json;
  sources : option json
}.

(** A conversation; [M] is what its [messages] property holds. *)
Record conversation_of (M : Type) := Conversation {
  id : jsstring;
  title : jsstring;
  messages : M;
  created_at : jsstring;
  updated_at : jsstring;
  starred : bool;
  pinned : option bool;
  lastMessage : option jsstring;
  session_id : option jsstring
}.
Arguments Conversation {M}.
Arguments id {M}.
Arguments title {M}.
Arguments messages {M}.
Arguments created_at {M}.
Arguments updated_at {M}.
Arguments starred {M}.
Arguments pinned {M}.
Arguments lastMessage {M}.
Arguments session_id {M}.

(** A conversation as a value: its messages are the elements of the
    array. *)
Abbreviation conversation := (conversation_of (list message)).

(** The [messages] property of the conversation held by the chat module
    is either an array of its own or the very array [chat.messages]
    (after [currentConversation.messages = this.messages]). *)
Inductive array_ref :=
  | OwnArray (elems : list message)
  | ChatMessages.

Definition member {A} (k : string) (f : A -> json) (o : option A)
  : list (jsstring * json) :=
  match o with Some a => [(js k, f a)] | None => [] end.

Definition message_to_json (m : message) : json :=
  JObj ([(js "role", JStr (role m)); (js "content", content m);
         (js "timestamp", JStr (timestamp m))]
        ++ member "confidence" (fun v => v) (confidence m)
        ++ member "sources" (fun v => v) (sources m)).

Definition conversation_to_json (c : conversation) : json :=
  JObj ([(js "id", JStr (id c)); (js "title", JStr (title c));
         (js "messages", JArr (map message_to_json (messages c)));
         (js "created_at", JStr (created_at c));
         (js "updated_at", JStr (updated_at c));
         (js "starred", JBool (starred c))]
        ++ member "pinned" JBool (pinned c)
        ++ member "lastMessage" JStr (lastMessage c)
        ++ member "session_id" JStr (session_id c)).

(** ** Stored conversations read back

    [loadConversation] keeps the very object that [JSON.parse] built
    for the stored entry.  The object is read into the record of a
    conversation when it is exactly what [conversation_to_json] prints
    for that record; any other object (other members, another order) is
    outside the model. *)

(** Structural equality of values. *)
Fixpoint json_eqb (a b : json) : bool :=
  match a, b with
  | JNull, JNull => true
  | JBool x, JBool y => eqb x y
  | JNum x, JNum y => (mant x =? mant y)%Z && (expo x =? expo y)%Z
  | JStr s, JStr t => bool_decide (s = t)
  | JArr l, JArr m =>
      (fix all2 (l m : list json) : bool :=
         match l, m with
         | [], [] => true
         | x :: l', y :: m' => json_eqb x y && all2 l' m'
         | _, _ => false
         end) l m
  | JObj l, JObj m =>
      (fix all2 (l m : list (jsstring * json)) : bool :=
         match l, m with
         | [], [] => true
         | (k, x) :: l', (k', y) :: m' =>
             bool_decide (k = k') && json_eqb x y && all2 l' m'
         | _, _ => false
         end) l m
  | _, _ => false
  end.

Definition message_of_json (j : json) : option message :=
  match get_prop j "role", get_prop j "content", get_prop j "timestamp" with
  | Some (JStr r), Some c, Some (JStr t) =>
      Some (Message r c t (get_prop j "confidence") (get_prop j "sources"))
  | _, _, _ => None
  end.

Fixpoint messages_of_json (l : list json) : option (list message) :=
  match l with
  | [] => Some []
  | j :: r =>
      match message_of_json j, messages_of_json r with
      | Some m, Some ms => Some (m :: ms)
      | _, _ => None
      end
  end.

(** An optional member holding a boolean, or a string. *)
Definition optional_bool (o : option json) : option (option bool) :=
  match o with
  | None => Some None
  | Some (JBool b) => Some (Some b)
  | Some _ => None
  end.

Definition optional_string (o : option json) : option (option jsstring) :=
  match o with
  | None => Some None
  | Some (JStr s) => Some (Some s)
  | Some _ => None
  end.

Definition conversation_of_json (j : json) : option conversation :=
  match get_prop j "id", get_prop j "title", get_prop j "messages",
        get_prop j "created_at", get_prop j "updated_at", get_prop j "starred"
  with
  | Some (JStr i), Some (JStr t), Some (JArr ms),
    Some (JStr ca), Some (JStr ua), Some (JBool s) =>
      match messages_of_json ms, optional_bool (get_prop j "pinned"),
            optional_string (get_prop j "lastMessage"),
            optional_string (get_prop j "session_id")
      with
      | Some l, Some p, Some lm, Some sid =>
          let c := Conversation i t l ca ua s p lm sid in
          if json_eqb (conversation_to_json c) j then Some c else None
      | _, _, _, _ => None
      end
  | _, _, _, _, _, _ => None
  end.

(** ** Platform readings

    [Date.now()] and [Math.random().toString(36)] at the moment an
    identifier is generated. *)
Record id_seed := Seed { date_now : N; random36 : jsstring }.

Record http_request := Request {
  endpoint : jsstring;
  method : jsstring;
  body : jsstring;
  authorization : option jsstring
}.

Record toast := Toast {
  toast_title : jsstring;
  toast_message : jsstring;
  toast_type : jsstring
}.

Record user := User {
  user_id : option json;
  email : option json;
  name : option json;
  exp : option json
}.

Record chat_state := ChatState {
  currentConversation : option (conversation_of array_ref);
  sessionId : option jsstring;
  chat_messages : list message;
  isTyping : bool
}.

(** The part of the page the modules act on.  [pathname] is the path of
    the document being shown; [location_href] is the last navigation
    requested by assigning [window.location.href], if any; [requests]
    are the requests handed to [fetch], oldest first; [ui_updates]
    counts the calls of [Auth.updateUI]. *)
Record world := World {
  localStorage : gmap string jsstring;
  api_token : option jsstring;
  auth_user : option user;
  chat : chat_state;
  pathname : jsstring;
  location_href : option jsstring;
  chatTitle : jsstring;
  requests : list http_request;
  toasts : list toast;
  ui_updates : nat
}.

Definition set_storage (ls : gmap string jsstring) (w : world) : world :=
  World ls (api_token w) (auth_user w) (chat w) (pathname w) (location_href w)
        (chatTitle w) (requests w) (toasts w) (ui_updates w).
Definition set_api_token (t : option jsstring) (w : world) : world :=
  World (localStorage w) t (auth_user w) (chat w) (pathname w) (location_href w)
        (chatTitle w) (requests w) (toasts w) (ui_updates w).
Definition set_auth_user (u : option user) (w : world) : world :=
  World (localStorage w) (api_token w) u (chat w) (pathname w) (location_href w)
        (chatTitle w) (requests w) (toasts w) (ui_updates w).
Definition set_chat (c : chat_state) (w : world) : world :=
  World (localStorage w) (api_token w) (auth_user w) c (pathname w) (location_href w)
        (chatTitle w) (requests w) (toasts w) (ui_updates w).
Definition set_location (l : jsstring) (w : world) : world :=
  World (localStorage w) (api_token w) (auth_user w) (chat w) (pathname w)
        (Some l)
        (chatTitle w) (requests w) (toasts w) (ui_updates w).
Definition set_chatTitle (t : jsstring) (w : world) : world :=
  World (localStorage w) (api_token w) (auth_user w) (chat w) (pathname w) (location_href w)
        t (requests w) (toasts w) (ui_updates w).
Definition push_request (r : http_request) (w : world) : world :=
  World (localStorage w) (api_token w) (auth_user w) (chat w) (pathname w) (location_href w)
        (chatTitle w) (requests w ++ [r]) (toasts w) (ui_updates w).
Definition push_toast (t : toast) (w : world) : world :=
  World (localStorage w) (api_token w) (auth_user w) (chat w) (pathname w) (location_href w)
        (chatTitle w) (requests w) (toasts w ++ [t]) (ui_updates w).
Definition count_ui_update (w : world) : world :=
  World (localStorage w) (api_token w) (auth_user w) (chat w) (pathname w) (location_href w)
        (chatTitle w) (requests w) (toasts w) (S (ui_updates w)).

(** ** API module *)

Module API.

Definition getToken (w : world) : option jsstring :=
  localStorage w !! "auth_token".

Definition removeToken (w : world) : world :=
  set_api_token None (set_storage (delete "auth_token" (localStorage w)) w).

Definition generateSessionId (s : id_seed) : jsstring :=
  js "session_" ++ JSON.print_N (date_now s) ++ js "_"
    ++ substr 2 9 (random36 s).

Definition generateConversationId (s : id_seed) : jsstring :=
  js "conv_" ++ JSON.print_N (date_now s) ++ js "_"
    ++ substr 2 9 (random36 s).

(** The request that [request(endpoint, options)] hands to [fetch]. *)
Definition request (w : world) (ep meth bod : jsstring) : http_request :=
  Request ep meth bod
    (if opt_truthy (api_token w)
     then Some (js "Bearer " ++ default [] (api_token w))
     else None).

(** [sendMessage(message, sessionId = null)]: the request it issues.
    [seed] is consulted only when a session id has to be generated. *)
Definition sendMessage (w : world) (seed : id_seed)
    (msg : jsstring) (sid : option jsstring) : http_request :=
  request w CONFIG.CHAT (js "POST")
    (JSON.stringify
       (JObj [(js "message", JStr msg);
              (js "session_id",
               JStr (or_else sid (generateSessionId seed)))])).

Definition getConversations (w : world) : outcome json :=
  match localStorage w !! CONFIG.CONVERSATIONS_STORAGE_KEY with
  | Some stored =>
      if str_truthy stored then
        match JSON.parse stored with
        | Some v => Ok v
        | None => Throw syntax_error
        end
      else Ok (JArr [])
  | None => Ok (JArr [])
  end.

(** [c.id === cid] for a string [cid] and a non-null [c]. *)
Definition has_id (cid : jsstring) (c : json) : bool :=
  strict_eq_string (get_prop c "id") cid.

(** [conversations.findIndex(c => c.id === cid)] *)
Fixpoint findIndex (cid : jsstring) (l : list json) : outcome (option nat) :=
  match l with
  | [] => Ok None
  | JNull :: _ => Throw type_error
  | c :: r =>
      if has_id cid c then Ok (Some O)
      else
        match findIndex cid r with
        | Ok (Some i) => Ok (Some (S i))
        | other => other
        end
  end.

(** [saveConversation(conversation)], on the value the conversation
    has when it is serialised.  Local storage is taken to have room for
    the new text. *)
Definition saveConversation (w : world) (c : conversation)
  : outcome world :=
  match getConversations w with
  | Throw e => Throw e
  | Ok (JArr conversations) =>
      match findIndex (id c) conversations with
      | Throw e => Throw e
      | Ok found =>
          let updated :=
            match found with
            | Some index => <[index := conversation_to_json c]> conversations
            | None => conversation_to_json c :: conversations
            end in
          Ok (set_storage
                (<[CONFIG.CONVERSATIONS_STORAGE_KEY :=
                     JSON.stringify (JArr updated)]> (localStorage w)) w)
      end
  | Ok _ => Throw type_error
  end.


(** The request that [request(endpoint, options)] hands to [fetch] when
    the options carry [skipAuth]. *)
Definition request_with (skipAuth : bool) (w : world) (ep meth bod : jsstring)
  : http_request :=
  Request ep meth bod
    (if opt_truthy (api_token w) && negb skipAuth
     then Some (js "Bearer " ++ default [] (api_token w))
     else None).

(** What comes back from the network: the promise of [fetch] rejects
    with an error, or a response arrives, with its status and the text
    of its body. *)
Inductive fetched :=
  | NetworkError (message : jsstring)
  | Response (status : N) (text : jsstring).

(** [response.ok] *)
Definition ok (status : N) : bool := (200 <=? status) && (status <=? 299).

Definition http_error (status : N) : jsstring :=
  js "HTTP error! status: " ++ JSON.print_N status.

(** How [request] settles, from [await response.json()] on.  [None]:
    the response is not ok and [data.error] is a truthy value other than
    a string, whose conversion to the message of the error is outside
    the model. *)
Definition settle (r : fetched) : option (outcome json) :=
  match r with
  | NetworkError m => Some (Throw m)
  | Response status text =>
      match JSON.parse text with
      | None => Some (Throw syntax_error)
      | Some data =>
          if ok status then Some (Ok data)
          else
            match data with
            | JNull => Some (Throw type_error)
            | _ =>
                match get_prop data "error" with
                | Some (JStr e) =>
                    Some (Throw (or_else (Some e) (http_error status)))
                | Some v =>
                    if truthy v then None else Some (Throw (http_error status))
                | None => Some (Throw (http_error status))
                end
            end
      end
  end.


(** [saveConversation(conversation)] for an object whose [id] is the
    string [cid]. *)
Definition saveObject (w : world) (cid : jsstring) (conversation : json)
  : outcome world :=
  match getConversations w with
  | Throw e => Throw e
  | Ok (JArr conversations) =>
      match findIndex cid conversations with
      | Throw e => Throw e
      | Ok found =>
          let updated :=
            match found with
            | Some index => <[index := conversation]> conversations
            | None => conversation :: conversations
            end in
          Ok (set_storage
                (<[CONFIG.CONVERSATIONS_STORAGE_KEY :=
                     JSON.stringify (JArr updated)]> (localStorage w)) w)
      end
  | Ok _ => Throw type_error
  end.

(** [conversations.filter(c => c.id !== cid)] *)
Fixpoint without_id (cid : jsstring) (l : list json) : outcome (list json) :=
  match l with
  | [] => Ok []
  | JNull :: _ => Throw type_error
  | c :: r =>
      match without_id cid r with
      | Ok r' => Ok (if has_id cid c then r' else c :: r')
      | Throw e => Throw e
      end
  end.

(** [deleteConversation(id)] *)
Definition deleteConversation (cid : jsstring) (w : world) : outcome world :=
  match getConversations w with
  | Throw e => Throw e
  | Ok (JArr conversations) =>
      match without_id cid conversations with
      | Throw e => Throw e
      | Ok filtered =>
          Ok (set_storage
                (<[CONFIG.CONVERSATIONS_STORAGE_KEY :=
                     JSON.stringify (JArr filtered)]> (localStorage w)) w)
      end
  | Ok _ => Throw type_error
  end.


End API.

(** ** Chat module *)

Module Chat.

(** *** Message formatting *)

Definition is_word (c : N) : bool :=
  ((48 <=? c) && (c <=? 57)) || ((65 <=? c) && (c <=? 90))
  || (c =? 95) || ((97 <=? c) && (c <=? 122)).

Definition spaces (n : nat) : jsstring := repeat c_space n.
Definition quoted (s : string) : jsstring := [c_dquote] ++ js s ++ [c_dquote].
Definition fence : jsstring := [c_backtick; c_backtick; c_backtick].

(** The template literal returned by the code-block replacer, with its
    own line breaks and indentation. *)
Definition code_block_html (lang code : jsstring) : jsstring :=
  [c_nl] ++ spaces 16 ++ js "<div class=" ++ quoted "code-block" ++ js ">" ++
  [c_nl] ++ spaces 20 ++ js "<div class=" ++ quoted "code-header" ++ js ">" ++
  [c_nl] ++ spaces 24 ++ js "<span class=" ++ quoted "code-language" ++ js ">"
          ++ lang ++ js "</span>" ++
  [c_nl] ++ spaces 24 ++ js "<button class=" ++ quoted "code-copy-btn"
          ++ js ">Copy</button>" ++
  [c_nl] ++ spaces 20 ++ js "</div>" ++
  [c_nl] ++ spaces 20 ++ js "<div class=" ++ quoted "code-content"
          ++ js "><code>" ++ trim code ++ js "</code></div>" ++
  [c_nl] ++ spaces 16 ++ js "</div>" ++
  [c_nl] ++ spaces 12.

(** /```(\w+)?\n([\s\S]*?)```/ at the current index.  The optional
    group is greedy, so it takes the whole run of word characters; the
    body is lazy, so it ends at the nearest closing fence. *)
Definition m_code_block : matcher := fun s =>
  match strip_prefix fence s with
  | None => None
  | Some r =>
      let '(w, r1) := span is_word r in
      match r1 with
      | c :: r2 =>
          if c =? c_nl then
            match split_at_first fence r2 with
            | Some (code, _) =>
                let lang := match w with [] => None | _ => Some w end in
                Some (code_block_html (or_else lang (js "code")) code,
                      (3 + length w + 1 + length code + 3)%nat)
            | None => None
            end
          else None
      | [] => None
      end
  end.

(** A run of one or more code units other than [d], enclosed in [open]
    and [close]: the shape of the three inline expressions. *)
Definition m_delimited (d : N) (delim : jsstring) (before after : jsstring)
  : matcher := fun s =>
  match strip_prefix delim s with
  | None => None
  | Some r =>
      let '(body, r1) := span (fun c => negb (c =? d)) r in
      match body, strip_prefix delim r1 with
      | _ :: _, Some _ =>
          Some (before ++ body ++ after,
                (length delim + length body + length delim)%nat)
      | _, _ => None
      end
  end.

(** /`([^`]+)`/ with replacement '<code>$1</code>'. *)
Definition m_inline_code : matcher :=
  m_delimited c_backtick [c_backtick] (js "<code>") (js "</code>").
(** /\*\*([^*]+)\*\*/ with replacement '<strong>$1</strong>'. *)
Definition m_bold : matcher :=
  m_delimited c_star [c_star; c_star] (js "<strong>") (js "</strong>").
(** /\*([^*]+)\*/ with replacement '<em>$1</em>'. *)
Definition m_italic : matcher :=
  m_delimited c_star [c_star] (js "<em>") (js "</em>").
(** /\n/ with replacement '<br>'. *)
Definition m_newline : matcher := fun s =>
  match s with
  | c :: _ => if c =? c_nl then Some (js "<br>", 1%nat) else None
  | [] => None
  end.

Definition formatMessage (content : jsstring) : jsstring :=
  let formatted := UI.escapeHtml content in
  let formatted := replace_all m_code_block formatted in
  let formatted := replace_all m_inline_code formatted in
  let formatted := replace_all m_bold formatted in
  let formatted := replace_all m_italic formatted in
  let formatted := replace_all m_newline formatted in
  formatted.

(** *** Conversation state *)

(** The value of the conversation object, given the contents of
    [chat.messages]. *)
Definition resolve (buffer : list message) (c : conversation_of array_ref)
  : conversation :=
  Conversation (id c) (title c)
    (match messages c with OwnArray l => l | ChatMessages => buffer end)
    (created_at c) (updated_at c) (starred c) (pinned c) (lastMessage c)
    (session_id c).

Definition set_title (t : jsstring) (c : conversation_of array_ref) :=
  Conversation (id c) t (messages c) (created_at c) (updated_at c)
    (starred c) (pinned c) (lastMessage c) (session_id c).
Definition set_messages (m : array_ref) (c : conversation_of array_ref) :=
  Conversation (id c) (title c) m (created_at c) (updated_at c)
    (starred c) (pinned c) (lastMessage c) (session_id c).
Definition set_lastMessage (l : option jsstring) (c : conversation_of array_ref) :=
  Conversation (id c) (title c) (messages c) (created_at c) (updated_at c)
    (starred c) (pinned c) l (session_id c).
Definition set_updated_at (t : jsstring) (c : conversation_of array_ref) :=
  Conversation (id c) (title c) (messages c) (created_at c) t
    (starred c) (pinned c) (lastMessage c) (session_id c).

Definition set_currentConversation (c : conversation_of array_ref) (w : world) :=
  set_chat (ChatState (Some c) (sessionId (chat w)) (chat_messages (chat w))
                      (isTyping (chat w))) w.
Definition set_isTyping (b : bool) (w : world) :=
  set_chat (ChatState (currentConversation (chat w)) (sessionId (chat w))
                      (chat_messages (chat w)) b) w.

(** The state left by the constructor. *)
Definition constructed : chat_state := ChatState None None [] false.

(** [this.messages.push(message)]; the rendering of the message is
    outside the model. *)
Definition addMessage (m : message) (w : world) : world :=
  set_chat (ChatState (currentConversation (chat w)) (sessionId (chat w))
                      (chat_messages (chat w) ++ [m]) (isTyping (chat w))) w.

Definition showTypingIndicator := set_isTyping true.
Definition hideTypingIndicator := set_isTyping false.

(** Readings taken by [startNewConversation]: for the conversation
    id, the two [new Date().toISOString()], and for the session id. *)
Record start_env := StartEnv {
  conv_seed : id_seed;
  created_iso : jsstring;
  updated_iso : jsstring;
  session_seed : id_seed
}.

Definition startNewConversation (e : start_env) (w : world) : world :=
  set_chatTitle (js "New conversation")
    (set_chat
       (ChatState
          (Some (Conversation (API.generateConversationId (conv_seed e))
                   (js "New conversation") (OwnArray [])
                   (created_iso e) (updated_iso e) false None None None))
          (Some (API.generateSessionId (session_seed e)))
          []
          (isTyping (chat w)))
       w).

(** [c.pinned], as a condition. *)
Definition is_pinned (c : json) : bool :=
  opt_json_truthy (get_prop c "pinned").

(** [conversations.filter(c => c.pinned)] ([want = true]) and
    [conversations.filter(c => !c.pinned)] ([want = false]). *)
Fixpoint filter_pinned (want : bool) (l : list json) : outcome (list json) :=
  match l with
  | [] => Ok []
  | JNull :: _ => Throw type_error
  | c :: r =>
      match filter_pinned want r with
      | Ok r' =>
          Ok (if eqb (is_pinned c) want then c :: r' else r')
      | Throw e => Throw e
      end
  end.

(** [loadConversationsList]: the sequences handed to the renderer of
    the pinned list and of the recent list. *)
Definition loadConversationsList (w : world) : outcome (list json * list json) :=
  match API.getConversations w with
  | Throw e => Throw e
  | Ok (JArr conversations) =>
      match filter_pinned true conversations with
      | Throw e => Throw e
      | Ok pinned =>
          match filter_pinned false conversations with
          | Throw e => Throw e
          | Ok unpinned => Ok (pinned, firstn 15 unpinned)
          end
      end
  | Ok _ => Throw type_error
  end.

(** [userMessage.substring(0, 50) + (userMessage.length > 50 ? '...' : '')] *)
Definition derived_title (m : jsstring) : jsstring :=
  substring0 50 m ++ (if (50 <? length m)%nat then js "..." else []).

Record update_env := UpdateEnv {
  start : start_env;
  update_iso : jsstring
}.

(** [updateConversation(userMessage, aiResponse)].  It is called
    without [await]: when it fails part-way the changes made so far
    stay and the failure reaches nobody. *)
Definition updateConversation (e : update_env) (userMessage : jsstring)
    (aiResponse : option json) (w : world) : world :=
  let w1 :=
    match currentConversation (chat w) with
    | None => startNewConversation (start e) w
    | Some _ => w
    end in
  match currentConversation (chat w1) with
  | None => w1
  | Some c =>
      let titled := Nat.eqb (length (chat_messages (chat w1))) 2 in
      let new_title := derived_title userMessage in
      let c1 := if titled then set_title new_title c else c in
      let w2 := if titled then set_chatTitle new_title w1 else w1 in
      let c2 := set_messages ChatMessages c1 in
      let finish (last : option jsstring) :=
        let c3 := set_updated_at (update_iso e) (set_lastMessage last c2) in
        let w3 := set_currentConversation c3 w2 in
        match API.saveConversation w3 (resolve (chat_messages (chat w3)) c3) with
        | Ok w4 => w4
        | Throw _ => w3
        end in
      match aiResponse with
      | None | Some JNull => finish None
      | Some (JStr s) => finish (Some (substring0 100 s))
      | Some _ => set_currentConversation c2 w2
      end
  end.

Record turn_env := TurnEnv {
  user_iso : jsstring;
  api_seed : id_seed;
  ai_iso : jsstring;
  upd : update_env
}.

Definition USER : jsstring := js "user".
Definition AI : jsstring := js "ai".

(** The part of [sendMessage] that runs once the reply [response] has
    arrived: the reply, when it has a truthy [response], becomes a
    message, and the conversation is updated. *)
Definition add_reply (e : turn_env) (response : json) (w : world) : world :=
  match get_prop response "response" with
  | Some r =>
      if truthy r then
        addMessage (Message AI r (ai_iso e)
                      (get_prop response "confidence")
                      (get_prop response "sources")) w
      else w
  | None => w
  end.

Definition on_response (e : turn_env) (message : jsstring) (response : json)
    (w : world) : world :=
  updateConversation (upd e) message (get_prop response "response")
    (add_reply e response (hideTypingIndicator w)).

(** The [catch] block. *)
Definition on_error (msg : jsstring) (w : world) : world :=
  push_toast (Toast (js "Error")
                    (or_else (Some msg) (js "Failed to send message"))
                    (js "error"))
             (hideTypingIndicator w).

(** [sendMessage()] with [text] the value of the chat input and
    [reply] the settlement of [window.api.sendMessage(...)].  Reading
    [response.response] of a [null] reply throws inside the [try]. *)
Definition sendMessage (e : turn_env) (text : jsstring)
    (reply : outcome json) (w : world) : world :=
  let message := trim text in
  if negb (str_truthy message) then w
  else
    let w1 := addMessage (Message USER (JStr message) (user_iso e) None None) w in
    let w2 := showTypingIndicator w1 in
    let w3 :=
      push_request
        (API.sendMessage w2 (api_seed e) message (sessionId (chat w2))) w2 in
    match reply with
    | Throw msg => on_error msg w3
    | Ok JNull => on_error type_error w3
    | Ok response => on_response e message response w3
    end.

(** A sequence of turns, one after the other. *)
Definition turns (l : list (turn_env * jsstring * outcome json)) (w : world)
  : world :=
  fold_left (fun w t => sendMessage (fst (fst t)) (snd (fst t)) (snd t) w) l w.

(** [conversations.find(c => c.id === id)], the lookup made by
    [loadConversation] and by the pin action. *)
Fixpoint find_conversation (cid : jsstring) (l : list json)
  : outcome (option json) :=
  match l with
  | [] => Ok None
  | JNull :: _ => Throw type_error
  | c :: r =>
      if API.has_id cid c then Ok (Some c) else find_conversation cid r
  end.

(** *** Loading a stored conversation *)




(** *** The input handler *)

(** What [handleInput] reads and writes of the page: the [disabled]
    flag of the send button, [style.display] of the character counter,
    the text of the count, and whether the counter carries the classes
    [warning] and [error]. *)
Record composer := Composer {
  sendBtn_disabled : bool;
  charCounter_display : jsstring;
  charCount : jsstring;
  has_warning : bool;
  has_error : bool
}.

(** [handleInput(e)] with [value] the value of the input. *)
Definition handleInput (value : jsstring) (p : composer) : composer :=
  let len := length value in
  let disabled := Nat.eqb len 0 in
  if (CONFIG.MAX_MESSAGE_LENGTH - 300 <? len)%nat then
    let count := JSON.print_N (N.of_nat len) in
    if (CONFIG.MAX_MESSAGE_LENGTH <? len)%nat then
      Composer true (js "block") count (has_warning p) true
    else if (CONFIG.MAX_MESSAGE_LENGTH - 100 <? len)%nat then
      Composer disabled (js "block") count true false
    else
      Composer disabled (js "block") count false false
  else
    Composer disabled (js "none") (charCount p) (has_warning p) (has_error p).


End Chat.

(** ** A freshly loaded page

    The state after the scripts have run their constructors over the
    given local storage, on the document at [path]: the API object has
    read the stored token, nobody is loaded, the chat is empty. *)
Definition page (ls : gmap string jsstring) (path : jsstring) : world :=
  World ls (ls !! "auth_token") None Chat.constructed path None [] [] [] 0.

(** ** Auth module *)

Module Auth.

(** [s.split('.')] *)
Fixpoint split_dots (s : jsstring) : list jsstring :=
  match s with
  | [] => [[]]
  | c :: r =>
      if c =? 46 then [] :: split_dots r
      else
        match split_dots r with
        | seg :: segs => (c :: seg) :: segs
        | [] => [[c]]
        end
  end.

(** *** [atob]: forgiving-base64 decode *)

Definition is_ascii_ws (c : N) : bool :=
  (c =? 9) || (c =? 10) || (c =? 12) || (c =? 13) || (c =? 32).

Definition sextet (c : N) : option N :=
  if (65 <=? c) && (c <=? 90) then Some (c - 65)
  else if (97 <=? c) && (c <=? 122) then Some (c - 71)
  else if (48 <=? c) && (c <=? 57) then Some (c + 4)
  else if c =? 43 then Some 62
  else if c =? 47 then Some 63
  else None.

Fixpoint sextets (s : jsstring) : option (list N) :=
  match s with
  | [] => Some []
  | c :: r =>
      match sextet c, sextets r with
      | Some v, Some vs => Some (v :: vs)
      | _, _ => None
      end
  end.

Fixpoint octets (l : list N) : jsstring :=
  match l with
  | a :: b :: c :: d :: r =>
      (a * 4 + b / 16) :: ((b mod 16) * 16 + c / 4) :: ((c mod 4) * 64 + d)
        :: octets r
  | [a; b; c] => [a * 4 + b / 16; (b mod 16) * 16 + c / 4]
  | [a; b] => [a * 4 + b / 16]
  | _ => []
  end.

Definition strip_padding (s : jsstring) : jsstring :=
  if (length s mod 4 =? 0)%nat then
    match rev s with
    | 61 :: 61 :: r => rev r
    | 61 :: r => rev r
    | _ => s
    end
  else s.

(** [None] when [atob] throws InvalidCharacterError. *)
Definition atob (data : jsstring) : option jsstring :=
  let d := strip_padding (List.filter (fun c => negb (is_ascii_ws c)) data) in
  if (length d mod 4 =? 1)%nat then None
  else
    match sextets d with
    | Some l => Some (octets l)
    | None => None
    end.

(** [JSON.parse(atob(token.split('.')[1]))]; a missing segment reaches
    [atob] as the text "undefined". *)
Definition decode_payload (token : jsstring) : option json :=
  match atob (default (js "undefined") (split_dots token !! 1%nat)) with
  | Some text => JSON.parse text
  | None => None
  end.

(** [a || b] *)
Definition or_json (a b : option json) : option json :=
  if opt_json_truthy a then a else b.

(** [now >= m * 10^e * 1000], exactly. *)
Definition reached (now : N) (n : number) : bool :=
  let k := (expo n + 3)%Z in
  if (0 <=? k)%Z then (mant n * 10 ^ k <=? Z.of_N now)%Z
  else (mant n <=? Z.of_N now * 10 ^ (- k))%Z.

(** [this.user.exp && Date.now() >= this.user.exp * 1000].  [None]:
    [exp] is a truthy value other than a number, whose conversion to a
    number is outside the model. *)
Definition expired (now : N) (e : option json) : option bool :=
  match e with
  | None => Some false
  | Some v =>
      if truthy v then
        match v with
        | JNum n => Some (reached now n)
        | _ => None
        end
      else Some false
  end.

Definition updateUI (w : world) : world := count_ui_update w.

Definition logout (w : world) : world :=
  set_location (js "/auth.html")
    (set_storage ∅ (set_auth_user None (API.removeToken w))).

(** [loadUser()] at time [now] ([Date.now()]).  The result is [None]
    only for a token outside the modelled fragment (see [expired]). *)
Definition loadUser (now : N) (w : world) : option world :=
  match API.getToken w with
  | None => Some w
  | Some token =>
      if negb (str_truthy token) then Some w
      else
        match decode_payload token with
        | None | Some JNull => Some (logout w)
        | Some payload =>
            let u :=
              User (or_json (get_prop payload "sub") (get_prop payload "user_id"))
                   (get_prop payload "email")
                   (or_json (get_prop payload "name") (get_prop payload "username"))
                   (get_prop payload "exp") in
            let w1 := set_auth_user (Some u) w in
            match expired now (exp u) with
            | None => None
            | Some true => Some (logout w1)
            | Some false => Some (updateUI w1)
            end
        end
  end.

Definition includes (needle s : jsstring) : bool :=
  match split_at_first needle s with Some _ => true | None => false end.

Definition isGuestMode (w : world) : bool :=
  bool_decide (localStorage w !! "auth_mode" = Some (js "guest")).

Definition isLoggedIn (w : world) : bool := opt_truthy (API.getToken w).

(** [checkAuth()] *)
Definition checkAuth (w : world) : world * bool :=
  let isAuthPage := includes (js "auth.html") (pathname w) in
  let hasAccess := isLoggedIn w || isGuestMode w in
  if negb hasAccess && negb isAuthPage then (set_location (js "/auth.html") w, false)
  else if hasAccess && isAuthPage then (set_location (js "/") w, false)
  else (w, true).


(** The access state that [checkAuth] acts on. *)
Inductive session := Unauthenticated | Guest | Authenticated.

Definition session_of (w : world) : session :=
  if isLoggedIn w then Authenticated
  else if isGuestMode w then Guest
  else Unauthenticated.


(** The request issued by [changePassword(currentPassword, newPassword)]. *)
Definition changePassword_request (w : world) (currentPassword newPassword : jsstring)
  : http_request :=
  API.request w (js "/api/auth/change-password") (js "POST")
    (JSON.stringify
       (JObj [(js "current_password", JStr currentPassword);
              (js "new_password", JStr newPassword)])).

(** What [changePassword] resolves to, given how its request settles:
    [response.success], or [false] from the [catch] block. *)
Definition changePassword (reply : outcome json) : option json :=
  match reply with
  | Throw _ | Ok JNull => Some (JBool false)
  | Ok response => get_prop response "success"
  end.


End Auth.

(** ** UI module: the actions on conversations and the page

    The methods of the [UI] class that are defined over the chat and
    the store. *)

Module UIActions.

(** [loadTheme()] *)
Definition loadTheme (ls : gmap string jsstring) : jsstring :=
  or_else (ls !! CONFIG.THEME_STORAGE_KEY) (js "dark").

(** [toggleTheme()] on [this.theme]: the new theme and the storage
    after [saveTheme]. *)
Definition toggleTheme (theme : jsstring) (ls : gmap string jsstring)
  : jsstring * gmap string jsstring :=
  let theme' := if bool_decide (theme = js "dark") then js "light" else js "dark" in
  (theme', <[CONFIG.THEME_STORAGE_KEY := theme']> ls).

(** [obj.k = v] on the members of an object: the member keeps its
    place when the key is there, and is added last otherwise. *)
Definition assign (k : jsstring) (v : json) (l : list (jsstring * json))
  : list (jsstring * json) :=
  match lookup_last k l with
  | Some _ => map (fun kv => if bool_decide (fst kv = k) then (fst kv, v) else kv) l
  | None => l ++ [(k, v)]
  end.

(** [conv.pinned = !conv.pinned] *)
Definition toggle_pinned (conv : json) : json :=
  match conv with
  | JObj l => JObj (assign (js "pinned") (JBool (negb (Chat.is_pinned conv))) l)
  | other => other
  end.

(** [pinConversation(id)].  Nobody awaits it: when a step fails, what
    was done before stays and the failure reaches nobody. *)
Definition pinConversation (cid : jsstring) (w : world) : world :=
  match API.getConversations w with
  | Ok (JArr conversations) =>
      match Chat.find_conversation cid conversations with
      | Ok (Some conv) =>
          let conv' := toggle_pinned conv in
          match API.saveObject w cid conv' with
          | Ok w1 =>
              match Chat.loadConversationsList w1 with
              | Ok _ =>
                  push_toast
                    (if Chat.is_pinned conv'
                     then Toast (js "Pinned") (js "Conversation pinned") (js "success")
                     else Toast (js "Unpinned") (js "Conversation unpinned")
                            (js "success"))
                    w1
              | Throw _ => w1
              end
          | Throw _ => w
          end
      | _ => w
      end
  | _ => w
  end.

(** [deleteConversation(id)], with [confirmed] the answer to the
    [confirm] dialog. *)
Definition deleteConversation (confirmed : bool) (cid : jsstring) (w : world)
  : world :=
  if confirmed then
    match API.deleteConversation cid w with
    | Ok w1 =>
        match Chat.loadConversationsList w1 with
        | Ok _ =>
            push_toast (Toast (js "Deleted") (js "Conversation deleted")
                          (js "success")) w1
        | Throw _ => w1
        end
    | Throw _ => w
    end
  else w.

(** [clearConversation()], with [confirmed] the answer to the
    [confirm] dialog. *)
Definition clearConversation (confirmed : bool) (w : world) : world :=
  if confirmed then
    match currentConversation (chat w) with
    | Some c =>
        push_toast (Toast (js "Cleared") (js "All messages cleared") (js "success"))
          (set_chat
             (ChatState (Some (Chat.set_messages (OwnArray []) c))
                        (sessionId (chat w)) [] (isTyping (chat w)))
             w)
    | None => w
    end
  else w.

(** [currentConversation.starred = b] *)
Definition set_starred (b : bool) (c : conversation_of array_ref)
  : conversation_of array_ref :=
  Conversation (id c) (title c) (messages c) (created_at c) (updated_at c)
    b (pinned c) (lastMessage c) (session_id c).

(** [toggleStar()], with [isStarred] whether the icon of the star
    button carries the class [fas]: the new state of the icon and the
    page.  The save is not awaited: when it fails, what was done before
    stays and the failure reaches nobody. *)
Definition toggleStar (isStarred : bool) (w : world) : bool * world :=
  let w1 :=
    match currentConversation (chat w) with
    | Some c =>
        let c' := set_starred (negb isStarred) c in
        let w' := Chat.set_currentConversation c' w in
        match API.saveConversation w' (Chat.resolve (chat_messages (chat w')) c') with
        | Ok w'' => w''
        | Throw _ => w'
        end
    | None => w
    end in
  (negb isStarred,
   push_toast
     (if isStarred
      then Toast (js "Unstarred") (js "Removed from starred") (js "success")
      else Toast (js "Starred") (js "Added to starred") (js "success"))
     w1).



(** What [formatTime] returns: a text of its own, or the date in the
    format of the locale. *)
Inductive time_label :=
  | Label (text : jsstring)
  | LocaleDate.

(** [formatTime(timestamp)], with [diff] the milliseconds from the
    timestamp to now ([now - date]). *)
Definition formatTime (diff : Z) : time_label :=
  let hours := (diff / 3600000)%Z in
  let days := (diff / 86400000)%Z in
  if (hours <? 1)%Z then Label (js "Just now")
  else if (hours <? 24)%Z then Label (JSON.print_Z hours ++ js "h ago")
  else if (days =? 1)%Z then Label (js "Yesterday")
  else if (days <? 7)%Z then Label (JSON.print_Z days ++ js "d ago")
  else LocaleDate.

End UIActions.

(** ** The functions of the account menu *)

Module Account.

(** [goToSignIn()] *)
Definition goToSignIn (w : world) : world :=
  set_location (js "/auth.html")
    (set_storage (delete "guest_id" (delete "auth_mode" (localStorage w))) w).

(** The function [changePassword()] behind the settings form, with the
    values of its three fields and, for the case that the request is
    made, how it settles. *)
Definition changePassword (currentPassword newPassword confirmPassword : jsstring)
    (reply : outcome json) (w : world) : world :=
  if negb (str_truthy currentPassword) || negb (str_truthy newPassword)
     || negb (str_truthy confirmPassword) then
    push_toast (Toast (js "Missing fields") (js "Please fill in all fields")
                  (js "warning")) w
  else if negb (bool_decide (newPassword = confirmPassword)) then
    push_toast (Toast (js "Passwords do not match")
                  (js "New passwords do not match") (js "error")) w
  else if (length newPassword <? 8)%nat then
    push_toast (Toast (js "Password too short")
                  (js "Password must be at least 8 characters") (js "error")) w
  else
    let w1 :=
      push_request (Auth.changePassword_request w currentPassword newPassword) w in
    if opt_json_truthy (Auth.changePassword reply) then
      push_toast (Toast (js "Password changed")
                    (js "Your password has been changed successfully")
                    (js "success")) w1
    else
      push_toast (Toast (js "Change failed")
                    (js "Failed to change password. Check your current password.")
                    (js "error")) w1.

End Account.

(** ** Vocabulary of the statements *)

(** The text with every newline replaced by the break marker and
    nothing else changed. *)
Definition breaks_only (s : jsstring) : jsstring :=
  concat (map (fun c => if c =? c_nl then js "<br>" else [c]) s).

(** The text that follows a value inside printed JSON starts with a
    comma or a closing bracket, or is empty. *)
Definition delimited (rest : jsstring) : Prop :=
  match rest with
  | [] => True
  | c :: _ => c = 44 \/ c = 93 \/ c = 125
  end.

(** No digit follows: the end of a digit run. *)
Definition no_digit_ahead (rest : jsstring) : Prop :=
  match rest with
  | [] => True
  | c :: _ => JSON.is_digit c = false
  end.

(** Nothing follows that could continue a number. *)
Definition number_end (rest : jsstring) : Prop :=
  match rest with
  | [] => True
  | c :: _ => JSON.is_digit c = false /\ c <> 46 /\ c <> 101 /\ c <> 69
  end.

(** [j], once printed, is read back by the parser, whatever follows it
    inside printed JSON. *)
Definition reads_back (j : json) : Prop :=
  forall fuel rest,
    (length (JSON.print j) < fuel)%nat -> delimited rest ->
    JSON.parse_value fuel (JSON.print j ++ rest) = Some (j, rest).

(** One member of a printed object. *)
Definition print_member (kv : jsstring * json) : jsstring :=
  JSON.quote (fst kv) ++ 58 :: JSON.print (snd kv).

(** The [id] property of a stored entry. *)
Definition entry_id (e : json) : option json := get_prop e "id".

(** The turn completes: the reply arrived and can be read. *)
Definition completed (reply : outcome json) : bool :=
  match reply with
  | Throw _ | Ok JNull => false
  | Ok _ => true
  end.

(** The user message appended by a turn and the request it issues. *)
Definition user_message (e : Chat.turn_env) (text : jsstring) : message :=
  Message Chat.USER (JStr (trim text)) (Chat.user_iso e) None None.

Definition turn_request (e : Chat.turn_env) (text : jsstring) (w : world)
  : http_request :=
  API.sendMessage w (Chat.api_seed e) (trim text) (sessionId (chat w)).

(** The world in which the reply of a turn arrives. *)
Definition awaiting (e : Chat.turn_env) (text : jsstring) (w : world) : world :=
  push_request (turn_request e text w)
    (Chat.showTypingIndicator (Chat.addMessage (user_message e text) w)).

(** The body of a chat request for a message and a session id. *)
Definition chat_body (msg sid : jsstring) : jsstring :=
  JSON.stringify (JObj [(js "message", JStr msg); (js "session_id", JStr sid)]).

(** ** Sample data for the examples *)

Definition sample_start : Chat.start_env :=
  Chat.StartEnv (Seed 1700000000000 (js "0.k3j9x8q2ab1"))
                (js "2023-11-14T22:13:20.000Z") (js "2023-11-14T22:13:20.000Z")
                (Seed 1700000000000 (js "0.9zw4m1pt7cd")).

Definition sample_turn : Chat.turn_env :=
  Chat.TurnEnv (js "2023-11-14T22:13:25.000Z")
               (Seed 1700000005000 (js "0.4hf82ka0zq5"))
               (js "2023-11-14T22:13:26.500Z")
               (Chat.UpdateEnv sample_start (js "2023-11-14T22:13:26.501Z")).

(** A store whose second record was cut short while the first one is
    intact. *)
Definition truncated_store : jsstring :=
  js "[{" ++ Chat.quoted "id" ++ js ":" ++ Chat.quoted "conv_1" ++ js ","
    ++ Chat.quoted "title" ++ js ":" ++ Chat.quoted "hello" ++ js "},{"
    ++ Chat.quoted "id" ++ js ":" ++ Chat.quoted "conv_2" ++ js ","
    ++ Chat.quoted "tit".

(** ** Vocabulary of the further properties *)

(** The stored entries that do not have the id. *)
Definition others (cid : jsstring) (l : list json) : list json :=
  List.filter (fun c => negb (API.has_id cid c)) l.

(** The store can be read and holds conversation objects. *)
Definition holds (w : world) (stored : list json) : Prop :=
  API.getConversations w = Ok (JArr stored)
  /\ Forall (fun e => e <> JNull) stored.

(** The reply message appended by a turn whose reply text is [r]. *)
Definition ai_message (e : Chat.turn_env) (response : json) (r : jsstring)
  : message :=
  Message Chat.AI (JStr r) (Chat.ai_iso e)
    (get_prop response "confidence") (get_prop response "sources").

(** The conversation object after [updateConversation] has run on it
    with [n] messages in the buffer. *)
Definition updated (e : Chat.update_env) (um : jsstring) (last : option jsstring)
    (n : nat) (c : conversation_of array_ref) : conversation_of array_ref :=
  Conversation (id c)
    (if Nat.eqb n 2 then Chat.derived_title um else title c)
    ChatMessages (created_at c) (Chat.update_iso e)
    (starred c) (pinned c) last (session_id c).

(** The conversation object after a completed turn with reply text [r]
    that left [n] messages in the buffer. *)
Definition after_turn (e : Chat.turn_env) (text r : jsstring) (n : nat)
    (c : conversation_of array_ref) : conversation_of array_ref :=
  updated (Chat.upd e) (trim text) (Some (substring0 100 r)) n c.

(** The conversation opened by [startNewConversation]. *)
Definition fresh (e : Chat.start_env) : conversation_of array_ref :=
  Conversation (API.generateConversationId (Chat.conv_seed e))
    (js "New conversation") (OwnArray [])
    (Chat.created_iso e) (Chat.updated_iso e) false None None None.

(** ** Sample data for the further properties *)

Definition sample_reply : json :=
  JObj [(js "response", JStr (js "10")); (js "confidence", JNum (Number 9 (-1)))].

(** A page on which a conversation was opened and one exchange was
    completed. *)
Definition sample_open : world :=
  Chat.sendMessage sample_turn (js "5+5") (Ok sample_reply)
    (Chat.startNewConversation sample_start (page ∅ (js "/"))).

Definition sample_second_turn : Chat.turn_env :=
  Chat.TurnEnv (js "2023-11-14T22:14:00.000Z")
               (Seed 1700000040000 (js "0.7d1m3kq9xe2"))
               (js "2023-11-14T22:14:01.200Z")
               (Chat.UpdateEnv sample_start (js "2023-11-14T22:14:01.201Z")).

(** The conversation held by the chat on [sample_open], and its entry
    in the store. *)
Definition sample_conversation : conversation_of array_ref :=
  after_turn sample_turn (js "5+5") (js "10") 2 (fresh sample_start).

Definition sample_entry : json :=
  conversation_to_json
    (Chat.resolve (chat_messages (chat sample_open)) sample_conversation).


(** The page shown after the navigation that the program requested, if
    any: the same local storage, a new document. *)
Definition navigated (w : world) : world :=
  match location_href w with
  | Some target => page (localStorage w) target
  | None => w
  end.

(** The three fields of the password form are acceptable: none is
    empty, the new password is repeated, and it has 8 code units or
    more. *)
Definition acceptable (currentPassword newPassword confirmPassword : jsstring)
  : Prop :=
  currentPassword <> [] /\ newPassword <> []
  /\ newPassword = confirmPassword /\ (8 <= length newPassword)%nat.


(** * Properties *)

(** ** The formatter *)

Section Formatter.

Import Chat.

Lemma replace_all_no_trigger (m : matcher) (trig : N) (s : jsstring) :
  (forall c r, c <> trig -> m (c :: r) = None) ->
  ~ In trig s -> replace_all m s = s.
Proof.
  intros Hm. unfold replace_all.
  induction s as [|c r IH]; intros Hs; simpl; [reflexivity|].
  rewrite Hm by (intros ->; apply Hs; left; reflexivity).
  f_equal. apply IH. intros Hin. apply Hs. right. exact Hin.
Qed.

Lemma strip_prefix_head_ne (d : N) (p r : jsstring) (c : N) :
  c <> d -> strip_prefix (d :: p) (c :: r) = None.
Proof.
  intros Hne. simpl. destruct (N.eqb_spec d c); [congruence|reflexivity].
Qed.

Lemma m_code_block_trigger c r : c <> c_backtick -> m_code_block (c :: r) = None.
Proof.
  intros Hne. unfold m_code_block, fence.
  rewrite strip_prefix_head_ne by assumption. reflexivity.
Qed.

Lemma m_inline_code_trigger c r : c <> c_backtick -> m_inline_code (c :: r) = None.
Proof.
  intros Hne. unfold m_inline_code, m_delimited.
  rewrite strip_prefix_head_ne by assumption. reflexivity.
Qed.

Lemma m_bold_trigger c r : c <> c_star -> m_bold (c :: r) = None.
Proof.
  intros Hne. unfold m_bold, m_delimited.
  rewrite strip_prefix_head_ne by assumption. reflexivity.
Qed.

Lemma m_italic_trigger c r : c <> c_star -> m_italic (c :: r) = None.
Proof.
  intros Hne. unfold m_italic, m_delimited.
  rewrite strip_prefix_head_ne by assumption. reflexivity.
Qed.

Lemma replace_newlines (s : jsstring) : replace_all m_newline s = breaks_only s.
Proof.
  unfold replace_all, breaks_only.
  induction s as [|c r IH]; simpl; [reflexivity|].
  destruct (c =? c_nl); simpl; rewrite IH; reflexivity.
Qed.

(** Escaping only introduces the code units of the four entities. *)
Lemma escapeHtml_units (x : N) (s : jsstring) :
  In x (UI.escapeHtml s) -> In x s \/ In x (js "&amp;nbsp;lt;gt;").
Proof.
  unfold UI.escapeHtml. induction s as [|c r IH]; simpl; [tauto|].
  rewrite in_app_iff. intros [H|H].
  - unfold UI.escape_unit in H.
    repeat match type of H with
           | In _ (if ?b then _ else _) => destruct b
           end;
      try (right; revert H; cbn; tauto).
    destruct H as [H|[]]. left. left. exact H.
  - destruct (IH H) as [H'|H']; [left; right; exact H'|right; exact H'].
Qed.

Lemma escapeHtml_keeps_plain (d : N) (s : jsstring) :
  ~ In d (js "&amp;nbsp;lt;gt;") -> ~ In d s -> ~ In d (UI.escapeHtml s).
Proof. intros Hd Hs Hin. destruct (escapeHtml_units _ _ Hin); tauto. Qed.

Lemma escapeHtml_id (s : jsstring) :
  ~ In c_amp s -> ~ In c_nbsp s -> ~ In c_lt s -> ~ In c_gt s ->
  UI.escapeHtml s = s.
Proof.
  unfold UI.escapeHtml. induction s as [|c r IH]; simpl; [reflexivity|].
  intros Ha Hn Hl Hg. unfold UI.escape_unit at 1.
  destruct (N.eqb_spec c c_amp); [exfalso; apply Ha; left; assumption|].
  destruct (N.eqb_spec c c_nbsp); [exfalso; apply Hn; left; assumption|].
  destruct (N.eqb_spec c c_lt); [exfalso; apply Hl; left; assumption|].
  destruct (N.eqb_spec c c_gt); [exfalso; apply Hg; left; assumption|].
  simpl. f_equal. apply IH; tauto.
Qed.

Lemma breaks_only_id (s : jsstring) : ~ In c_nl s -> breaks_only s = s.
Proof.
  unfold breaks_only. induction s as [|c r IH]; simpl; [reflexivity|].
  intros Hn. destruct (N.eqb_spec c c_nl); [exfalso; apply Hn; left; assumption|].
  simpl. f_equal. apply IH. tauto.
Qed.

(** Without backticks and asterisks only the escaping and the line
    break stages act. *)
Lemma formatMessage_plain (s : jsstring) :
  ~ In c_backtick s -> ~ In c_star s ->
  formatMessage s = breaks_only (UI.escapeHtml s).
Proof.
  intros Hb Hs. unfold formatMessage.
  assert (Hb' : ~ In c_backtick (UI.escapeHtml s)).
  { apply escapeHtml_keeps_plain; [|exact Hb]. vm_compute. intuition discriminate. }
  assert (Hs' : ~ In c_star (UI.escapeHtml s)).
  { apply escapeHtml_keeps_plain; [|exact Hs]. vm_compute. intuition discriminate. }
  rewrite (replace_all_no_trigger m_code_block c_backtick)
    by (auto using m_code_block_trigger).
  rewrite (replace_all_no_trigger m_inline_code c_backtick)
    by (auto using m_inline_code_trigger).
  rewrite (replace_all_no_trigger m_bold c_star)
    by (auto using m_bold_trigger).
  rewrite (replace_all_no_trigger m_italic c_star)
    by (auto using m_italic_trigger).
  apply replace_newlines.
Qed.

(** C7 (as amended).  On text without backticks and asterisks the
    formatter returns the HTML-escaped text with every newline turned
    into the break marker.  The result is the input with only its
    newlines converted when the input has none of the escaped
    characters (ampersand, angle brackets, no-break space), and
    formatting is the identity, hence idempotent, when the input has no
    newline either. *)
Theorem formatMessage_plain_text (s : jsstring) :
  ~ In c_backtick s -> ~ In c_star s ->
  formatMessage s = breaks_only (UI.escapeHtml s)
  /\ (~ In c_amp s -> ~ In c_nbsp s -> ~ In c_lt s -> ~ In c_gt s ->
      formatMessage s = breaks_only s
      /\ (~ In c_nl s ->
          formatMessage s = s
          /\ formatMessage (formatMessage s) = formatMessage s)).
Proof.
  intros Hb Hs. pose proof (formatMessage_plain s Hb Hs) as Hf.
  split; [exact Hf|]. intros Ha Hn Hl Hg.
  rewrite escapeHtml_id in Hf by assumption.
  split; [exact Hf|]. intros Hnl.
  rewrite breaks_only_id in Hf by assumption.
  split; [exact Hf|]. rewrite Hf. exact Hf.
Qed.

Lemma formatMessage_plain_text_witness :
  let s := js "plain words, no markup" in
  formatMessage s = s /\ formatMessage (formatMessage s) = formatMessage s.
Proof.
  intros s.
  assert (Hfree : forall c, In c (js "`*&<>") \/ c = c_nbsp \/ c = c_nl -> ~ In c s).
  { intros c Hc Hin. vm_compute in Hc, Hin. intuition congruence. }
  destruct (formatMessage_plain_text s) as [_ H];
    [apply Hfree; vm_compute; tauto .. |].
  destruct H as [_ H]; [apply Hfree; vm_compute; tauto .. |].
  apply H. apply Hfree. vm_compute. tauto.
Defined.

(** C7 as stated fails: with an angle bracket and a newline in a text
    free of backticks and asterisks, the result is not the text with
    only its newlines converted, and formatting the result again
    changes it. *)
Lemma formatMessage_plain_text_counterexample :
  let s := js "a<b" ++ [c_nl] ++ js "c" in
  ~ In c_backtick s /\ ~ In c_star s
  /\ formatMessage s <> breaks_only s
  /\ formatMessage (formatMessage s) <> formatMessage s.
Proof. vm_compute. intuition discriminate. Qed.

(** C6.  On the fenced block of the example the formatter produces the
    code block for language [js] and code [console.log(1)], but the
    later line-break stage also rewrites the eight newlines of the
    block's own markup: the result carries eight break markers and is
    not the code block alone. *)
Theorem formatMessage_fenced_js_block :
  let input := fence ++ js "js" ++ [c_nl] ++ js "console.log(1)" ++ fence in
  let block := code_block_html (js "js") (js "console.log(1)") in
  formatMessage input = breaks_only block
  /\ count_occ N.eq_dec block c_nl = 8%nat
  /\ formatMessage input <> block.
Proof. vm_compute. intuition discriminate. Qed.

End Formatter.


(** ** JSON: what is written is read back *)

Section JsonRoundTrip.

Import JSON.

(** A strong induction principle for the nested type. *)
Lemma json_rect' (P : json -> Prop)
  (Hnull : P JNull) (Hbool : forall b, P (JBool b))
  (Hnum : forall n, P (JNum n)) (Hstr : forall s, P (JStr s))
  (Harr : forall l, Forall P l -> P (JArr l))
  (Hobj : forall l, Forall (fun kv => P (snd kv)) l -> P (JObj l)) :
  forall j, P j.
Proof.
  fix IH 1. intros [| b | n | s | l | l].
  - exact Hnull.
  - apply Hbool.
  - apply Hnum.
  - apply Hstr.
  - apply Harr. induction l as [|v l IHl]; constructor; [apply IH|exact IHl].
  - apply Hobj. induction l as [|[k v] l IHl]; constructor; [apply IH|exact IHl].
Qed.

Lemma delimited_no_digit rest : delimited rest -> no_digit_ahead rest.
Proof.
  destruct rest as [|c r]; simpl; [tauto|].
  intros [->|[->| ->]]; reflexivity.
Qed.

Lemma parse_print_uint (u : Decimal.uint) (rest : jsstring) :
  no_digit_ahead rest -> parse_uint (print_uint u ++ rest) = (u, rest).
Proof.
  intros Hrest.
  induction u; simpl; try (rewrite IHu; reflexivity).
  destruct rest as [|c r]; [reflexivity|]. simpl in *. rewrite Hrest. reflexivity.
Qed.

Lemma print_uint_length (u : Decimal.uint) :
  length (print_uint u) = uint_length u.
Proof. induction u; simpl; congruence. Qed.

(** The decimal numeral of a natural number is a non-empty digit
    string without a superfluous leading zero. *)
Lemma nzhead_int_part (u : Decimal.uint) :
  Decimal.nzhead u = Decimal.Nil \/ int_part_ok (Decimal.nzhead u) = true.
Proof. induction u; simpl; auto. Qed.

Lemma to_uint_int_part (n : N) : int_part_ok (N.to_uint n) = true.
Proof.
  rewrite <- (DecimalN.Unsigned.of_to n) at 1.
  rewrite DecimalN.Unsigned.to_of. unfold Decimal.unorm.
  destruct (nzhead_int_part (N.to_uint n)) as [E | H].
  - rewrite E. reflexivity.
  - destruct (Decimal.nzhead (N.to_uint n)); first [exact H | discriminate H].
Qed.

Lemma print_N_head (n : N) :
  exists c r, print_N n = c :: r /\ is_digit c = true.
Proof.
  unfold print_N. pose proof (to_uint_int_part n) as H.
  destruct (N.to_uint n); simpl in *; try discriminate; eauto.
Qed.

Lemma parse_print_N (n : N) (rest : jsstring) :
  no_digit_ahead rest ->
  parse_uint (print_N n ++ rest) = (N.to_uint n, rest).
Proof. apply parse_print_uint. Qed.

Lemma delimited_number_end rest : delimited rest -> number_end rest.
Proof.
  destruct rest as [|c r]; simpl; [tauto|].
  intros [->|[->| ->]]; repeat split; discriminate.
Qed.

Lemma is_digit_range c : is_digit c = true -> 48 <= c <= 57.
Proof. unfold is_digit. rewrite andb_true_iff, !N.leb_le. tauto. Qed.

Lemma to_uint_not_nil (n : N) : N.to_uint n <> Decimal.Nil.
Proof.
  pose proof (to_uint_int_part n) as H. intros E. rewrite E in H. discriminate.
Qed.

Lemma take_minus_print_Z (z : Z) (rest : jsstring) :
  take_minus (print_Z z ++ rest) = ((z <? 0)%Z, print_N (Z.abs_N z) ++ rest).
Proof.
  unfold print_Z. destruct (z <? 0)%Z; [reflexivity|]. simpl.
  destruct (print_N_head (Z.abs_N z)) as (c & r & E & D). rewrite E. simpl.
  apply is_digit_range in D.
  destruct (N.eqb_spec c 45); [lia|reflexivity].
Qed.

Lemma take_sign_print_Z (z : Z) (rest : jsstring) :
  take_sign (print_Z z ++ rest) = ((z <? 0)%Z, print_N (Z.abs_N z) ++ rest).
Proof.
  unfold print_Z. destruct (z <? 0)%Z; [reflexivity|]. simpl.
  destruct (print_N_head (Z.abs_N z)) as (c & r & E & D). rewrite E. simpl.
  apply is_digit_range in D.
  destruct (N.eqb_spec c 45); [lia|]. destruct (N.eqb_spec c 43); [lia|reflexivity].
Qed.

Lemma signed_abs (z : Z) :
  (if (z <? 0)%Z then - Z.of_N (Z.abs_N z) else Z.of_N (Z.abs_N z))%Z = z.
Proof. destruct (Z.ltb_spec z 0); lia. Qed.

Lemma parse_print_number (n : number) (rest : jsstring) :
  number_end rest -> parse_number (print_number n ++ rest) = Some (n, rest).
Proof.
  intros Hrest. destruct n as [m e]. unfold print_number, parse_number. simpl.
  rewrite <- app_assoc, take_minus_print_Z.
  assert (Hnd : no_digit_ahead rest)
    by (destruct rest; [exact I|apply Hrest]).
  destruct (Z.eqb_spec e 0) as [-> | He].
  - simpl. rewrite parse_print_N by exact Hnd.
    rewrite to_uint_int_part. simpl.
    assert (parse_fraction rest = Some (Decimal.Nil, rest)) as ->.
    { destruct rest as [|c r]; [reflexivity|]. simpl.
      destruct Hrest as (_ & H & _). destruct (N.eqb_spec c 46); [congruence|reflexivity]. }
    assert (parse_exponent rest = Some (0%Z, rest)) as ->.
    { destruct rest as [|c r]; [reflexivity|]. simpl.
      destruct Hrest as (_ & _ & H1 & H2).
      destruct (N.eqb_spec c 101); [congruence|].
      destruct (N.eqb_spec c 69); [congruence|reflexivity]. }
    simpl. rewrite DecimalN.Unsigned.of_to.
    rewrite N.mul_1_r, N.add_0_r, signed_abs. reflexivity.
  - rewrite parse_print_N by reflexivity.
    rewrite to_uint_int_part. simpl.
    rewrite take_sign_print_Z, parse_print_N by exact Hnd.
    pose proof (to_uint_not_nil (Z.abs_N e)) as Hnil.
    destruct (N.to_uint (Z.abs_N e)) eqn:E; try congruence;
      rewrite <- E, !DecimalN.Unsigned.of_to; simpl;
      rewrite N.mul_1_r, N.add_0_r, !signed_abs, Z.sub_0_r; reflexivity.
Qed.

Lemma print_number_head (n : number) :
  exists c r, print_number n = c :: r /\ (c = 45 \/ is_digit c = true).
Proof.
  unfold print_number, print_Z. destruct (mant n <? 0)%Z; simpl; [eauto|].
  destruct (print_N_head (Z.abs_N (mant n))) as (c & r & E & D).
  rewrite E. simpl. eauto.
Qed.

(** *** Strings *)

Lemma hex_value_hex_char (d : N) : d < 16 -> hex_value (hex_char d) = Some d.
Proof.
  intros H. destruct d as [|p]; [reflexivity|].
  do 4 (destruct p as [p|p|]; try reflexivity; try lia).
Qed.

Lemma hex_digits_value (c : N) :
  c < 65536 ->
  c / 4096 < 16 /\ (c / 256) mod 16 < 16 /\ (c / 16) mod 16 < 16 /\ c mod 16 < 16
  /\ ((c / 4096 * 16 + (c / 256) mod 16) * 16 + (c / 16) mod 16) * 16 + c mod 16 = c.
Proof. intros H. zify. Z.to_euclidean_division_equations. lia. Qed.

Lemma parse_escape_u (c : N) (s : jsstring) :
  c < 65536 ->
  parse_chars (escape_u c ++ s) =
    match parse_chars s with
    | Some (t, rest) => Some (c :: t, rest)
    | None => None
    end.
Proof.
  intros H. destruct (hex_digits_value c H) as (H3 & H2 & H1 & H0 & E).
  unfold escape_u. cbn [app parse_chars N.eqb Pos.eqb].
  rewrite !hex_value_hex_char by assumption. rewrite E. reflexivity.
Qed.

Lemma parse_literal (c : N) (s : jsstring) :
  c <> 34 -> c <> 92 -> 32 <= c ->
  parse_chars (c :: s) =
    match parse_chars s with
    | Some (t, rest) => Some (c :: t, rest)
    | None => None
    end.
Proof.
  intros H1 H2 H3. cbn [parse_chars].
  destruct (N.eqb_spec c 34); [congruence|].
  destruct (N.eqb_spec c 92); [congruence|].
  destruct (N.ltb_spec c 32); [lia|reflexivity].
Qed.

Lemma parse_simple_escape (e x : N) (s : jsstring) :
  In (e, x) [(34, 34); (92, 92); (98, 8); (102, 12); (110, 10); (114, 13); (116, 9)] ->
  parse_chars (92 :: e :: s) =
    match parse_chars s with
    | Some (t, rest) => Some (x :: t, rest)
    | None => None
    end.
Proof.
  intros H. repeat (destruct H as [H|H]; [injection H as <- <-; reflexivity|]).
  destruct H.
Qed.

Lemma parse_print_chars_bounded (n : nat) :
  forall s rest, (length s <= n)%nat ->
    parse_chars (print_chars s ++ 34 :: rest) = Some (s, rest).
Proof.
  induction n as [|n IH]; intros s rest Hlen.
  - destruct s; [reflexivity|simpl in Hlen; lia].
  - destruct s as [|c r]; [reflexivity|]. simpl in Hlen.
    assert (Hr : parse_chars (print_chars r ++ 34 :: rest) = Some (r, rest))
      by (apply IH; lia).
    cbn [print_chars].
    destruct (N.eqb_spec c 34) as [->|N34];
      [cbn [app]; rewrite (parse_simple_escape 34 34), Hr by (simpl; tauto); reflexivity|].
    destruct (N.eqb_spec c 92) as [->|N92];
      [cbn [app]; rewrite (parse_simple_escape 92 92), Hr by (simpl; tauto); reflexivity|].
    destruct (N.eqb_spec c 8) as [->|N8];
      [cbn [app]; rewrite (parse_simple_escape 98 8), Hr by (simpl; tauto); reflexivity|].
    destruct (N.eqb_spec c 12) as [->|N12];
      [cbn [app]; rewrite (parse_simple_escape 102 12), Hr by (simpl; tauto); reflexivity|].
    destruct (N.eqb_spec c 10) as [->|N10];
      [cbn [app]; rewrite (parse_simple_escape 110 10), Hr by (simpl; tauto); reflexivity|].
    destruct (N.eqb_spec c 13) as [->|N13];
      [cbn [app]; rewrite (parse_simple_escape 114 13), Hr by (simpl; tauto); reflexivity|].
    destruct (N.eqb_spec c 9) as [->|N9];
      [cbn [app]; rewrite (parse_simple_escape 116 9), Hr by (simpl; tauto); reflexivity|].
    destruct (N.ltb_spec c 32) as [L32|G32];
      [rewrite <- app_assoc, parse_escape_u, Hr by lia; reflexivity|].
    unfold is_high_surrogate, is_low_surrogate.
    destruct (N.leb_spec 55296 c); destruct (N.leb_spec c 56319); cbn [andb].
    + destruct r as [|d r'].
      * rewrite parse_escape_u by lia. reflexivity.
      * destruct (N.leb_spec 56320 d); destruct (N.leb_spec d 57343); cbn [andb];
          try (rewrite <- app_assoc, parse_escape_u, Hr by lia; reflexivity).
        cbn [app]. rewrite parse_literal by lia. rewrite parse_literal by lia.
        rewrite IH by (simpl in Hlen; lia). reflexivity.
    + destruct (N.leb_spec 56320 c); destruct (N.leb_spec c 57343); cbn [andb];
        try (rewrite <- app_assoc, parse_escape_u, Hr by lia; reflexivity);
        cbn [app]; rewrite parse_literal, Hr by lia; reflexivity.
    + destruct (N.leb_spec 56320 c); destruct (N.leb_spec c 57343); cbn [andb];
        try (rewrite <- app_assoc, parse_escape_u, Hr by lia; reflexivity);
        cbn [app]; rewrite parse_literal, Hr by lia; reflexivity.
    + lia.
Qed.

Lemma parse_print_chars (s rest : jsstring) :
  parse_chars (print_chars s ++ 34 :: rest) = Some (s, rest).
Proof. apply (parse_print_chars_bounded (length s)). reflexivity. Qed.

(** *** Values *)

Lemma print_head (j : json) :
  exists c r, print j = c :: r /\ is_ws c = false /\ c <> 93 /\ c <> 125.
Proof.
  assert (Hk : forall c r, In c [110; 116; 102; 34; 91; 123; 45] ->
               exists c' r', c :: r = c' :: r' /\ is_ws c' = false /\ c' <> 93 /\ c' <> 125).
  { intros c r Hc. exists c, r. simpl in Hc.
    repeat (destruct Hc as [<-|Hc]; [repeat split; discriminate|]). destruct Hc. }
  destruct j as [| [|] | n | s | l | l];
    try (apply Hk; simpl; tauto).
  simpl. destruct (print_number_head n) as (c & r & E & [-> | D]); rewrite E.
  - apply Hk; simpl; tauto.
  - apply is_digit_range in D. exists c, r. unfold is_ws.
    destruct (N.eqb_spec c 32); [lia|]. destruct (N.eqb_spec c 9); [lia|].
    destruct (N.eqb_spec c 10); [lia|]. destruct (N.eqb_spec c 13); [lia|].
    repeat split; lia.
Qed.

Lemma skip_ws_print (j : json) (rest : jsstring) :
  skip_ws (print j ++ rest) = print j ++ rest.
Proof.
  destruct (print_head j) as (c & r & E & W & _). rewrite E. simpl.
  rewrite W. reflexivity.
Qed.

Lemma skip_ws_delimiter (c : N) (rest : jsstring) :
  c = 44 \/ c = 93 \/ c = 125 \/ c = 58 \/ c = 34 ->
  skip_ws (c :: rest) = c :: rest.
Proof. intros [->|[->|[->|[->| ->]]]]; reflexivity. Qed.

Lemma parse_print_elements (l : list json) :
  Forall reads_back l ->
  forall v fuel rest,
    reads_back v ->
    (S (length (join_comma (map print (v :: l)))) < fuel)%nat ->
    parse_elements fuel (join_comma (map print (v :: l)) ++ 93 :: rest)
    = Some (v :: l, rest).
Proof.
  induction 1 as [|y l Hy Hl IH]; intros v fuel rest Hv Hfuel.
  - destruct fuel as [|f]; [lia|]. simpl in *.
    rewrite Hv by (simpl; tauto || lia). simpl.
    reflexivity.
  - destruct fuel as [|f]; [lia|].
    change (join_comma (map print (v :: y :: l)))
      with (print v ++ 44 :: join_comma (map print (y :: l))) in *.
    rewrite length_app in Hfuel. cbn [length] in Hfuel.
    assert (1 <= length (print v))%nat
      by (destruct (print_head v) as (c & r & E & _); rewrite E; simpl; lia).
    rewrite <- app_assoc. cbn [parse_elements].
    rewrite Hv by (simpl; tauto || lia).
    cbn [app]. rewrite skip_ws_delimiter by tauto. cbn [N.eqb Pos.eqb].
    rewrite IH by (assumption || lia). reflexivity.
Qed.

Lemma parse_print_members (l : list (jsstring * json)) :
  Forall (fun kv => reads_back (snd kv)) l ->
  forall kv fuel rest,
    reads_back (snd kv) ->
    (S (length (join_comma (map print_member (kv :: l)))) < fuel)%nat ->
    parse_members fuel (join_comma (map print_member (kv :: l)) ++ 125 :: rest)
    = Some (kv :: l, rest).
Proof.
  induction 1 as [|y l Hy Hl IH]; intros [k v] fuel rest Hv Hfuel.
  - destruct fuel as [|f]; [lia|]. simpl in Hv.
    change (join_comma (map print_member [(k, v)]))
      with (34 :: (print_chars k ++ [34]) ++ 58 :: print v) in *.
    cbn [app length] in Hfuel. rewrite !length_app in Hfuel.
    cbn [length] in Hfuel.
    cbn [parse_members app skip_ws is_ws N.eqb Pos.eqb orb].
    rewrite <- !app_assoc. cbn [app].
    rewrite parse_print_chars. rewrite skip_ws_delimiter by tauto.
    cbn [N.eqb Pos.eqb].
    rewrite Hv by (simpl; tauto || lia).
    rewrite skip_ws_delimiter by tauto. reflexivity.
  - destruct fuel as [|f]; [lia|]. simpl in Hv.
    change (join_comma (map print_member ((k, v) :: y :: l)))
      with ((34 :: (print_chars k ++ [34]) ++ 58 :: print v)
              ++ 44 :: join_comma (map print_member (y :: l))) in *.
    rewrite length_app in Hfuel. cbn [app length] in Hfuel.
    rewrite !length_app in Hfuel. cbn [length] in Hfuel.
    cbn [parse_members app skip_ws is_ws N.eqb Pos.eqb orb].
    rewrite <- !app_assoc. cbn [app].
    rewrite parse_print_chars. rewrite skip_ws_delimiter by tauto.
    cbn [N.eqb Pos.eqb].
    rewrite Hv by (simpl; tauto || lia).
    rewrite skip_ws_delimiter by tauto. cbn [N.eqb Pos.eqb].
    rewrite IH by (assumption || lia). reflexivity.
Qed.

Lemma parse_print_value (j : json) : reads_back j.
Proof.
  induction j as [| b | n | s | l IH | l IH] using json_rect';
    intros fuel rest Hfuel Hrest; (destruct fuel as [|f]; [lia|]).
  - reflexivity.
  - destruct b; reflexivity.
  - cbn [parse_value print].
    destruct (print_number_head n) as (c & r & E & D).
    pose proof (parse_print_number n rest (delimited_number_end _ Hrest)) as Hn.
    rewrite E in Hn |- *. cbn [app] in Hn |- *.
    assert (Hc : c = 45 \/ 48 <= c <= 57)
      by (destruct D as [D|D]; [left; exact D|right; apply is_digit_range, D]).
    assert (is_ws c = false) as Hws.
    { unfold is_ws. destruct (N.eqb_spec c 32); [lia|].
      destruct (N.eqb_spec c 9); [lia|]. destruct (N.eqb_spec c 10); [lia|].
      destruct (N.eqb_spec c 13); [lia|]. reflexivity. }
    cbn [skip_ws]. rewrite Hws.
    destruct (N.eqb_spec c 34); [lia|]. destruct (N.eqb_spec c 91); [lia|].
    destruct (N.eqb_spec c 123); [lia|]. destruct (N.eqb_spec c 110); [lia|].
    destruct (N.eqb_spec c 116); [lia|]. destruct (N.eqb_spec c 102); [lia|].
    rewrite Hn. reflexivity.
  - cbn [parse_value print quote app skip_ws is_ws N.eqb Pos.eqb orb].
    rewrite <- app_assoc. cbn [app]. rewrite parse_print_chars. reflexivity.
  - destruct l as [|v l]; [reflexivity|].
    cbn [print] in *. cbn [app length] in Hfuel. rewrite length_app in Hfuel.
    cbn [length] in Hfuel.
    cbn [parse_value app skip_ws is_ws N.eqb Pos.eqb orb].
    rewrite <- app_assoc. cbn [app].
    inversion IH as [|? ? Hv Hl]; subst.
    pose proof (parse_print_elements l Hl v f rest Hv) as He.
    destruct l as [|y l].
    + cbn [map join_comma] in *. specialize (He ltac:(lia)).
      rewrite skip_ws_print.
      destruct (print_head v) as (c & r & E & _ & N93 & _).
      rewrite E in He |- *. cbn [app] in He |- *.
      destruct (N.eqb_spec c 93); [congruence|].
      rewrite He. reflexivity.
    + change (join_comma (map print (v :: y :: l)))
        with (print v ++ 44 :: join_comma (map print (y :: l))) in *.
      specialize (He ltac:(lia)).
      rewrite <- app_assoc in He |- *. rewrite skip_ws_print.
      destruct (print_head v) as (c & r & E & _ & N93 & _).
      rewrite E in He |- *. cbn [app] in He |- *.
      destruct (N.eqb_spec c 93); [congruence|].
      rewrite He. reflexivity.
  - destruct l as [|[k v] l]; [reflexivity|].
    cbn [print] in *. cbn [app length] in Hfuel. rewrite length_app in Hfuel.
    cbn [length] in Hfuel.
    cbn [parse_value app skip_ws is_ws N.eqb Pos.eqb orb].
    rewrite <- app_assoc. cbn [app].
    inversion IH as [|? ? Hv Hl]; subst.
    pose proof (parse_print_members l Hl (k, v) f rest Hv) as He.
    fold print_member in *.
    assert (Hq : exists r, join_comma (map print_member ((k, v) :: l)) = 34 :: r).
    { destruct l; simpl; eauto. }
    specialize (He ltac:(lia)).
    destruct Hq as (r & Hq). rewrite Hq in He |- *. cbn [app] in He |- *.
    cbn [skip_ws is_ws N.eqb Pos.eqb orb].
    rewrite He. reflexivity.
Qed.

(** Every value written by [JSON.stringify] is read back by
    [JSON.parse] as the same value. *)
Lemma parse_stringify (j : json) : JSON.parse (JSON.stringify j) = Some j.
Proof.
  unfold JSON.parse, JSON.stringify.
  pose proof (parse_print_value j (S (2 * length (print j))) []) as H.
  rewrite app_nil_r in H. rewrite H by (simpl; lia || tauto). reflexivity.
Qed.

Lemma stringify_truthy (j : json) : str_truthy (JSON.stringify j) = true.
Proof.
  unfold JSON.stringify. destruct (print_head j) as (c & r & E & _).
  rewrite E. reflexivity.
Qed.

(** *** The fuel of the parser is enough *)

Lemma skip_ws_length (s : jsstring) : (length (skip_ws s) <= length s)%nat.
Proof.
  induction s as [|c r IH]; simpl; [lia|]. destruct (is_ws c); simpl; lia.
Qed.

Lemma strip_prefix_length (p s r : jsstring) :
  strip_prefix p s = Some r -> (length r <= length s)%nat.
Proof.
  revert s. induction p as [|a p IH]; intros [|b s] H; simpl in *;
    try (injection H as <-; simpl; lia); try discriminate.
  destruct (a =? b); [|discriminate]. apply IH in H. lia.
Qed.

Lemma parse_uint_length (s : jsstring) :
  (length (snd (parse_uint s)) <= length s)%nat
  /\ (fst (parse_uint s) <> Decimal.Nil ->
      (length (snd (parse_uint s)) < length s)%nat).
Proof.
  induction s as [|c r [IH _]]; simpl; [split; [lia|congruence]|].
  destruct (is_digit c); [|split; [simpl; lia|simpl; congruence]].
  destruct (parse_uint r) as [u r']. simpl in *. split; intros; lia.
Qed.

Lemma take_minus_length (s : jsstring) :
  (length (snd (take_minus s)) <= length s)%nat.
Proof. destruct s as [|c r]; simpl; [lia|]. destruct (c =? 45); simpl; lia. Qed.

Lemma take_sign_length (s : jsstring) :
  (length (snd (take_sign s)) <= length s)%nat.
Proof.
  destruct s as [|c r]; simpl; [lia|].
  destruct (c =? 45); [simpl; lia|]. destruct (c =? 43); simpl; lia.
Qed.

Lemma parse_fraction_length (s r : jsstring) (u : Decimal.uint) :
  parse_fraction s = Some (u, r) -> (length r <= length s)%nat.
Proof.
  destruct s as [|c s']; simpl; [intros [= <- <-]; simpl; lia|].
  destruct (c =? 46); [|intros [= <- <-]; simpl; lia].
  pose proof (parse_uint_length s') as [H _].
  destruct (parse_uint s') as [fp rest]. simpl in H.
  destruct fp; intros [= <- <-]; lia.
Qed.

Lemma parse_exponent_length (s r : jsstring) (e : Z) :
  parse_exponent s = Some (e, r) -> (length r <= length s)%nat.
Proof.
  destruct s as [|c s']; simpl; [intros [= <- <-]; simpl; lia|].
  destruct ((c =? 101) || (c =? 69)); [|intros [= <- <-]; simpl; lia].
  pose proof (take_sign_length s') as Hs.
  destruct (take_sign s') as [eneg r1]. simpl in Hs.
  pose proof (parse_uint_length r1) as [H _].
  destruct (parse_uint r1) as [ep rest]. simpl in H.
  destruct ep; intros [= <- <-]; lia.
Qed.

Lemma parse_number_length (s r : jsstring) (n : number) :
  parse_number s = Some (n, r) -> (length r < length s)%nat.
Proof.
  unfold parse_number.
  pose proof (take_minus_length s) as Hm.
  destruct (take_minus s) as [neg s1]. simpl in Hm.
  pose proof (parse_uint_length s1) as [_ Hu].
  destruct (parse_uint s1) as [ip s2]. simpl in Hu.
  destruct (int_part_ok ip) eqn:Hok; [|discriminate]. cbn [negb].
  assert (Hip : ip <> Decimal.Nil) by (intros ->; discriminate Hok).
  specialize (Hu Hip).
  destruct (parse_fraction s2) as [[fp s3]|] eqn:Hf; [|discriminate].
  apply parse_fraction_length in Hf.
  destruct (parse_exponent s3) as [[e s4]|] eqn:He; [|discriminate].
  apply parse_exponent_length in He.
  intros [= <- <-]. lia.
Qed.

Lemma parse_chars_length_bounded (n : nat) :
  forall s t r, (length s <= n)%nat ->
    parse_chars s = Some (t, r) -> (length r < length s)%nat.
Proof.
  induction n as [|n IH]; intros s t r Hn H.
  - destruct s; [discriminate|simpl in Hn; lia].
  - destruct s as [|c s']; [discriminate|]. simpl in Hn.
    cbn [parse_chars] in H.
    destruct (c =? 34); [injection H as <- <-; simpl; lia|].
    destruct (c =? 92).
    + destruct s' as [|e r1]; [discriminate|]. simpl in Hn.
      assert (Hsimple : forall x,
                match parse_chars r1 with
                | Some (t0, rest) => Some (x :: t0, rest)
                | None => None
                end = Some (t, r) -> (length r < length (c :: e :: r1))%nat).
      { intros x Hx. destruct (parse_chars r1) as [[t0 rest]|] eqn:E; [|discriminate].
        injection Hx as <- <-. apply IH in E; simpl; lia. }
      repeat (match type of H with
              | (if ?b then _ else _) = _ => destruct b; [apply (Hsimple _ H)|]
              end).
      destruct (e =? 117); [|discriminate].
      destruct r1 as [|h3 [|h2 [|h1 [|h0 r2]]]]; try discriminate.
      destruct (hex_value h3), (hex_value h2), (hex_value h1), (hex_value h0);
        try discriminate.
      destruct (parse_chars r2) as [[t0 rest]|] eqn:E; [|discriminate].
      injection H as <- <-. apply IH in E; simpl in *; lia.
    + destruct (c <? 32); [discriminate|].
      destruct (parse_chars s') as [[t0 rest]|] eqn:E; [|discriminate].
      injection H as <- <-. apply IH in E; simpl; lia.
Qed.

Lemma parse_chars_length (s t r : jsstring) :
  parse_chars s = Some (t, r) -> (length r < length s)%nat.
Proof. apply (parse_chars_length_bounded (length s)). reflexivity. Qed.

Lemma skip_ws_cons_length (s r : jsstring) (c : N) :
  skip_ws s = c :: r -> (length r < length s)%nat.
Proof. intros H. pose proof (skip_ws_length s) as L. rewrite H in L. simpl in L. lia. Qed.

Lemma parse_consumes (fuel : nat) :
  (forall s v r, parse_value fuel s = Some (v, r) -> (length r < length s)%nat)
  /\ (forall s l r, parse_elements fuel s = Some (l, r) -> (length r < length s)%nat)
  /\ (forall s l r, parse_members fuel s = Some (l, r) -> (length r < length s)%nat).
Proof.
  induction fuel as [|f (IHv & IHe & IHm)];
    [repeat split; intros; discriminate|].
  split; [|split].
  - intros s v r H. cbn [parse_value] in H.
    destruct (skip_ws s) as [|c r0] eqn:Es; [discriminate|].
    apply skip_ws_cons_length in Es.
    destruct (c =? 34).
    { destruct (parse_chars r0) as [[t rest]|] eqn:E; [|discriminate].
      injection H as <- <-. apply parse_chars_length in E. lia. }
    destruct (c =? 91).
    { destruct (skip_ws r0) as [|d r'] eqn:E0; [discriminate|].
      apply skip_ws_cons_length in E0.
      destruct (d =? 93); [injection H as <- <-; lia|].
      destruct (parse_elements f r0) as [[l rest]|] eqn:E; [|discriminate].
      injection H as <- <-. apply IHe in E. lia. }
    destruct (c =? 123).
    { destruct (skip_ws r0) as [|d r'] eqn:E0; [discriminate|].
      apply skip_ws_cons_length in E0.
      destruct (d =? 125); [injection H as <- <-; lia|].
      destruct (parse_members f r0) as [[l rest]|] eqn:E; [|discriminate].
      injection H as <- <-. apply IHm in E. lia. }
    destruct (c =? 110).
    { destruct (strip_prefix (js "ull") r0) as [rest|] eqn:E; [|discriminate].
      injection H as <- <-. apply strip_prefix_length in E. lia. }
    destruct (c =? 116).
    { destruct (strip_prefix (js "rue") r0) as [rest|] eqn:E; [|discriminate].
      injection H as <- <-. apply strip_prefix_length in E. lia. }
    destruct (c =? 102).
    { destruct (strip_prefix (js "alse") r0) as [rest|] eqn:E; [|discriminate].
      injection H as <- <-. apply strip_prefix_length in E. lia. }
    destruct (parse_number (c :: r0)) as [[n rest]|] eqn:E; [|discriminate].
    injection H as <- <-. apply parse_number_length in E. simpl in E. lia.
  - intros s l r H. cbn [parse_elements] in H.
    destruct (parse_value f s) as [[v r1]|] eqn:Ev; [|discriminate].
    apply IHv in Ev.
    destruct (skip_ws r1) as [|c r'] eqn:E1; [discriminate|].
    apply skip_ws_cons_length in E1.
    destruct (c =? 44).
    { destruct (parse_elements f r') as [[l' rest]|] eqn:E; [|discriminate].
      injection H as <- <-. apply IHe in E. lia. }
    destruct (c =? 93); [injection H as <- <-; lia|discriminate].
  - intros s l r H. cbn [parse_members] in H.
    destruct (skip_ws s) as [|q r0] eqn:Es; [discriminate|].
    apply skip_ws_cons_length in Es.
    destruct (q =? 34); [|discriminate].
    destruct (parse_chars r0) as [[k r1]|] eqn:Ek; [|discriminate].
    apply parse_chars_length in Ek.
    destruct (skip_ws r1) as [|c r2] eqn:E1; [discriminate|].
    apply skip_ws_cons_length in E1.
    destruct (c =? 58); [|discriminate].
    destruct (parse_value f r2) as [[v r3]|] eqn:Ev; [|discriminate].
    apply IHv in Ev.
    destruct (skip_ws r3) as [|d r4] eqn:E3; [discriminate|].
    apply skip_ws_cons_length in E3.
    destruct (d =? 44).
    { destruct (parse_members f r4) as [[l' rest]|] eqn:E; [|discriminate].
      injection H as <- <-. apply IHm in E. lia. }
    destruct (d =? 125); [injection H as <- <-; lia|discriminate].
Qed.

(** With two units of fuel per code unit the parser never runs out:
    any larger amount gives the same result. *)
Lemma parse_fuel (fuel : nat) :
  (forall s fuel', (2 * length s < fuel)%nat -> (2 * length s < fuel')%nat ->
     parse_value fuel s = parse_value fuel' s)
  /\ (forall s fuel', (2 * length s + 1 < fuel)%nat -> (2 * length s + 1 < fuel')%nat ->
        parse_elements fuel s = parse_elements fuel' s)
  /\ (forall s fuel', (2 * length s + 1 < fuel)%nat -> (2 * length s + 1 < fuel')%nat ->
        parse_members fuel s = parse_members fuel' s).
Proof.
  induction fuel as [|f (IHv & IHe & IHm)]; [repeat split; intros; lia|].
  split; [|split]; intros s [|f'] Hf Hf'; try lia.
  - cbn [parse_value].
    destruct (skip_ws s) as [|c r0] eqn:Es; [reflexivity|].
    apply skip_ws_cons_length in Es.
    rewrite (IHe r0 f') by lia. rewrite (IHm r0 f') by lia. reflexivity.
  - cbn [parse_elements].
    rewrite (IHv s f') by lia.
    destruct (parse_value f' s) as [[v r1]|] eqn:Ev; [|reflexivity].
    apply (proj1 (parse_consumes f')) in Ev.
    destruct (skip_ws r1) as [|c r'] eqn:E1; [reflexivity|].
    apply skip_ws_cons_length in E1.
    rewrite (IHe r' f') by lia. reflexivity.
  - cbn [parse_members].
    destruct (skip_ws s) as [|q r0] eqn:Es; [reflexivity|].
    apply skip_ws_cons_length in Es.
    destruct (q =? 34); [|reflexivity].
    destruct (parse_chars r0) as [[k r1]|] eqn:Ek; [|reflexivity].
    apply parse_chars_length in Ek.
    destruct (skip_ws r1) as [|c r2] eqn:E1; [reflexivity|].
    apply skip_ws_cons_length in E1.
    destruct (c =? 58); [|reflexivity].
    rewrite (IHv r2 f') by lia.
    destruct (parse_value f' r2) as [[v r3]|] eqn:Ev; [|reflexivity].
    apply (proj1 (parse_consumes f')) in Ev.
    destruct (skip_ws r3) as [|d r4] eqn:E3; [reflexivity|].
    apply skip_ws_cons_length in E3.
    rewrite (IHm r4 f') by lia. reflexivity.
Qed.

(** [JSON.parse] does not depend on the amount of fuel it is run with. *)
Lemma parse_any_fuel (text : jsstring) (fuel : nat) :
  (2 * length text < fuel)%nat ->
  JSON.parse text
  = match parse_value fuel text with
    | Some (j, rest) => match skip_ws rest with [] => Some j | _ :: _ => None end
    | None => None
    end.
Proof.
  intros H. unfold JSON.parse.
  rewrite (proj1 (parse_fuel (S (2 * length text))) text fuel) by lia.
  reflexivity.
Qed.

End JsonRoundTrip.

(** ** The conversation store *)

Section Store.

Lemma conversation_id (c : conversation) :
  entry_id (conversation_to_json c) = Some (JStr (id c)).
Proof.
  unfold entry_id, conversation_to_json, get_prop.
  destruct (pinned c), (lastMessage c), (session_id c); reflexivity.
Qed.

Lemma conversation_has_id (c : conversation) :
  API.has_id (id c) (conversation_to_json c) = true.
Proof.
  unfold API.has_id. fold (entry_id (conversation_to_json c)).
  rewrite conversation_id. simpl. apply bool_decide_eq_true. reflexivity.
Qed.


(** What [findIndex] returns on a sequence without [null]: the first
    position whose entry has the id, if there is one. *)
Lemma findIndex_spec (cid : jsstring) (l : list json) :
  Forall (fun e => e <> JNull) l ->
  (API.findIndex cid l = Ok None
   /\ forall e, In e l -> API.has_id cid e = false)
  \/ (exists i e,
        API.findIndex cid l = Ok (Some i)
        /\ l !! i = Some e /\ API.has_id cid e = true
        /\ forall j e', (j < i)%nat -> l !! j = Some e' -> API.has_id cid e' = false).
Proof.
  induction 1 as [|x l Hx Hl IH].
  - left. split; [reflexivity|]. intros e [].
  - assert (Hstep : API.findIndex cid (x :: l)
                    = if API.has_id cid x then Ok (Some O)
                      else match API.findIndex cid l with
                           | Ok (Some i) => Ok (Some (S i))
                           | other => other
                           end)
      by (destruct x; [congruence | reflexivity ..]).
    rewrite Hstep. destruct (API.has_id cid x) eqn:Hid.
    + right. exists O, x. repeat split; try assumption. intros j e' Hj. lia.
    + destruct IH as [[-> Hnone] | (i & e & -> & Hi & He & Hbefore)].
      * left. split; [reflexivity|]. intros e [<-|Hin]; auto.
      * right. exists (S i), e. repeat split; try assumption.
        intros [|j] e' Hj Hlook; simpl in Hlook.
        -- congruence.
        -- apply (Hbefore j); [lia|assumption].
Qed.

Lemma find_conversation_first (cid : jsstring) (l : list json) (i : nat) (e : json) :
  Forall (fun e => e <> JNull) l ->
  l !! i = Some e -> API.has_id cid e = true ->
  (forall j e', (j < i)%nat -> l !! j = Some e' -> API.has_id cid e' = false) ->
  Chat.find_conversation cid l = Ok (Some e).
Proof.
  intros Hl. revert i. induction Hl as [|x l Hx Hl IH]; intros i Hi He Hbefore.
  - discriminate.
  - assert (Hstep : Chat.find_conversation cid (x :: l)
                    = if API.has_id cid x then Ok (Some x)
                      else Chat.find_conversation cid l)
      by (destruct x; [congruence | reflexivity ..]).
    rewrite Hstep. destruct i as [|i]; simpl in Hi.
    + injection Hi as ->. rewrite He. reflexivity.
    + rewrite (Hbefore O x) by (lia || reflexivity).
      apply (IH i); try assumption.
      intros j e' Hj Hlook. apply (Hbefore (S j)); [lia|exact Hlook].
Qed.

Lemma Forall_insert_non_null (l : list json) (i : nat) (x : json) :
  x <> JNull -> Forall (fun e => e <> JNull) l ->
  Forall (fun e => e <> JNull) (<[i := x]> l).
Proof. intros Hx Hl. apply Forall_insert; assumption. Qed.

(** Reading the store back after a write. *)
Lemma getConversations_after_write (w : world) (v : json) :
  API.getConversations
    (set_storage (<[CONFIG.CONVERSATIONS_STORAGE_KEY := JSON.stringify v]>
                    (localStorage w)) w)
  = Ok v.
Proof.
  unfold API.getConversations. simpl.
  rewrite lookup_insert_eq, stringify_truthy, parse_stringify. reflexivity.
Qed.



(** C8 (as amended).  Reading the store is all or nothing.  When the
    stored text is valid JSON the whole value is returned, no entry being
    skipped or dropped; when it is not, the failure of [JSON.parse] is
    propagated: [getConversations] throws, and with it every save and
    the listing, so that no conversation can be reached. *)
Theorem getConversations_all_or_nothing (w : world) (text : jsstring) :
  localStorage w !! CONFIG.CONVERSATIONS_STORAGE_KEY = Some text ->
  text <> [] ->
  match JSON.parse text with
  | Some v => API.getConversations w = Ok v
  | None =>
      API.getConversations w = Throw syntax_error
      /\ (forall c, API.saveConversation w c = Throw syntax_error)
      /\ Chat.loadConversationsList w = Throw syntax_error
  end.
Proof.
  intros Hstored Htext.
  assert (Hget : API.getConversations w
                 = match JSON.parse text with
                   | Some v => Ok v
                   | None => Throw syntax_error
                   end).
  { unfold API.getConversations. rewrite Hstored.
    destruct text; [congruence|reflexivity]. }
  destruct (JSON.parse text) as [v|]; [exact Hget|].
  split; [exact Hget|]. split.
  - intros c. unfold API.saveConversation. rewrite Hget. reflexivity.
  - unfold Chat.loadConversationsList. rewrite Hget. reflexivity.
Qed.

Lemma getConversations_all_or_nothing_witness :
  let w := page {[CONFIG.CONVERSATIONS_STORAGE_KEY := truncated_store]} (js "/") in
  API.getConversations w = Throw syntax_error
  /\ (forall c, API.saveConversation w c = Throw syntax_error)
  /\ Chat.loadConversationsList w = Throw syntax_error.
Proof.
  intros w.
  exact (getConversations_all_or_nothing w truncated_store
           ltac:(vm_compute; reflexivity) ltac:(discriminate)).
Defined.

(** C8 as stated fails.  With one intact record followed by a damaged
    one, the read does not return the intact record: it throws.  And a
    stored [null] entry in otherwise valid JSON is returned as it is,
    not dropped, after which the listing throws. *)
Lemma getConversations_skips_nothing :
  let intact := JObj [(js "id", JStr (js "conv_1")); (js "title", JStr (js "hello"))] in
  let w := page {[CONFIG.CONVERSATIONS_STORAGE_KEY := truncated_store]} (js "/") in
  let w0 := page {[CONFIG.CONVERSATIONS_STORAGE_KEY :=
                     js "[null," ++ JSON.stringify intact ++ js "]"]} (js "/") in
  firstn (length (JSON.stringify intact)) (skipn 1 truncated_store)
    = JSON.stringify intact
  /\ API.getConversations w = Throw syntax_error
  /\ API.getConversations w <> Ok (JArr [intact])
  /\ API.getConversations w0 = Ok (JArr [JNull; intact])
  /\ Chat.loadConversationsList w0 = Throw type_error.
Proof. vm_compute. repeat split; congruence. Qed.

End Store.

(** ** The pinned and recent lists *)

Section Partition.

Lemma filter_pinned_spec (want : bool) (l : list json) :
  Forall (fun e => e <> JNull) l ->
  Chat.filter_pinned want l
  = Ok (List.filter (fun c => eqb (Chat.is_pinned c) want) l).
Proof.
  induction 1 as [|x l Hx Hl IH]; [reflexivity|].
  assert (Hstep : Chat.filter_pinned want (x :: l)
                  = match Chat.filter_pinned want l with
                    | Ok r' => Ok (if eqb (Chat.is_pinned x) want then x :: r' else r')
                    | Throw e => Throw e
                    end)
    by (destruct x; [congruence | reflexivity ..]).
  rewrite Hstep, IH. simpl. destruct (eqb (Chat.is_pinned x) want); reflexivity.
Qed.

Lemma sublist_List_filter (f : json -> bool) (l : list json) :
  sublist (List.filter f l) l.
Proof.
  induction l as [|x l IH]; simpl; [constructor|].
  destruct (f x); constructor; exact IH.
Qed.

(** C5.  The listing splits the stored sequence into the pinned
    entries and the first 15 of the entries that are not pinned; both
    keep the order of the store, and no entry is in both. *)
Theorem loadConversationsList_partition (w : world) (stored : list json) :
  API.getConversations w = Ok (JArr stored) ->
  Forall (fun e => e <> JNull) stored ->
  exists pinned recent,
    Chat.loadConversationsList w = Ok (pinned, recent)
    /\ pinned = List.filter Chat.is_pinned stored
    /\ recent = firstn 15 (List.filter (fun c => negb (Chat.is_pinned c)) stored)
    /\ sublist pinned stored /\ sublist recent stored
    /\ (length recent <= 15)%nat
    /\ (forall c, In c pinned -> In c recent -> False).
Proof.
  intros Hget Hnn. unfold Chat.loadConversationsList.
  rewrite Hget, !filter_pinned_spec by assumption.
  assert (E1 : List.filter (fun c => eqb (Chat.is_pinned c) true) stored
               = List.filter Chat.is_pinned stored)
    by (apply filter_ext; intros c; destruct (Chat.is_pinned c); reflexivity).
  assert (E2 : List.filter (fun c => eqb (Chat.is_pinned c) false) stored
               = List.filter (fun c => negb (Chat.is_pinned c)) stored)
    by (apply filter_ext; intros c; destruct (Chat.is_pinned c); reflexivity).
  rewrite E1, E2. eexists _, _. split; [reflexivity|].
  split; [reflexivity|]. split; [reflexivity|].
  split; [apply sublist_List_filter|].
  split; [etransitivity; [apply sublist_take|apply sublist_List_filter]|].
  split; [rewrite length_take; lia|].
  intros c Hp Hr. apply filter_In in Hp as [_ Hp].
  apply list_elem_of_In, (subseteq_take 15), list_elem_of_In in Hr.
  apply filter_In in Hr as [_ Hr]. rewrite Hp in Hr. discriminate.
Qed.

Lemma loadConversationsList_partition_witness :
  let a := JObj [(js "id", JStr (js "conv_1")); (js "pinned", JBool true)] in
  let b := JObj [(js "id", JStr (js "conv_2"))] in
  let c := JObj [(js "id", JStr (js "conv_3")); (js "pinned", JBool false)] in
  let w := page {[CONFIG.CONVERSATIONS_STORAGE_KEY :=
                    JSON.stringify (JArr [b; a; c])]} (js "/") in
  Chat.loadConversationsList w = Ok ([a], [b; c]).
Proof.
  intros a b c w.
  destruct (loadConversationsList_partition w [b; a; c])
    as (pinned & recent & Hload & -> & -> & _).
  - vm_compute. reflexivity.
  - repeat constructor; discriminate.
  - exact Hload.
Defined.

End Partition.

(** ** Turns *)

Section Turns.

(** Saving touches local storage only. *)
Lemma saveConversation_frame (w w' : world) (c : conversation) :
  API.saveConversation w c = Ok w' ->
  chat w' = chat w /\ requests w' = requests w /\ toasts w' = toasts w
  /\ api_token w' = api_token w.
Proof.
  unfold API.saveConversation. intros H.
  repeat case_match; try discriminate; injection H as <-; repeat split.
Qed.

(** What [updateConversation] leaves alone when a conversation is
    active. *)
Lemma updateConversation_frame (e : Chat.update_env) (um : jsstring)
    (ai : option json) (w : world) (c : conversation_of array_ref) :
  currentConversation (chat w) = Some c ->
  let w' := Chat.updateConversation e um ai w in
  chat_messages (chat w') = chat_messages (chat w)
  /\ sessionId (chat w') = sessionId (chat w)
  /\ isTyping (chat w') = isTyping (chat w)
  /\ requests w' = requests w /\ toasts w' = toasts w
  /\ exists c', currentConversation (chat w') = Some c'
       /\ id c' = id c
       /\ title c' = (if Nat.eqb (length (chat_messages (chat w))) 2
                      then Chat.derived_title um else title c).
Proof.
  intros Hc. unfold Chat.updateConversation. rewrite Hc. cbn zeta. rewrite Hc.
  destruct (Nat.eqb (length (chat_messages (chat w))) 2);
    repeat case_match;
    repeat match goal with
           | H : API.saveConversation _ _ = Ok _ |- _ =>
               apply saveConversation_frame in H; destruct H as (-> & -> & -> & _)
           end;
    cbn; repeat split; eauto.
Qed.

(** No step of [updateConversation] assigns the [session_id] property
    of the conversation. *)
Lemma updateConversation_session (e : Chat.update_env) (um : jsstring)
    (ai : option json) (w : world) (c : conversation_of array_ref) :
  currentConversation (chat w) = Some c ->
  exists c', currentConversation (chat (Chat.updateConversation e um ai w)) = Some c'
             /\ session_id c' = session_id c.
Proof.
  intros Hc. unfold Chat.updateConversation. rewrite Hc. cbn zeta. rewrite Hc.
  destruct (Nat.eqb (length (chat_messages (chat w))) 2);
    repeat case_match;
    repeat match goal with
           | H : API.saveConversation _ _ = Ok _ |- _ =>
               apply saveConversation_frame in H; destruct H as (-> & _)
           end;
    cbn; eauto.
Qed.

Lemma updateConversation_effects (e : Chat.update_env) (um : jsstring)
    (ai : option json) (w : world) :
  let w' := Chat.updateConversation e um ai w in
  requests w' = requests w /\ toasts w' = toasts w
  /\ api_token w' = api_token w /\ isTyping (chat w') = isTyping (chat w).
Proof.
  unfold Chat.updateConversation, Chat.startNewConversation.
  destruct (currentConversation (chat w)); cbn zeta;
    repeat case_match;
    repeat match goal with
           | H : API.saveConversation _ _ = Ok _ |- _ =>
               apply saveConversation_frame in H;
               destruct H as (-> & -> & -> & ->)
           end;
    cbn; repeat split.
Qed.

Lemma sendMessage_blank (e : Chat.turn_env) (text : jsstring)
    (reply : outcome json) (w : world) :
  trim text = [] -> Chat.sendMessage e text reply w = w.
Proof. intros H. unfold Chat.sendMessage. rewrite H. reflexivity. Qed.

Lemma sendMessage_nonblank (e : Chat.turn_env) (text : jsstring)
    (reply : outcome json) (w : world) :
  trim text <> [] ->
  Chat.sendMessage e text reply w
  = match reply with
    | Throw msg => Chat.on_error msg (awaiting e text w)
    | Ok JNull => Chat.on_error type_error (awaiting e text w)
    | Ok response => Chat.on_response e (trim text) response (awaiting e text w)
    end.
Proof.
  intros H. unfold Chat.sendMessage, awaiting, turn_request, user_message.
  destruct (trim text) eqn:E; [congruence|]. reflexivity.
Qed.

Lemma sendMessage_rejected (e : Chat.turn_env) (text msg : jsstring) (w : world) :
  trim text <> [] ->
  let w' := Chat.sendMessage e text (Throw msg) w in
  chat_messages (chat w') = chat_messages (chat w) ++ [user_message e text]
  /\ requests w' = requests w ++ [turn_request e text w]
  /\ toasts w' = toasts w ++ [Toast (js "Error")
                                (or_else (Some msg) (js "Failed to send message"))
                                (js "error")]
  /\ currentConversation (chat w') = currentConversation (chat w)
  /\ sessionId (chat w') = sessionId (chat w)
  /\ isTyping (chat w') = false
  /\ localStorage w' = localStorage w.
Proof.
  intros H. cbn zeta. rewrite sendMessage_nonblank by exact H.
  cbn. repeat split.
Qed.

(** Every turn with a non-blank text hands exactly one request to the
    network, whatever the reply. *)
Lemma add_reply_frame (e : Chat.turn_env) (response : json) (w : world) :
  let w' := Chat.add_reply e response w in
  currentConversation (chat w') = currentConversation (chat w)
  /\ sessionId (chat w') = sessionId (chat w)
  /\ requests w' = requests w
  /\ exists extra, chat_messages (chat w') = chat_messages (chat w) ++ extra.
Proof.
  unfold Chat.add_reply.
  destruct (get_prop response "response") as [r|]; [destruct (truthy r)|];
    cbn; repeat split; first [eexists; reflexivity | exists []; symmetry; apply app_nil_r].
Qed.

Lemma sendMessage_request (e : Chat.turn_env) (text : jsstring)
    (reply : outcome json) (w : world) :
  trim text <> [] ->
  requests (Chat.sendMessage e text reply w)
  = requests w ++ [turn_request e text w].
Proof.
  intros H. rewrite sendMessage_nonblank by exact H.
  assert (Hr : forall response,
            requests (Chat.on_response e (trim text) response (awaiting e text w))
            = requests w ++ [turn_request e text w]).
  { intros response. unfold Chat.on_response.
    rewrite (proj1 (updateConversation_effects _ _ _ _)).
    rewrite (proj1 (proj2 (proj2 (add_reply_frame _ _ _)))). reflexivity. }
  destruct reply as [response|msg]; [|reflexivity].
  destruct response; first [apply Hr | reflexivity].
Qed.

(** A turn on an active conversation: the buffer grows by the user
    message and at most one reply, the session id and the identity of
    the conversation stay, and the title changes only when the buffer
    holds exactly two messages at the end. *)
Lemma sendMessage_active (e : Chat.turn_env) (text : jsstring)
    (reply : outcome json) (w : world) (c : conversation_of array_ref) :
  trim text <> [] ->
  currentConversation (chat w) = Some c ->
  let w' := Chat.sendMessage e text reply w in
  (exists extra,
     chat_messages (chat w') = chat_messages (chat w) ++ user_message e text :: extra)
  /\ sessionId (chat w') = sessionId (chat w)
  /\ exists c', currentConversation (chat w') = Some c'
       /\ id c' = id c
       /\ title c' = (if completed reply
                         && Nat.eqb (length (chat_messages (chat w'))) 2
                      then Chat.derived_title (trim text) else title c).
Proof.
  intros H Hc.
  assert (Hfail : forall msg,
            let w' := Chat.sendMessage e text (Throw msg) w in
            (exists extra, chat_messages (chat w')
                           = chat_messages (chat w) ++ user_message e text :: extra)
            /\ sessionId (chat w') = sessionId (chat w)
            /\ exists c', currentConversation (chat w') = Some c' /\ id c' = id c
                 /\ title c' = title c).
  { intros msg. destruct (sendMessage_rejected e text msg w H) as (Hm & _ & _ & Hcc & Hs & _).
    cbn zeta. rewrite Hm, Hcc, Hs. split; [exists []; reflexivity|].
    split; [reflexivity|]. exists c. auto. }
  destruct reply as [response|msg]; [|apply Hfail].
  assert (Hnull : Chat.sendMessage e text (Ok JNull) w
                  = Chat.sendMessage e text (Throw type_error) w) by reflexivity.
  assert (Hcases : response = JNull \/ response <> JNull)
    by (destruct response; [left; reflexivity | right; discriminate ..]).
  destruct Hcases as [-> | Enull]; [cbn zeta; rewrite Hnull; apply Hfail|].
  set (w3 := awaiting e text w).
  assert (Hsend : Chat.sendMessage e text (Ok response) w
                  = Chat.on_response e (trim text) response w3).
  { rewrite sendMessage_nonblank by exact H.
    destruct response; first [reflexivity | congruence]. }
  cbn zeta. rewrite Hsend. unfold Chat.on_response.
  destruct (add_reply_frame e response (Chat.hideTypingIndicator w3))
    as (Hc1 & Hs1 & _ & extra & Hm1).
  cbn zeta in Hc1, Hs1, Hm1.
  set (w5 := Chat.add_reply e response (Chat.hideTypingIndicator w3)) in *.
  assert (Hc5 : currentConversation (chat w5) = Some c) by (rewrite Hc1; exact Hc).
  destruct (updateConversation_frame (Chat.upd e) (trim text)
              (get_prop response "response") w5 c Hc5)
    as (Hm & Hs & _ & _ & _ & c' & Hc' & Hid & Ht).
  cbn zeta in Hm, Hs, Hc', Ht. rewrite Hm, Hs.
  split; [exists extra; rewrite Hm1; subst w3; cbn; rewrite <- app_assoc; reflexivity|].
  split; [rewrite Hs1; reflexivity|].
  exists c'. split; [exact Hc'|]. split; [exact Hid|]. rewrite Ht.
  replace (completed (Ok response)) with true
    by (destruct response; first [reflexivity | congruence]).
  reflexivity.
Qed.

(** When no conversation is active, [updateConversation] starts one,
    which empties the buffer. *)
Lemma updateConversation_inactive (e : Chat.update_env) (um : jsstring)
    (ai : option json) (w : world) :
  currentConversation (chat w) = None ->
  chat_messages (chat (Chat.updateConversation e um ai w)) = [].
Proof.
  intros Hc. unfold Chat.updateConversation. rewrite Hc. cbn.
  repeat case_match;
    repeat match goal with
           | H : API.saveConversation _ _ = Ok _ |- _ =>
               apply saveConversation_frame in H; destruct H as (-> & _)
           end;
    reflexivity.
Qed.

(** Once the buffer holds two messages or more, no turn changes the
    title. *)
Lemma turns_keep_title (later : list (Chat.turn_env * jsstring * outcome json)) :
  forall (w : world) (c : conversation_of array_ref),
    currentConversation (chat w) = Some c ->
    (2 <= length (chat_messages (chat w)))%nat ->
    exists c', currentConversation (chat (Chat.turns later w)) = Some c'
               /\ title c' = title c.
Proof.
  induction later as [|[[e text] reply] later IH]; intros w c Hc Hlen.
  - exists c. split; [exact Hc|reflexivity].
  - unfold Chat.turns. cbn [fold_left fst snd]. fold (Chat.turns later).
    destruct (decide (trim text = [])) as [Hb|Hb].
    + rewrite sendMessage_blank by exact Hb. apply (IH w c Hc Hlen).
    + destruct (sendMessage_active e text reply w c Hb Hc)
        as ((extra & Hm) & _ & c' & Hc' & _ & Ht).
      cbn zeta in Hm, Hc', Ht.
      assert (Hlen' : (3 <= length (chat_messages
                                      (chat (Chat.sendMessage e text reply w))))%nat)
        by (rewrite Hm, length_app; simpl; lia).
      destruct (Nat.eqb_spec
                  (length (chat_messages (chat (Chat.sendMessage e text reply w)))) 2)
        as [E2|_]; [lia|].
      rewrite andb_false_r in Ht.
      destruct (IH _ c' Hc' ltac:(lia)) as (c'' & Hc'' & Ht'').
      exists c''. split; [exact Hc''|congruence].
Qed.



(** C4.  When the gateway call of a turn fails, the user message stays
    at the end of the buffer and no reply is appended, the failure is
    shown to the user as an error notification, exactly one request has
    been issued (nothing is retried), and neither the conversation nor
    the store is touched. *)
Theorem sendMessage_gateway_failure (e : Chat.turn_env) (text msg : jsstring)
    (w : world) :
  trim text <> [] ->
  let w' := Chat.sendMessage e text (Throw msg) w in
  chat_messages (chat w')
    = chat_messages (chat w)
        ++ [Message Chat.USER (JStr (trim text)) (Chat.user_iso e) None None]
  /\ last (chat_messages (chat w')) = Some (user_message e text)
  /\ Forall (fun m => role m <> Chat.AI)
       (skipn (length (chat_messages (chat w))) (chat_messages (chat w')))
  /\ toasts w' = toasts w ++ [Toast (js "Error")
                                (if str_truthy msg then msg
                                 else js "Failed to send message")
                                (js "error")]
  /\ requests w' = requests w ++ [turn_request e text w]
  /\ currentConversation (chat w') = currentConversation (chat w)
  /\ localStorage w' = localStorage w.
Proof.
  intros H. destruct (sendMessage_rejected e text msg w H)
    as (Hm & Hr & Ht & Hc & _ & _ & Hl).
  cbn zeta in *. rewrite Hm, Hr, Ht, Hc, Hl.
  repeat split.
  - apply last_snoc.
  - rewrite drop_app_length. repeat constructor. vm_compute. discriminate.
Qed.

Lemma sendMessage_gateway_failure_witness :
  let w := Chat.startNewConversation sample_start (page ∅ (js "/")) in
  let w' := Chat.sendMessage sample_turn (js "hello") (Throw (js "Failed to fetch")) w in
  chat_messages (chat w')
    = [Message Chat.USER (JStr (js "hello")) (Chat.user_iso sample_turn) None None]
  /\ toasts w' = [Toast (js "Error") (js "Failed to fetch") (js "error")]
  /\ length (requests w') = 1%nat.
Proof.
  intros w w'.
  destruct (sendMessage_gateway_failure sample_turn (js "hello")
              (js "Failed to fetch") w ltac:(vm_compute; discriminate))
    as (Hm & _ & _ & Ht & Hr & _).
  fold w' in Hm, Ht, Hr. rewrite Hm, Ht, Hr. repeat split.
Defined.

(** C3.  A text of 3001 code units, over [CONFIG.MAX_MESSAGE_LENGTH],
    is not rejected: the turn issues the chat request with the whole
    text, and the text is appended to the buffer as a user message. *)
Theorem sendMessage_oversize :
  let text := repeat 97 3001 in
  (CONFIG.MAX_MESSAGE_LENGTH < length (trim text))%nat
  /\ forall (e : Chat.turn_env) (w : world),
       (forall reply,
          requests (Chat.sendMessage e text reply w)
          = requests w ++ [turn_request e text w])
       /\ body (turn_request e text w)
          = JSON.stringify
              (JObj [(js "message", JStr text);
                     (js "session_id",
                      JStr (or_else (sessionId (chat w))
                              (API.generateSessionId (Chat.api_seed e))))])
       /\ forall msg,
            chat_messages (chat (Chat.sendMessage e text (Throw msg) w))
            = chat_messages (chat w)
                ++ [Message Chat.USER (JStr text) (Chat.user_iso e) None None].
Proof.
  intros text.
  assert (Ht : trim text = text) by (vm_compute; reflexivity).
  assert (Hne : trim text <> []) by (rewrite Ht; discriminate).
  split; [rewrite Ht; vm_compute; lia|].
  intros e w. split; [|split].
  - intros reply. apply sendMessage_request. exact Hne.
  - unfold turn_request. rewrite Ht. reflexivity.
  - intros msg. rewrite (proj1 (sendMessage_rejected e text msg w Hne)).
    unfold user_message. rewrite Ht. reflexivity.
Qed.

(** Nor does a turn. *)
Lemma sendMessage_session (e : Chat.turn_env) (text : jsstring)
    (reply : outcome json) (w : world) (c : conversation_of array_ref) :
  currentConversation (chat w) = Some c ->
  exists c', currentConversation (chat (Chat.sendMessage e text reply w)) = Some c'
             /\ session_id c' = session_id c.
Proof.
  intros Hc. destruct (decide (trim text = [])) as [Hb|Hb].
  - rewrite sendMessage_blank by exact Hb. eauto.
  - rewrite sendMessage_nonblank by exact Hb.
    assert (Hr : forall response,
              exists c', currentConversation
                           (chat (Chat.on_response e (trim text) response
                                    (awaiting e text w))) = Some c'
                         /\ session_id c' = session_id c).
    { intros response. unfold Chat.on_response.
      apply updateConversation_session.
      rewrite (proj1 (add_reply_frame _ _ _)). exact Hc. }
    destruct reply as [response|msg]; [|cbn; eauto].
    destruct response; first [apply Hr | cbn; eauto].
Qed.

End Turns.

(** ** Session identifiers *)

Section SessionIds.

Lemma print_uint_underscore_inj (u1 u2 : Decimal.uint) (x1 x2 : jsstring) :
  JSON.print_uint u1 ++ 95 :: x1 = JSON.print_uint u2 ++ 95 :: x2 ->
  u1 = u2 /\ x1 = x2.
Proof.
  revert u2. induction u1 as [|u1 IH|u1 IH|u1 IH|u1 IH|u1 IH|u1 IH|u1 IH|u1 IH|u1 IH|u1 IH];
    intros [|u2|u2|u2|u2|u2|u2|u2|u2|u2|u2] H; cbn in H;
    try discriminate H;
    try (injection H as H; destruct (IH _ H) as [-> ->]; split; reflexivity).
  injection H as ->. split; reflexivity.
Qed.

(** Two generated session ids coincide exactly when the clock readings
    and the nine code units kept of the random draws coincide. *)
Lemma generateSessionId_eq (s1 s2 : id_seed) :
  API.generateSessionId s1 = API.generateSessionId s2
  <-> date_now s1 = date_now s2
      /\ substr 2 9 (random36 s1) = substr 2 9 (random36 s2).
Proof.
  unfold API.generateSessionId. split.
  - intros H. apply app_inv_head in H. cbn [js map list_ascii_of_string app] in H.
    apply print_uint_underscore_inj in H as [Hn Hx].
    split; [apply DecimalN.Unsigned.to_uint_inj, Hn|exact Hx].
  - intros [-> ->]. reflexivity.
Qed.

(** C10.  Called without a session id, the API-level [sendMessage]
    sends an id generated from the clock and random readings of that
    call; two such calls send two ids generated independently, which
    differ as soon as the readings differ; nothing of the client state
    records the id (a turn leaves the chat's session id, the API object
    and the conversation's [session_id] as they were), so an id stays
    the same from call to call only when the caller passes it. *)
Theorem sendMessage_session_id (w : world) (s1 s2 : id_seed) (m1 m2 : jsstring) :
  (forall sid, opt_truthy sid = false ->
     body (API.sendMessage w s1 m1 sid) = chat_body m1 (API.generateSessionId s1)
     /\ body (API.sendMessage w s2 m2 sid) = chat_body m2 (API.generateSessionId s2)
     /\ (API.generateSessionId s1 = API.generateSessionId s2
         <-> date_now s1 = date_now s2
             /\ substr 2 9 (random36 s1) = substr 2 9 (random36 s2)))
  /\ (forall sid, sid <> [] ->
        body (API.sendMessage w s1 m1 (Some sid)) = chat_body m1 sid
        /\ body (API.sendMessage w s2 m2 (Some sid)) = chat_body m2 sid)
  /\ (forall e text reply c,
        currentConversation (chat w) = Some c ->
        sessionId (chat (Chat.sendMessage e text reply w)) = sessionId (chat w)
        /\ api_token (Chat.sendMessage e text reply w) = api_token w
        /\ exists c', currentConversation (chat (Chat.sendMessage e text reply w))
                      = Some c'
                      /\ session_id c' = session_id c).
Proof.
  split; [|split].
  - intros sid Hsid. unfold API.sendMessage, chat_body. cbn [body API.request].
    assert (Hor : forall d, or_else sid d = d).
    { intros d. destruct sid as [[|]|]; first [reflexivity | discriminate Hsid]. }
    rewrite !Hor. split; [reflexivity|]. split; [reflexivity|].
    apply generateSessionId_eq.
  - intros sid Hsid. unfold API.sendMessage, chat_body. cbn [body API.request].
    destruct sid; [congruence|]. split; reflexivity.
  - intros e text reply c Hc.
    destruct (decide (trim text = [])) as [Hb|Hb].
    + rewrite !sendMessage_blank by exact Hb. repeat split. eauto.
    + split; [apply (sendMessage_active e text reply w c Hb Hc)|].
      split; [|apply sendMessage_session; exact Hc].
      rewrite sendMessage_nonblank by exact Hb.
      assert (Hr : forall response,
                api_token (Chat.on_response e (trim text) response (awaiting e text w))
                = api_token w).
      { intros response. unfold Chat.on_response.
        rewrite (proj1 (proj2 (proj2 (updateConversation_effects _ _ _ _)))).
        unfold Chat.add_reply. repeat case_match; reflexivity. }
      destruct reply as [response|msg]; [|reflexivity].
      destruct response; first [apply Hr | reflexivity].
Qed.

Lemma sendMessage_session_id_witness :
  let s1 := Seed 1700000005000 (js "0.4hf82ka0zq5") in
  let s2 := Seed 1700000005000 (js "0.x81mm3kd9wq") in
  let w := page ∅ (js "/") in
  body (API.sendMessage w s1 (js "hi") None)
    = chat_body (js "hi") (js "session_1700000005000_4hf82ka0z")
  /\ body (API.sendMessage w s2 (js "hi") None)
     = chat_body (js "hi") (js "session_1700000005000_x81mm3kd9")
  /\ API.generateSessionId s1 <> API.generateSessionId s2.
Proof.
  intros s1 s2 w.
  destruct (sendMessage_session_id w s1 s2 (js "hi") (js "hi")) as (H & _).
  destruct (H None eq_refl) as (H1 & H2 & H3).
  split; [exact H1|]. split; [exact H2|].
  intros E. apply H3 in E as [_ E]. vm_compute in E. discriminate E.
Defined.

End SessionIds.

(** ** The auth session *)

Section AuthSession.

(** The state left by [logout]. *)
Lemma logout_clears (w : world) :
  let w' := Auth.logout w in
  localStorage w' = ∅ /\ api_token w' = None /\ auth_user w' = None
  /\ location_href w' = Some (js "/auth.html")
  /\ ui_updates w' = ui_updates w
  /\ Auth.session_of w' = Auth.Unauthenticated.
Proof. repeat split. Qed.


(** A token whose [exp] is a non-zero number of seconds that the clock
    has reached logs the user out, before [updateUI] is called. *)
Lemma loadUser_expired (now : N) (w : world) (token : jsstring)
    (payload : json) (n : number) :
  API.getToken w = Some token -> token <> [] ->
  Auth.decode_payload token = Some payload -> payload <> JNull ->
  get_prop payload "exp" = Some (JNum n) ->
  mant n <> 0%Z -> Auth.reached now n = true ->
  exists w', Auth.loadUser now w = Some w'
    /\ localStorage w' = ∅ /\ api_token w' = None /\ auth_user w' = None
    /\ location_href w' = Some (js "/auth.html")
    /\ ui_updates w' = ui_updates w
    /\ Auth.session_of w' = Auth.Unauthenticated.
Proof.
  intros Ht Hne Hd Hp He Hm Hr. unfold Auth.loadUser. rewrite Ht, Hd.
  destruct token; [congruence|]. cbn [negb str_truthy].
  destruct payload; try congruence; cbn [exp]; rewrite He; cbn [Auth.expired truthy];
    (destruct (Z.eqb_spec (mant n) 0); [congruence|]); cbn [negb]; rewrite Hr;
    eexists; (split; [reflexivity|]); repeat split.
Qed.

(** For a whole number of seconds, [reached] is the comparison of the
    source. *)
Lemma reached_seconds (now : N) (seconds : Z) :
  Auth.reached now (Number seconds 0) = (seconds * 1000 <=? Z.of_N now)%Z.
Proof. reflexivity. Qed.

(** C9.  A stored token whose payload carries [exp: 0], the epoch,
    which lies before every current time, is not treated as expired:
    [loadUser] keeps the token, sets the user, updates the UI and
    requests no navigation; the session stays authenticated. *)
Theorem loadUser_epoch_expiry :
  let token := js "eyJhbGciOiJIUzI1NiJ9.eyJzdWIiOiJ1MSIsImV4cCI6MH0.c2ln" in
  let w := page {["auth_token" := token]} (js "/") in
  Auth.decode_payload token
    = Some (JObj [(js "sub", JStr (js "u1")); (js "exp", JNum (Number 0 0))])
  /\ forall now : N,
       exists w',
         Auth.loadUser now w = Some w'
         /\ localStorage w' = localStorage w
         /\ api_token w' = Some token
         /\ (exists u, auth_user w' = Some u /\ exp u = Some (JNum (Number 0 0)))
         /\ location_href w' = None
         /\ ui_updates w' = 1%nat
         /\ Auth.session_of w' = Auth.Authenticated.
Proof.
  intros token w. split; [vm_compute; reflexivity|].
  intros now. eexists. split; [vm_compute; reflexivity|].
  repeat split. eexists. split; reflexivity.
Qed.

(** The same token with an expiry one second after the epoch is
    logged out at any time from then on. *)
Lemma loadUser_expired_example :
  let token := js "eyJhbGciOiJIUzI1NiJ9.eyJzdWIiOiJ1MSIsImV4cCI6MTcwMDAwMDAwMH0.c2ln" in
  let w := page {["auth_token" := token]} (js "/") in
  exists w', Auth.loadUser 1700000000001 w = Some w'
    /\ localStorage w' = ∅ /\ api_token w' = None /\ auth_user w' = None
    /\ location_href w' = Some (js "/auth.html")
    /\ ui_updates w' = 0%nat
    /\ Auth.session_of w' = Auth.Unauthenticated.
Proof.
  intros token w.
  apply (loadUser_expired 1700000000001 w token
           (JObj [(js "sub", JStr (js "u1"));
                  (js "exp", JNum (Number 1700000000 0))])
           (Number 1700000000 0));
    first [vm_compute; reflexivity | discriminate].
Qed.

End AuthSession.

(** ** Worked examples *)

Section Examples.

Example trim_example :
  trim (js "  5+5 " ++ [c_nl]) = js "5+5".
Proof. reflexivity. Qed.

Example format_inline_example :
  Chat.formatMessage (js "a **b** *c* `d` <e>")
  = js "a <strong>b</strong> <em>c</em> <code>d</code> &lt;e&gt;".
Proof. vm_compute. reflexivity. Qed.

Example parse_example :
  JSON.parse (js "[ {" ++ Chat.quoted "id" ++ js " : " ++ Chat.quoted "c1"
              ++ js ", " ++ Chat.quoted "pinned" ++ js ":true}, 0.5e1, null ]")
  = Some (JArr [JObj [(js "id", JStr (js "c1")); (js "pinned", JBool true)];
                JNum (Number 5 0); JNull]).
Proof. vm_compute. reflexivity. Qed.

Example parse_rejects_example :
  JSON.parse (js "[1,]") = None /\ JSON.parse (js "[01]") = None
  /\ JSON.parse (js "{") = None /\ JSON.parse [] = None.
Proof. vm_compute. repeat split. Qed.

Example atob_example :
  Auth.atob (js "eyJzdWIiOiJ1MSIsImV4cCI6MH0")
  = Some (js "{" ++ Chat.quoted "sub" ++ js ":" ++ Chat.quoted "u1" ++ js ","
            ++ Chat.quoted "exp" ++ js ":0}")
  /\ Auth.atob (js "undefined") = None
  /\ Auth.atob (js "a-b_") = None.
Proof. vm_compute. repeat split. Qed.

(** Starting a conversation, sending "5+5" and receiving a reply: the
    conversation is titled "5+5" and is the first entry of the store. *)
Example first_exchange_example :
  let w := Chat.startNewConversation sample_start (page ∅ (js "/")) in
  let w1 := Chat.sendMessage sample_turn (js "5+5")
              (Ok (JObj [(js "response", JStr (js "10"));
                         (js "confidence", JNum (Number 9 (-1)))])) w in
  exists c entry rest,
    currentConversation (chat w1) = Some c
    /\ title c = js "5+5"
    /\ lastMessage c = Some (js "10")
    /\ length (chat_messages (chat w1)) = 2%nat
    /\ API.getConversations w1 = Ok (JArr (entry :: rest))
    /\ entry = conversation_to_json (Chat.resolve (chat_messages (chat w1)) c)
    /\ get_prop entry "title" = Some (JStr (js "5+5")).
Proof. vm_compute. eexists _, _, _. repeat split. Qed.

(** After the first exchange the conversation shares the array of the
    chat: a user message whose turn then fails is part of the
    conversation in memory, while the store still holds the two messages
    saved before. *)
Example shared_messages_example :
  let w := Chat.startNewConversation sample_start (page ∅ (js "/")) in
  let w1 := Chat.sendMessage sample_turn (js "5+5")
              (Ok (JObj [(js "response", JStr (js "10"))])) w in
  let w2 := Chat.sendMessage sample_turn (js "and 6+6?")
              (Throw (js "Failed to fetch")) w1 in
  exists c,
    currentConversation (chat w2) = Some c
    /\ messages c = ChatMessages
    /\ length (messages (Chat.resolve (chat_messages (chat w2)) c)) = 3%nat
    /\ API.getConversations w2 = API.getConversations w1.
Proof. vm_compute. eexists. repeat split. Qed.

End Examples.

(** ** Deleting, pinning and loading stored conversations *)

Section StoreActions.

Lemma without_id_spec (cid : jsstring) (l : list json) :
  Forall (fun e => e <> JNull) l ->
  API.without_id cid l = Ok (others cid l).
Proof.
  induction 1 as [|x l Hx Hl IH]; [reflexivity|].
  assert (Hstep : API.without_id cid (x :: l)
                  = match API.without_id cid l with
                    | Ok r' => Ok (if API.has_id cid x then r' else x :: r')
                    | Throw e => Throw e
                    end)
    by (destruct x; [congruence | reflexivity ..]).
  rewrite Hstep, IH. unfold others. simpl.
  destruct (API.has_id cid x); reflexivity.
Qed.

Lemma others_non_null (cid : jsstring) (l : list json) :
  Forall (fun e => e <> JNull) l -> Forall (fun e => e <> JNull) (others cid l).
Proof.
  intros H. unfold others. rewrite List.Forall_forall in *.
  intros e He. apply List.filter_In in He. apply H, He.
Qed.

Lemma others_absent (cid : jsstring) (l : list json) :
  forall e, In e (others cid l) -> API.has_id cid e = false.
Proof.
  intros e He. apply List.filter_In in He. destruct He as [_ He].
  destruct (API.has_id cid e); [discriminate|reflexivity].
Qed.

Lemma others_id (cid : jsstring) (l : list json) :
  (forall e, In e l -> API.has_id cid e = false) -> others cid l = l.
Proof.
  induction l as [|x l IH]; intros H; [reflexivity|].
  unfold others. simpl. rewrite (H x) by (left; reflexivity). simpl.
  f_equal. apply IH. intros e He. apply H. right. exact He.
Qed.

Lemma find_conversation_absent (cid : jsstring) (l : list json) :
  Forall (fun e => e <> JNull) l ->
  (forall e, In e l -> API.has_id cid e = false) ->
  Chat.find_conversation cid l = Ok None.
Proof.
  induction 1 as [|x l Hx Hl IH]; intros Habs; [reflexivity|].
  assert (Hstep : Chat.find_conversation cid (x :: l)
                  = if API.has_id cid x then Ok (Some x)
                    else Chat.find_conversation cid l)
    by (destruct x; [congruence | reflexivity ..]).
  rewrite Hstep, (Habs x) by (left; reflexivity).
  apply IH. intros e He. apply Habs. right. exact He.
Qed.

Lemma deleteConversation_holds (cid : jsstring) (w : world) (stored : list json) :
  holds w stored ->
  exists w', API.deleteConversation cid w = Ok w'
    /\ holds w' (others cid stored)
    /\ localStorage w'
       = <[CONFIG.CONVERSATIONS_STORAGE_KEY :=
             JSON.stringify (JArr (others cid stored))]> (localStorage w)
    /\ chat w' = chat w /\ toasts w' = toasts w /\ requests w' = requests w
    /\ api_token w' = api_token w.
Proof.
  intros [Hget Hnn]. unfold API.deleteConversation.
  rewrite Hget, (without_id_spec cid stored Hnn).
  eexists. split; [reflexivity|]. split.
  - split; [apply getConversations_after_write|apply others_non_null, Hnn].
  - repeat split.
Qed.

(** What [saveObject] does on a readable store. *)
Lemma saveObject_holds (w : world) (stored : list json) (cid : jsstring)
    (conv : json) :
  holds w stored -> conv <> JNull -> API.has_id cid conv = true ->
  exists w' stored',
    API.saveObject w cid conv = Ok w'
    /\ holds w' stored'
    /\ Chat.find_conversation cid stored' = Ok (Some conv)
    /\ ((exists i e, stored !! i = Some e /\ API.has_id cid e = true
           /\ (forall j e', (j < i)%nat -> stored !! j = Some e'
                            -> API.has_id cid e' = false)
           /\ stored' = <[i := conv]> stored)
        \/ ((forall e, In e stored -> API.has_id cid e = false)
            /\ stored' = conv :: stored))
    /\ chat w' = chat w /\ toasts w' = toasts w /\ requests w' = requests w
    /\ api_token w' = api_token w /\ chatTitle w' = chatTitle w.
Proof.
  intros [Hget Hnn] Hconv Hid. unfold API.saveObject. rewrite Hget.
  destruct (findIndex_spec cid stored Hnn)
    as [[-> Hnone] | (i & e & -> & Hi & He & Hbefore)].
  - eexists. exists (conv :: stored). split; [reflexivity|].
    split; [split; [apply getConversations_after_write|constructor; assumption]|].
    split.
    { apply (find_conversation_first cid (conv :: stored) O conv);
        [constructor; assumption | reflexivity | exact Hid | intros j e' Hj; lia]. }
    split; [right; split; [exact Hnone|reflexivity]|]. repeat split.
  - eexists. exists (<[i := conv]> stored). split; [reflexivity|].
    split; [split; [apply getConversations_after_write
                   |apply Forall_insert_non_null; assumption]|].
    assert (Hlt : (i < length stored)%nat) by (eapply lookup_lt_Some; exact Hi).
    split.
    { apply (find_conversation_first cid _ i conv).
      - apply Forall_insert_non_null; assumption.
      - apply list_lookup_insert_eq. exact Hlt.
      - exact Hid.
      - intros j e' Hj Hlook. rewrite list_lookup_insert_ne in Hlook by lia.
        apply (Hbefore j); assumption. }
    split; [left; exists i, e; repeat split; assumption|]. repeat split.
Qed.

Lemma saveConversation_saveObject (w : world) (c : conversation) :
  API.saveConversation w c = API.saveObject w (id c) (conversation_to_json c).
Proof. reflexivity. Qed.

(** X1.  On a readable store, [deleteConversation(id)] writes back
    the entries whose id differs, in their order: afterwards no entry is
    found under the id (every duplicate is gone as well), every entry
    with another id is still there, and deleting the same id again
    leaves local storage as it is. *)
Theorem deleteConversation_removes (cid : jsstring) (w : world) (stored : list json) :
  holds w stored ->
  exists w',
    API.deleteConversation cid w = Ok w'
    /\ API.getConversations w' = Ok (JArr (others cid stored))
    /\ Chat.find_conversation cid (others cid stored) = Ok None
    /\ sublist (others cid stored) stored
    /\ (forall e, In e stored -> API.has_id cid e = false -> In e (others cid stored))
    /\ exists w'', API.deleteConversation cid w' = Ok w''
         /\ localStorage w'' = localStorage w'.
Proof.
  intros H. destruct (deleteConversation_holds cid w stored H)
    as (w' & Hdel & Hh' & Hls & _).
  exists w'. split; [exact Hdel|]. split; [apply Hh'|].
  split; [apply find_conversation_absent; [apply Hh'|apply others_absent]|].
  split; [apply sublist_List_filter|].
  split.
  { intros e He Hid. apply List.filter_In. split; [exact He|]. rewrite Hid. reflexivity. }
  destruct (deleteConversation_holds cid w' _ Hh') as (w'' & Hdel' & _ & Hls' & _).
  exists w''. split; [exact Hdel'|]. rewrite Hls'.
  rewrite (others_id cid (others cid stored)) by apply others_absent.
  rewrite Hls. apply insert_insert_eq.
Qed.

Lemma holds_storage (w w' : world) (stored : list json) :
  localStorage w' = localStorage w -> holds w stored -> holds w' stored.
Proof.
  intros Hls [Hget Hnn]. split; [|exact Hnn].
  unfold API.getConversations in *. rewrite Hls. exact Hget.
Qed.


Lemma json_eqb_eq (a : json) : forall b, json_eqb a b = true -> a = b.
Proof.
  induction a as [| x | x | s | l IH | l IH] using json_rect';
    intros [| y | y | t | m | m] H; simpl in H; try discriminate.
  - reflexivity.
  - apply eqb_prop in H. congruence.
  - apply andb_true_iff in H. destruct H as [H1 H2].
    apply Z.eqb_eq in H1, H2. destruct x, y. simpl in *. congruence.
  - apply bool_decide_eq_true in H. congruence.
  - f_equal. revert m H. induction IH as [|x l Hx _ IHl]; intros [|y m] H;
      try discriminate; [reflexivity|].
    apply andb_true_iff in H. destruct H as [H1 H2].
    f_equal; [apply Hx, H1|apply IHl, H2].
  - f_equal. revert m H. induction IH as [|[k x] l Hx _ IHl]; intros [|[k' y] m] H;
      try discriminate; [reflexivity|].
    apply andb_true_iff in H. destruct H as [H1 H2].
    apply andb_true_iff in H1. destruct H1 as [Hk H1].
    apply bool_decide_eq_true in Hk. simpl in Hx.
    f_equal; [f_equal; [exact Hk|apply Hx, H1]|apply IHl, H2].
Qed.




(** The model reads an object as a conversation only when nothing of
    the object is lost. *)
Lemma conversation_of_json_exact (j : json) (c : conversation) :
  conversation_of_json j = Some c -> j = conversation_to_json c.
Proof.
  unfold conversation_of_json. intros H.
  repeat case_match; try discriminate.
  injection H as <-. symmetry. apply json_eqb_eq. assumption.
Qed.



Lemma deleteConversation_removes_witness :
  let a := JObj [(js "id", JStr (js "conv_1")); (js "title", JStr (js "one"))] in
  let b := JObj [(js "id", JStr (js "conv_2")); (js "title", JStr (js "two"))] in
  let w := page {[CONFIG.CONVERSATIONS_STORAGE_KEY :=
                    JSON.stringify (JArr [a; b; a])]} (js "/") in
  exists w', API.deleteConversation (js "conv_1") w = Ok w'
             /\ API.getConversations w' = Ok (JArr [b]).
Proof.
  intros a b w.
  destruct (deleteConversation_removes (js "conv_1") w [a; b; a])
    as (w' & Hdel & Hget & _).
  - split; [vm_compute; reflexivity|repeat constructor; discriminate].
  - exists w'. split; [exact Hdel|exact Hget].
Defined.





End StoreActions.

(** ** What a completed turn leaves in memory and in the store *)

Section Persistence.

Lemma held_has_id (buffer : list message) (c : conversation_of array_ref) :
  API.has_id (id c) (conversation_to_json (Chat.resolve buffer c)) = true.
Proof. apply (conversation_has_id (Chat.resolve buffer c)). Qed.

Lemma conversation_non_null (c : conversation) : conversation_to_json c <> JNull.
Proof. discriminate. Qed.

(** The state in which [updateConversation] runs after a reply with
    the text [r] has been appended. *)
Lemma replied (e : Chat.turn_env) (text : jsstring) (response : json)
    (r : jsstring) (w : world) :
  trim text <> [] ->
  get_prop response "response" = Some (JStr r) -> r <> [] ->
  Chat.sendMessage e text (Ok response) w
  = Chat.updateConversation (Chat.upd e) (trim text) (Some (JStr r))
      (Chat.addMessage (ai_message e response r)
         (Chat.hideTypingIndicator (awaiting e text w))).
Proof.
  intros Ht Hr Hne. rewrite sendMessage_nonblank by exact Ht.
  destruct response; try discriminate Hr.
  unfold Chat.on_response, Chat.add_reply. rewrite Hr.
  destruct r; [congruence|]. reflexivity.
Qed.

Lemma updateConversation_saves (e : Chat.update_env) (um r : jsstring)
    (w : world) (c : conversation_of array_ref) (stored : list json) :
  currentConversation (chat w) = Some c ->
  holds w stored ->
  let w' := Chat.updateConversation e um (Some (JStr r)) w in
  let buffer := chat_messages (chat w) in
  let c' := updated e um (Some (substring0 100 r)) (length buffer) c in
  chat w' = ChatState (Some c') (sessionId (chat w)) buffer (isTyping (chat w))
  /\ toasts w' = toasts w /\ requests w' = requests w
  /\ exists stored',
       holds w' stored'
       /\ Chat.find_conversation (id c) stored'
          = Ok (Some (conversation_to_json (Chat.resolve buffer c')))
       /\ ((exists i e, stored !! i = Some e /\ API.has_id (id c) e = true
              /\ (forall j e', (j < i)%nat -> stored !! j = Some e'
                               -> API.has_id (id c) e' = false)
              /\ stored' = <[i := conversation_to_json (Chat.resolve buffer c')]> stored)
           \/ ((forall e, In e stored -> API.has_id (id c) e = false)
               /\ stored' = conversation_to_json (Chat.resolve buffer c') :: stored)).
Proof.
  intros Hc Hh. cbn zeta. unfold Chat.updateConversation. rewrite Hc. cbn zeta.
  rewrite Hc.
  set (n := length (chat_messages (chat w))).
  set (c' := updated e um (Some (substring0 100 r)) n c).
  set (w2 := if Nat.eqb n 2 then set_chatTitle (Chat.derived_title um) w else w).
  assert (Hc3 : Chat.set_updated_at (Chat.update_iso e)
                  (Chat.set_lastMessage (Some (substring0 100 r))
                     (Chat.set_messages ChatMessages
                        (if Nat.eqb n 2 then Chat.set_title (Chat.derived_title um) c
                         else c))) = c')
    by (subst c'; unfold updated; destruct (Nat.eqb n 2); reflexivity).
  rewrite Hc3.
  assert (Hw2 : chat w2 = chat w /\ localStorage w2 = localStorage w
                /\ toasts w2 = toasts w /\ requests w2 = requests w)
    by (subst w2; destruct (Nat.eqb n 2); repeat split).
  destruct Hw2 as (Hchat2 & Hls2 & Hto2 & Hrq2).
  set (w3 := Chat.set_currentConversation c' w2).
  assert (Hbuf : chat_messages (chat w3) = chat_messages (chat w))
    by (subst w3; cbn; rewrite Hchat2; reflexivity).
  rewrite Hbuf.
  assert (Hh3 : holds w3 stored) by (apply (holds_storage w); [exact Hls2|exact Hh]).
  rewrite saveConversation_saveObject.
  destruct (saveObject_holds w3 stored (id c)
              (conversation_to_json (Chat.resolve (chat_messages (chat w)) c'))
              Hh3 (conversation_non_null _) (held_has_id _ c'))
    as (w4 & stored' & Hsave & Hh4 & Hfind & Hshape & Hchat4 & Hto4 & Hrq4 & _).
  change (id (Chat.resolve (chat_messages (chat w)) c')) with (id c).
  rewrite Hsave, Hchat4, Hto4, Hrq4.
  split; [subst w3; cbn; rewrite Hchat2; reflexivity|].
  split; [subst w3; cbn; exact Hto2|].
  split; [subst w3; cbn; exact Hrq2|].
  exists stored'. split; [exact Hh4|]. split; [exact Hfind|exact Hshape].
Qed.

Lemma completed_turn (e : Chat.turn_env) (text : jsstring) (response : json)
    (r : jsstring) (w : world) (c : conversation_of array_ref)
    (stored : list json) :
  trim text <> [] ->
  get_prop response "response" = Some (JStr r) -> r <> [] ->
  currentConversation (chat w) = Some c ->
  holds w stored ->
  let w' := Chat.sendMessage e text (Ok response) w in
  let buffer :=
    chat_messages (chat w) ++ [user_message e text; ai_message e response r] in
  let c' := after_turn e text r (length buffer) c in
  chat w' = ChatState (Some c') (sessionId (chat w)) buffer false
  /\ toasts w' = toasts w
  /\ exists stored',
       holds w' stored'
       /\ Chat.find_conversation (id c) stored'
          = Ok (Some (conversation_to_json (Chat.resolve buffer c')))
       /\ ((exists i e, stored !! i = Some e /\ API.has_id (id c) e = true
              /\ (forall j e', (j < i)%nat -> stored !! j = Some e'
                               -> API.has_id (id c) e' = false)
              /\ stored' = <[i := conversation_to_json (Chat.resolve buffer c')]> stored)
           \/ ((forall e, In e stored -> API.has_id (id c) e = false)
               /\ stored' = conversation_to_json (Chat.resolve buffer c') :: stored)).
Proof.
  intros Ht Hr Hne Hc Hh. cbn zeta. rewrite (replied e text response r w Ht Hr Hne).
  set (w5 := Chat.addMessage _ _).
  assert (Hb : chat_messages (chat w5)
               = chat_messages (chat w) ++ [user_message e text; ai_message e response r])
    by (subst w5; cbn; rewrite <- app_assoc; reflexivity).
  assert (Hc5 : currentConversation (chat w5) = Some c) by exact Hc.
  assert (Hh5 : holds w5 stored) by (apply (holds_storage w); [reflexivity|exact Hh]).
  destruct (updateConversation_saves (Chat.upd e) (trim text) r w5 c stored Hc5 Hh5)
    as (Hchat & Hto & _ & stored' & Hh' & Hfind & Hshape).
  cbn zeta in Hchat, Hto, Hh', Hfind, Hshape. rewrite Hb in Hchat, Hfind, Hshape.
  split; [rewrite Hchat; reflexivity|]. split; [rewrite Hto; reflexivity|].
  exists stored'. split; [exact Hh'|]. split; [exact Hfind|exact Hshape].
Qed.

End Persistence.

(** ** Further properties of turns *)

Section TurnsFurther.



Lemma saveConversation_unreadable (w : world) (c : conversation) (m : jsstring) :
  API.getConversations w = Throw m -> API.saveConversation w c = Throw m.
Proof. intros H. unfold API.saveConversation. rewrite H. reflexivity. Qed.

Lemma getConversations_storage (w w' : world) :
  localStorage w' = localStorage w ->
  API.getConversations w' = API.getConversations w.
Proof. intros H. unfold API.getConversations. rewrite H. reflexivity. Qed.

(** X5.  When the stored text cannot be parsed, a completed turn still
    goes through in memory (both messages are in the buffer and the
    conversation object is updated), but nothing is written to local
    storage and no toast tells the user that the conversation was not
    saved. *)
Theorem turn_unreadable_store_silent (e : Chat.turn_env) (text : jsstring)
    (response : json) (r : jsstring) (w : world)
    (c : conversation_of array_ref) (m : jsstring) :
  trim text <> [] ->
  get_prop response "response" = Some (JStr r) -> r <> [] ->
  currentConversation (chat w) = Some c ->
  API.getConversations w = Throw m ->
  let w' := Chat.sendMessage e text (Ok response) w in
  let buffer :=
    chat_messages (chat w) ++ [user_message e text; ai_message e response r] in
  chat_messages (chat w') = buffer
  /\ currentConversation (chat w') = Some (after_turn e text r (length buffer) c)
  /\ localStorage w' = localStorage w
  /\ toasts w' = toasts w.
Proof.
  intros Ht Hr Hne Hc Hget. cbn zeta.
  rewrite (replied e text response r w Ht Hr Hne).
  set (w5 := Chat.addMessage _ _).
  assert (Hb : chat_messages (chat w5)
               = chat_messages (chat w) ++ [user_message e text; ai_message e response r])
    by (subst w5; cbn; rewrite <- app_assoc; reflexivity).
  assert (Hc5 : currentConversation (chat w5) = Some c) by exact Hc.
  unfold Chat.updateConversation. rewrite Hc5. cbn zeta. rewrite Hc5.
  rewrite saveConversation_unreadable with (m := m).
  - rewrite Hb. unfold after_turn, updated.
    destruct (Nat.eqb _ 2); cbn; repeat split;
      rewrite <- app_assoc; reflexivity.
  - rewrite <- Hget. apply getConversations_storage.
    destruct (Nat.eqb _ 2); reflexivity.
Qed.

Lemma turn_unreadable_store_silent_witness :
  let w0 := Chat.startNewConversation sample_start
              (page {[CONFIG.CONVERSATIONS_STORAGE_KEY := truncated_store]} (js "/")) in
  let w' := Chat.sendMessage sample_turn (js "5+5") (Ok sample_reply) w0 in
  length (chat_messages (chat w')) = 2%nat
  /\ localStorage w' = localStorage w0 /\ toasts w' = [].
Proof.
  intros w0 w'.
  destruct (turn_unreadable_store_silent sample_turn (js "5+5") sample_reply (js "10")
              w0 (fresh sample_start) syntax_error)
    as (Hbuf & _ & Hls & Hto).
  - vm_compute. discriminate.
  - vm_compute. reflexivity.
  - discriminate.
  - reflexivity.
  - vm_compute. reflexivity.
  - cbn zeta in *. fold w' in Hbuf, Hls, Hto.
    split; [rewrite Hbuf; reflexivity|]. split; [exact Hls|exact Hto].
Defined.

Lemma updateConversation_starts (e : Chat.update_env) (um : jsstring)
    (ai : option json) (w : world) :
  currentConversation (chat w) = None ->
  Chat.updateConversation e um ai w
  = Chat.updateConversation e um ai (Chat.startNewConversation (Chat.start e) w).
Proof. intros Hc. unfold Chat.updateConversation. rewrite Hc. reflexivity. Qed.

(** X6.  A turn that completes while no conversation is open loses its
    exchange.  [updateConversation] then calls [startNewConversation],
    which replaces the buffer by an empty array after both messages were
    appended: the buffer ends up empty, the new conversation keeps the
    title 'New conversation', and the entry written to a readable store
    has no messages, although the request was sent and answered. *)
Theorem first_turn_without_conversation (e : Chat.turn_env) (text : jsstring)
    (response : json) (r : jsstring) (w : world) (stored : list json) :
  trim text <> [] ->
  get_prop response "response" = Some (JStr r) -> r <> [] ->
  currentConversation (chat w) = None ->
  holds w stored ->
  let w' := Chat.sendMessage e text (Ok response) w in
  chat_messages (chat w') = []
  /\ requests w' = requests w ++ [turn_request e text w]
  /\ exists (c' : conversation_of array_ref) (saved : conversation)
            (stored' : list json),
       currentConversation (chat w') = Some c'
       /\ id c' = API.generateConversationId (Chat.conv_seed (Chat.start (Chat.upd e)))
       /\ title c' = js "New conversation"
       /\ API.getConversations w' = Ok (JArr stored')
       /\ Chat.find_conversation (id c') stored' = Ok (Some (conversation_to_json saved))
       /\ messages saved = []
       /\ lastMessage saved = Some (substring0 100 r).
Proof.
  intros Ht Hr Hne Hc Hh. cbn zeta.
  split; [|split; [apply sendMessage_request; exact Ht|]].
  - rewrite (replied e text response r w Ht Hr Hne).
    apply updateConversation_inactive. exact Hc.
  - rewrite (replied e text response r w Ht Hr Hne).
    set (w5 := Chat.addMessage _ _).
    rewrite updateConversation_starts by exact Hc.
    set (w6 := Chat.startNewConversation _ w5).
    assert (Hc6 : currentConversation (chat w6) = Some (fresh (Chat.start (Chat.upd e))))
      by reflexivity.
    assert (Hh6 : holds w6 stored) by (apply (holds_storage w); [reflexivity|exact Hh]).
    destruct (updateConversation_saves (Chat.upd e) (trim text) r w6 _ stored Hc6 Hh6)
      as (Hchat & _ & _ & stored' & Hh' & Hfind & _).
    cbn zeta in Hchat, Hh', Hfind.
    eexists. eexists. exists stored'. rewrite Hchat.
    split; [reflexivity|]. split; [reflexivity|]. split; [reflexivity|].
    split; [apply Hh'|]. split; [exact Hfind|]. split; reflexivity.
Qed.

Lemma first_turn_without_conversation_witness :
  let w' := Chat.sendMessage sample_turn (js "5+5") (Ok sample_reply)
              (page ∅ (js "/")) in
  chat_messages (chat w') = [] /\ length (requests w') = 1%nat.
Proof.
  intros w'.
  destruct (first_turn_without_conversation sample_turn (js "5+5") sample_reply
              (js "10") (page ∅ (js "/")) [])
    as (Hbuf & Hreq & _).
  - vm_compute. discriminate.
  - vm_compute. reflexivity.
  - discriminate.
  - reflexivity.
  - split; [vm_compute; reflexivity|constructor].
  - cbn zeta in *. fold w' in Hbuf, Hreq.
    split; [exact Hbuf|rewrite Hreq; reflexivity].
Defined.

(** X7.  Clearing a conversation empties the buffer and the messages
    of the conversation object but writes nothing to the store, and it
    makes the title provisional again: the next completed exchange
    leaves exactly two messages, so the title is derived anew from the
    text of that exchange, whatever the title was. *)
Theorem clear_then_turn_retitles (e : Chat.turn_env) (text : jsstring)
    (response : json) (r : jsstring) (w : world)
    (c : conversation_of array_ref) :
  trim text <> [] ->
  get_prop response "response" = Some (JStr r) -> r <> [] ->
  currentConversation (chat w) = Some c ->
  let w1 := UIActions.clearConversation true w in
  let w2 := Chat.sendMessage e text (Ok response) w1 in
  chat_messages (chat w1) = []
  /\ option_map (fun x => messages (Chat.resolve (chat_messages (chat w1)) x))
                (currentConversation (chat w1)) = Some []
  /\ option_map title (currentConversation (chat w1)) = Some (title c)
  /\ localStorage w1 = localStorage w
  /\ toasts w1 = toasts w ++ [Toast (js "Cleared") (js "All messages cleared")
                                    (js "success")]
  /\ chat_messages (chat w2) = [user_message e text; ai_message e response r]
  /\ exists c2, currentConversation (chat w2) = Some c2
       /\ id c2 = id c
       /\ title c2 = Chat.derived_title (trim text).
Proof.
  intros Ht Hr Hne Hc. cbn zeta. unfold UIActions.clearConversation. rewrite Hc.
  set (w1 := push_toast _ _).
  split; [reflexivity|]. split; [reflexivity|]. split; [reflexivity|].
  split; [reflexivity|]. split; [reflexivity|].
  rewrite (replied e text response r w1 Ht Hr Hne).
  set (w5 := Chat.addMessage _ _).
  assert (Hc5 : currentConversation (chat w5)
                = Some (Chat.set_messages (OwnArray []) c)) by reflexivity.
  destruct (updateConversation_frame (Chat.upd e) (trim text) (Some (JStr r)) w5 _ Hc5)
    as (Hm & _ & _ & _ & _ & c2 & Hc2 & Hid & Htitle).
  cbn zeta in Hm, Hc2, Htitle. rewrite Hm.
  split; [reflexivity|]. exists c2. split; [exact Hc2|]. split; [exact Hid|].
  exact Htitle.
Qed.

Lemma clear_then_turn_retitles_witness :
  let w1 := UIActions.clearConversation true sample_open in
  let w2 := Chat.sendMessage sample_second_turn (js "what is a monad?")
              (Ok sample_reply) w1 in
  option_map title (currentConversation (chat sample_open)) = Some (js "5+5")
  /\ option_map title (currentConversation (chat w2)) = Some (js "what is a monad?").
Proof.
  intros w1 w2. split; [vm_compute; reflexivity|].
  destruct (clear_then_turn_retitles sample_second_turn (js "what is a monad?")
              sample_reply (js "10") sample_open
              (after_turn sample_turn (js "5+5") (js "10") 2 (fresh sample_start)))
    as (_ & _ & _ & _ & _ & _ & c2 & Hc2 & _ & Htitle).
  - vm_compute. discriminate.
  - vm_compute. reflexivity.
  - discriminate.
  - vm_compute. reflexivity.
  - cbn zeta in *. fold w1 w2 in Hc2. rewrite Hc2. cbn. rewrite Htitle.
    vm_compute. reflexivity.
Defined.

(** X8.  A conversation whose first request fails is never titled.
    The user message of a failed turn stays in the buffer, so the next
    completed exchange leaves three messages instead of two: the title
    is not derived then, and no later turn derives it either; the
    conversation keeps the title 'New conversation'. *)
Theorem failed_first_turn_never_titled (e0 : Chat.start_env) (w : world)
    (e1 e2 : Chat.turn_env) (text1 text2 msg : jsstring) (response : json)
    (r : jsstring) (later : list (Chat.turn_env * jsstring * outcome json)) :
  trim text1 <> [] -> trim text2 <> [] ->
  get_prop response "response" = Some (JStr r) -> r <> [] ->
  let w0 := Chat.startNewConversation e0 w in
  let w1 := Chat.sendMessage e1 text1 (Throw msg) w0 in
  let w2 := Chat.sendMessage e2 text2 (Ok response) w1 in
  chat_messages (chat w2)
  = [user_message e1 text1; user_message e2 text2; ai_message e2 response r]
  /\ exists c, currentConversation (chat (Chat.turns later w2)) = Some c
       /\ title c = js "New conversation".
Proof.
  intros Ht1 Ht2 Hr Hne. cbn zeta.
  set (w0 := Chat.startNewConversation e0 w).
  destruct (sendMessage_rejected e1 text1 msg w0 Ht1) as (Hm1 & _ & _ & Hc1 & _).
  cbn zeta in Hm1, Hc1.
  set (w1 := Chat.sendMessage e1 text1 (Throw msg) w0) in *.
  rewrite (replied e2 text2 response r w1 Ht2 Hr Hne).
  set (w5 := Chat.addMessage _ _).
  assert (Hb : chat_messages (chat w5)
               = [user_message e1 text1; user_message e2 text2;
                  ai_message e2 response r])
    by (subst w5; cbn; rewrite Hm1; reflexivity).
  assert (Hc5 : currentConversation (chat w5) = Some (fresh e0))
    by (subst w5; cbn; rewrite Hc1; reflexivity).
  destruct (updateConversation_frame (Chat.upd e2) (trim text2) (Some (JStr r)) w5 _ Hc5)
    as (Hm & _ & _ & _ & _ & c2 & Hc2 & _ & Htitle).
  cbn zeta in Hm, Hc2, Htitle. rewrite Hb in Htitle. cbn in Htitle.
  rewrite Hm, Hb. split; [reflexivity|].
  destruct (turns_keep_title later _ c2 Hc2) as (c & Hc & Ht).
  - rewrite Hm, Hb. cbn. lia.
  - exists c. split; [exact Hc|]. rewrite Ht. exact Htitle.
Qed.

Lemma failed_first_turn_never_titled_witness :
  exists c,
    currentConversation
      (chat (Chat.turns []
               (Chat.sendMessage sample_second_turn (js "5+5") (Ok sample_reply)
                  (Chat.sendMessage sample_turn (js "5+5") (Throw (js "Failed to fetch"))
                     (Chat.startNewConversation sample_start (page ∅ (js "/")))))))
    = Some c
    /\ title c = js "New conversation".
Proof.
  apply (failed_first_turn_never_titled sample_start (page ∅ (js "/"))
           sample_turn sample_second_turn (js "5+5") (js "5+5")
           (js "Failed to fetch") sample_reply (js "10") []).
  - vm_compute. discriminate.
  - vm_compute. discriminate.
  - vm_compute. reflexivity.
  - discriminate.
Defined.

Lemma turn_request_body (e : Chat.turn_env) (text sid : jsstring) (w : world) :
  sessionId (chat w) = Some sid -> sid <> [] ->
  body (turn_request e text w) = chat_body (trim text) sid.
Proof.
  intros Hs Hne. unfold turn_request, API.sendMessage, chat_body.
  cbn [body API.request]. rewrite Hs. destruct sid; [congruence|]. reflexivity.
Qed.

(** X9.  All requests of a conversation carry one session id.  While a
    conversation is open, every turn with a non-blank text sends exactly
    one request, a blank one sends none, and whatever the replies are,
    each request carries the message and the session id that the chat
    held at the beginning, which it still holds at the end. *)
Theorem turns_share_session (later : list (Chat.turn_env * jsstring * outcome json)) :
  forall (w : world) (c : conversation_of array_ref) (sid : jsstring),
    currentConversation (chat w) = Some c ->
    sessionId (chat w) = Some sid -> sid <> [] ->
    map body (requests (Chat.turns later w))
    = map body (requests w)
      ++ map (fun t => chat_body (trim (snd (fst t))) sid)
           (List.filter (fun t => str_truthy (trim (snd (fst t)))) later)
    /\ sessionId (chat (Chat.turns later w)) = Some sid.
Proof.
  induction later as [|[[e text] reply] later IH]; intros w c sid Hc Hs Hne.
  - cbn. rewrite app_nil_r. split; [reflexivity|exact Hs].
  - assert (Hstep : Chat.turns ((e, text, reply) :: later) w
                    = Chat.turns later (Chat.sendMessage e text reply w))
      by reflexivity.
    rewrite Hstep. cbn [List.filter fst snd].
    destruct (decide (trim text = [])) as [Hb|Hb].
    + rewrite sendMessage_blank by exact Hb. rewrite Hb. cbn [str_truthy].
      apply (IH w c sid Hc Hs Hne).
    + destruct (sendMessage_active e text reply w c Hb Hc)
        as (_ & Hs' & c' & Hc' & _).
      cbn zeta in Hs', Hc'. rewrite Hs in Hs'.
      destruct (IH _ c' sid Hc' Hs' Hne) as [Hreq Hsid].
      rewrite Hreq, sendMessage_request by exact Hb.
      rewrite map_app. cbn [map]. rewrite (turn_request_body e text sid w Hs Hne).
      replace (str_truthy (trim text)) with true
        by (destruct (trim text); [congruence|reflexivity]).
      cbn [map fst snd]. rewrite <- app_assoc. split; [reflexivity|exact Hsid].
Qed.

Lemma turns_share_session_witness :
  let w0 := Chat.startNewConversation sample_start (page ∅ (js "/")) in
  let sid := API.generateSessionId (Chat.session_seed sample_start) in
  map body (requests (Chat.turns [(sample_turn, js "5+5", Throw (js "Failed to fetch"));
                                  (sample_turn, js "   ", Ok sample_reply);
                                  (sample_second_turn, js "5+5", Ok sample_reply)] w0))
  = [chat_body (js "5+5") sid; chat_body (js "5+5") sid].
Proof.
  intros w0 sid.
  destruct (turns_share_session
              [(sample_turn, js "5+5", Throw (js "Failed to fetch"));
               (sample_turn, js "   ", Ok sample_reply);
               (sample_second_turn, js "5+5", Ok sample_reply)]
              w0 (fresh sample_start) sid) as [Hreq _].
  - reflexivity.
  - reflexivity.
  - vm_compute. discriminate.
  - rewrite Hreq. vm_compute. reflexivity.
Defined.

End TurnsFurther.

(** ** The sidebar actions: pin and delete *)

Section Sidebar.

Lemma lookup_last_app_one (k k2 : jsstring) (v : json) (l : list (jsstring * json)) :
  lookup_last k2 (l ++ [(k, v)])
  = if bool_decide (k = k2) then Some v else lookup_last k2 l.
Proof.
  induction l as [|[k' x] l IH]; simpl.
  - reflexivity.
  - rewrite IH. destruct (bool_decide (k = k2)); reflexivity.
Qed.

Lemma lookup_last_set (k k2 : jsstring) (v : json) (l : list (jsstring * json)) :
  lookup_last k2
    (map (fun kv => if bool_decide (fst kv = k) then (fst kv, v) else kv) l)
  = if bool_decide (k2 = k)
    then match lookup_last k2 l with Some _ => Some v | None => None end
    else lookup_last k2 l.
Proof.
  induction l as [|[k' x] l IH]; cbn [map lookup_last fst].
  - destruct (bool_decide (k2 = k)); reflexivity.
  - destruct (bool_decide_reflect (k' = k)) as [->|Hne'];
      cbn [lookup_last]; rewrite IH;
      destruct (bool_decide_reflect (k2 = k)) as [->|Hne];
      destruct (lookup_last _ l); try reflexivity.
    + rewrite bool_decide_true by reflexivity. reflexivity.
    + rewrite bool_decide_false by congruence. reflexivity.
    + rewrite bool_decide_false by exact Hne'. reflexivity.
Qed.

Lemma lookup_last_assign (k k2 : jsstring) (v : json) (l : list (jsstring * json)) :
  lookup_last k2 (UIActions.assign k v l)
  = if bool_decide (k2 = k) then Some v else lookup_last k2 l.
Proof.
  unfold UIActions.assign. destruct (lookup_last k l) eqn:E.
  - rewrite lookup_last_set. destruct (bool_decide_reflect (k2 = k)) as [->|]; [|reflexivity].
    rewrite E. reflexivity.
  - rewrite lookup_last_app_one.
    destruct (bool_decide_reflect (k = k2)) as [->|Hne].
    + rewrite bool_decide_true by reflexivity. reflexivity.
    + rewrite bool_decide_false by congruence. reflexivity.
Qed.

(** The entry found by id is an object. *)
Lemma has_id_object (cid : jsstring) (conv : json) :
  API.has_id cid conv = true -> exists l, conv = JObj l.
Proof.
  unfold API.has_id, get_prop. destruct conv; try discriminate. eauto.
Qed.

Lemma toggle_pinned_spec (cid : jsstring) (conv : json) :
  API.has_id cid conv = true ->
  Chat.is_pinned (UIActions.toggle_pinned conv) = negb (Chat.is_pinned conv)
  /\ API.has_id cid (UIActions.toggle_pinned conv) = true
  /\ UIActions.toggle_pinned conv <> JNull
  /\ forall k, js k <> js "pinned" ->
       get_prop (UIActions.toggle_pinned conv) k = get_prop conv k.
Proof.
  intros Hid. destruct (has_id_object cid conv Hid) as [l ->].
  unfold UIActions.toggle_pinned. split; [|split; [|split]].
  - unfold Chat.is_pinned at 1. unfold get_prop. rewrite lookup_last_assign.
    rewrite bool_decide_true by reflexivity. reflexivity.
  - unfold API.has_id, get_prop in *. rewrite lookup_last_assign.
    rewrite bool_decide_false by (vm_compute; discriminate). exact Hid.
  - discriminate.
  - intros k Hk. unfold get_prop. rewrite lookup_last_assign.
    rewrite bool_decide_false by exact Hk. reflexivity.
Qed.

Lemma find_conversation_inv (cid : jsstring) (l : list json) (conv : json) :
  Forall (fun e => e <> JNull) l ->
  Chat.find_conversation cid l = Ok (Some conv) ->
  exists i, l !! i = Some conv /\ API.has_id cid conv = true
    /\ forall j e', (j < i)%nat -> l !! j = Some e' -> API.has_id cid e' = false.
Proof.
  induction 1 as [|x l Hx Hl IH]; intros Hfind; [discriminate|].
  assert (Hstep : Chat.find_conversation cid (x :: l)
                  = if API.has_id cid x then Ok (Some x)
                    else Chat.find_conversation cid l)
    by (destruct x; [congruence | reflexivity ..]).
  rewrite Hstep in Hfind. destruct (API.has_id cid x) eqn:Hid.
  - injection Hfind as <-. exists O. repeat split; [exact Hid|]. intros j e' Hj. lia.
  - destruct (IH Hfind) as (i & Hi & Hc & Hbefore). exists (S i).
    repeat split; [exact Hi|exact Hc|].
    intros [|j] e' Hj Hlook; simpl in Hlook.
    + congruence.
    + apply (Hbefore j); [lia|exact Hlook].
Qed.

Lemma first_with_id_unique (cid : jsstring) (l : list json) (i j : nat) (a b : json) :
  l !! i = Some a -> API.has_id cid a = true ->
  (forall k e', (k < i)%nat -> l !! k = Some e' -> API.has_id cid e' = false) ->
  l !! j = Some b -> API.has_id cid b = true ->
  (forall k e', (k < j)%nat -> l !! k = Some e' -> API.has_id cid e' = false) ->
  i = j.
Proof.
  intros Hi Ha Hbi Hj Hb Hbj.
  destruct (Nat.lt_trichotomy i j) as [Hlt|[Heq|Hlt]]; [|exact Heq|].
  - rewrite (Hbj i a Hlt Hi) in Ha. discriminate.
  - rewrite (Hbi j b Hlt Hj) in Hb. discriminate.
Qed.

Lemma loadConversationsList_holds (w : world) (stored : list json) :
  holds w stored -> exists p, Chat.loadConversationsList w = Ok p.
Proof.
  intros [Hget Hnn]. unfold Chat.loadConversationsList.
  rewrite Hget, !(filter_pinned_spec _ stored Hnn). eauto.
Qed.

Lemma pinConversation_found (cid : jsstring) (w : world) (stored : list json)
    (conv : json) :
  holds w stored ->
  Chat.find_conversation cid stored = Ok (Some conv) ->
  exists i w1,
    stored !! i = Some conv
    /\ API.saveObject w cid (UIActions.toggle_pinned conv) = Ok w1
    /\ holds w1 (<[i := UIActions.toggle_pinned conv]> stored)
    /\ Chat.find_conversation cid (<[i := UIActions.toggle_pinned conv]> stored)
       = Ok (Some (UIActions.toggle_pinned conv))
    /\ UIActions.pinConversation cid w
       = push_toast
           (if negb (Chat.is_pinned conv)
            then Toast (js "Pinned") (js "Conversation pinned") (js "success")
            else Toast (js "Unpinned") (js "Conversation unpinned") (js "success"))
           w1
    /\ chat w1 = chat w /\ toasts w1 = toasts w /\ requests w1 = requests w.
Proof.
  intros Hh Hfind.
  destruct (find_conversation_inv cid stored conv (proj2 Hh) Hfind)
    as (i & Hi & Hid & Hbefore).
  destruct (toggle_pinned_spec cid conv Hid) as (Hpin & Hid' & Hnn' & _).
  destruct (saveObject_holds w stored cid _ Hh Hnn' Hid')
    as (w1 & stored' & Hsave & Hh1 & Hfind1 & Hshape & Hchat & Hto & Hrq & _).
  assert (Hs : stored' = <[i := UIActions.toggle_pinned conv]> stored).
  { destruct Hshape as [(j & x & Hj & Hx & Hbj & ->) | [Hnone _]].
    - rewrite (first_with_id_unique cid stored i j conv x); auto.
    - rewrite (Hnone conv) in Hid; [discriminate|].
      apply list_elem_of_In. eapply list_elem_of_lookup_2. exact Hi. }
  subst stored'. exists i, w1.
  split; [exact Hi|]. split; [exact Hsave|]. split; [exact Hh1|].
  split; [exact Hfind1|]. split; [|auto].
  unfold UIActions.pinConversation. rewrite (proj1 Hh), Hfind, Hsave.
  destruct (loadConversationsList_holds w1 _ Hh1) as [p ->]. rewrite Hpin.
  reflexivity.
Qed.

Lemma is_pinned_to_json (c : conversation) :
  Chat.is_pinned (conversation_to_json c) = default false (pinned c).
Proof.
  unfold Chat.is_pinned, conversation_to_json, get_prop.
  destruct (pinned c) as [[]|], (lastMessage c), (session_id c); reflexivity.
Qed.

(** X10.  Pinning toggles the stored entry where it stands.  On a
    readable store, [pinConversation(id)] does nothing when no entry
    has the id; otherwise the first entry with the id is replaced, at its
    index, by the same object with [pinned] negated: every other property
    of the entry and every other entry are unchanged, the entry is in the
    pinned list afterwards exactly when it was not pinned before, and one
    toast names the new state.  The conversation held by the chat is not
    touched. *)
Theorem pinConversation_toggles (cid : jsstring) (w : world) (stored : list json) :
  holds w stored ->
  (Chat.find_conversation cid stored = Ok None -> UIActions.pinConversation cid w = w)
  /\ forall conv,
       Chat.find_conversation cid stored = Ok (Some conv) ->
       let w' := UIActions.pinConversation cid w in
       let conv' := UIActions.toggle_pinned conv in
       exists i pinned recent,
         stored !! i = Some conv
         /\ API.getConversations w' = Ok (JArr (<[i := conv']> stored))
         /\ Chat.is_pinned conv' = negb (Chat.is_pinned conv)
         /\ (forall k, js k <> js "pinned" -> get_prop conv' k = get_prop conv k)
         /\ Chat.loadConversationsList w' = Ok (pinned, recent)
         /\ (In conv' pinned <-> Chat.is_pinned conv = false)
         /\ toasts w'
            = toasts w
              ++ [if Chat.is_pinned conv
                  then Toast (js "Unpinned") (js "Conversation unpinned") (js "success")
                  else Toast (js "Pinned") (js "Conversation pinned") (js "success")]
         /\ chat w' = chat w.
Proof.
  intros Hh. split.
  - intros Hfind. unfold UIActions.pinConversation.
    rewrite (proj1 Hh), Hfind. reflexivity.
  - intros conv Hfind. cbn zeta.
    destruct (pinConversation_found cid w stored conv Hh Hfind)
      as (i & w1 & Hi & _ & Hh1 & _ & -> & Hchat & Hto & _).
    destruct (find_conversation_inv cid stored conv (proj2 Hh) Hfind)
      as (_ & _ & Hid & _).
    destruct (toggle_pinned_spec cid conv Hid) as (Hpin & _ & _ & Hother).
    set (conv' := UIActions.toggle_pinned conv) in *.
    set (w' := push_toast _ w1).
    assert (Hh' : holds w' (<[i := conv']> stored))
      by (apply (holds_storage w1); [reflexivity|exact Hh1]).
    exists i, (List.filter (fun c => eqb (Chat.is_pinned c) true) (<[i := conv']> stored)),
      (firstn 15 (List.filter (fun c => eqb (Chat.is_pinned c) false)
                    (<[i := conv']> stored))).
    split; [exact Hi|]. split; [apply Hh'|]. split; [exact Hpin|].
    split; [exact Hother|]. split.
    { unfold Chat.loadConversationsList.
      rewrite (proj1 Hh'), !(filter_pinned_spec _ _ (proj2 Hh')). reflexivity. }
    split.
    { rewrite List.filter_In, Hpin. split.
      - intros [_ H]. destruct (Chat.is_pinned conv); [discriminate|reflexivity].
      - intros ->. split; [|reflexivity].
        apply list_elem_of_In. eapply list_elem_of_lookup_2.
        apply list_lookup_insert_eq. eapply lookup_lt_Some. exact Hi. }
    split; [|exact Hchat].
    subst w'. cbn. rewrite Hto. destruct (Chat.is_pinned conv); reflexivity.
Qed.

Lemma pinConversation_toggles_witness :
  Chat.is_pinned sample_entry = false
  /\ API.getConversations (UIActions.pinConversation (id sample_conversation) sample_open)
     = Ok (JArr [UIActions.toggle_pinned sample_entry])
  /\ Chat.is_pinned (UIActions.toggle_pinned sample_entry) = true.
Proof.
  split; [vm_compute; reflexivity|].
  destruct (pinConversation_toggles (id sample_conversation) sample_open [sample_entry])
    as [_ H].
  - split; [vm_compute; reflexivity|repeat constructor; discriminate].
  - destruct (H sample_entry) as (i & _ & _ & Hi & Hget & Hp & _).
    + vm_compute. reflexivity.
    + cbn zeta in *. destruct i as [|i]; [|discriminate Hi].
      split; [exact Hget|exact Hp].
Defined.

Lemma pinConversation_keeps_chat (cid : jsstring) (w : world) :
  chat (UIActions.pinConversation cid w) = chat w
  /\ requests (UIActions.pinConversation cid w) = requests w.
Proof.
  unfold UIActions.pinConversation, API.saveObject.
  repeat case_match; try discriminate; simplify_eq; split; reflexivity.
Qed.

(** X11.  A pin set on the conversation that is open does not survive
    the next exchange.  [pinConversation] changes the stored entry only;
    the next completed turn writes the conversation object held by the
    chat over that entry, so the entry is pinned again according to the
    object in memory, whatever the pin action had stored. *)
Theorem pin_overwritten_by_turn (e : Chat.turn_env) (text : jsstring)
    (response : json) (r : jsstring) (w : world)
    (c : conversation_of array_ref) (stored : list json) (conv : json) :
  trim text <> [] ->
  get_prop response "response" = Some (JStr r) -> r <> [] ->
  currentConversation (chat w) = Some c ->
  holds w stored ->
  Chat.find_conversation (id c) stored = Ok (Some conv) ->
  let w1 := UIActions.pinConversation (id c) w in
  let w2 := Chat.sendMessage e text (Ok response) w1 in
  (exists stored1 entry1,
     API.getConversations w1 = Ok (JArr stored1)
     /\ Chat.find_conversation (id c) stored1 = Ok (Some entry1)
     /\ Chat.is_pinned entry1 = negb (Chat.is_pinned conv))
  /\ (exists stored2 entry2,
        API.getConversations w2 = Ok (JArr stored2)
        /\ Chat.find_conversation (id c) stored2 = Ok (Some entry2)
        /\ Chat.is_pinned entry2 = default false (pinned c)
        /\ length stored2 = length stored).
Proof.
  intros Ht Hr Hne Hc Hh Hfind. cbn zeta.
  destruct (pinConversation_found (id c) w stored conv Hh Hfind)
    as (i & w1 & Hi & _ & Hh1 & Hfind1 & Hpin & Hchat & _).
  destruct (find_conversation_inv (id c) stored conv (proj2 Hh) Hfind)
    as (_ & _ & Hid & _).
  destruct (toggle_pinned_spec (id c) conv Hid) as (Hp & _).
  rewrite Hpin. set (w1' := push_toast _ w1).
  assert (Hh1' : holds w1' (<[i := UIActions.toggle_pinned conv]> stored))
    by (apply (holds_storage w1); [reflexivity|exact Hh1]).
  split.
  - eexists. eexists. split; [apply Hh1'|]. split; [exact Hfind1|exact Hp].
  - assert (Hc1 : currentConversation (chat w1') = Some c)
      by (subst w1'; cbn; rewrite Hchat; exact Hc).
    destruct (completed_turn e text response r w1' c _ Ht Hr Hne Hc1 Hh1')
      as (_ & _ & stored2 & Hh2 & Hfind2 & Hshape).
    cbn zeta in Hh2, Hfind2, Hshape.
    exists stored2. eexists. split; [apply Hh2|]. split; [exact Hfind2|].
    split; [rewrite is_pinned_to_json; reflexivity|].
    destruct Hshape as [(j & x & _ & _ & _ & ->) | [Hnone _]].
    + rewrite !length_insert. reflexivity.
    + exfalso. destruct (toggle_pinned_spec (id c) conv Hid) as (_ & Hid' & _).
      rewrite Hnone in Hid'; [discriminate|].
      apply list_elem_of_In. eapply list_elem_of_lookup_2.
      apply list_lookup_insert_eq. eapply lookup_lt_Some. exact Hi.
Qed.

Lemma pin_overwritten_by_turn_witness :
  let w1 := UIActions.pinConversation (id sample_conversation) sample_open in
  let w2 := Chat.sendMessage sample_second_turn (js "and 6+6?") (Ok sample_reply) w1 in
  (exists stored1, API.getConversations w1 = Ok (JArr stored1)
                   /\ map Chat.is_pinned stored1 = [true])
  /\ (exists stored2, API.getConversations w2 = Ok (JArr stored2)
                      /\ map Chat.is_pinned stored2 = [false]).
Proof.
  intros w1 w2.
  destruct (pin_overwritten_by_turn sample_second_turn (js "and 6+6?") sample_reply
              (js "10") sample_open sample_conversation [sample_entry] sample_entry)
    as [_ (stored2 & entry2 & Hget2 & Hfind2 & Hp2 & Hlen)].
  - vm_compute. discriminate.
  - vm_compute. reflexivity.
  - discriminate.
  - vm_compute. reflexivity.
  - split; [vm_compute; reflexivity|repeat constructor; discriminate].
  - vm_compute. reflexivity.
  - cbn zeta in *. fold w1 in Hget2. fold w2 in Hget2.
    split; [eexists; split; vm_compute; reflexivity|].
    exists stored2. split; [exact Hget2|].
    destruct stored2 as [|x [|y l]]; try discriminate Hlen.
    assert (Hx : x = entry2).
    { cbn [Chat.find_conversation] in Hfind2.
      destruct x; try discriminate Hfind2;
        destruct (API.has_id _ _); congruence. }
    subst x. cbn [map]. rewrite Hp2. reflexivity.
Defined.

(** X12.  Deleting the conversation that is open removes its entries
    from the store but leaves the chat as it is; the next completed turn
    saves the conversation again, in front of the remaining entries and
    with all the messages of the buffer. *)
Theorem deleted_open_conversation_returns (e : Chat.turn_env) (text : jsstring)
    (response : json) (r : jsstring) (w : world)
    (c : conversation_of array_ref) (stored : list json) :
  trim text <> [] ->
  get_prop response "response" = Some (JStr r) -> r <> [] ->
  currentConversation (chat w) = Some c ->
  holds w stored ->
  let w1 := UIActions.deleteConversation true (id c) w in
  let w2 := Chat.sendMessage e text (Ok response) w1 in
  let buffer :=
    chat_messages (chat w) ++ [user_message e text; ai_message e response r] in
  API.getConversations w1 = Ok (JArr (others (id c) stored))
  /\ Chat.find_conversation (id c) (others (id c) stored) = Ok None
  /\ chat w1 = chat w
  /\ toasts w1 = toasts w ++ [Toast (js "Deleted") (js "Conversation deleted")
                                    (js "success")]
  /\ exists saved,
       API.getConversations w2
       = Ok (JArr (conversation_to_json saved :: others (id c) stored))
       /\ id saved = id c /\ messages saved = buffer.
Proof.
  intros Ht Hr Hne Hc Hh. cbn zeta. unfold UIActions.deleteConversation.
  destruct (deleteConversation_holds (id c) w stored Hh)
    as (w1 & -> & Hh1 & _ & Hchat & Hto & _).
  destruct (loadConversationsList_holds w1 _ Hh1) as [p ->].
  set (w1' := push_toast _ w1).
  assert (Hh1' : holds w1' (others (id c) stored))
    by (apply (holds_storage w1); [reflexivity|exact Hh1]).
  assert (Habs : Chat.find_conversation (id c) (others (id c) stored) = Ok None)
    by (apply find_conversation_absent; [apply Hh1|apply others_absent]).
  split; [apply Hh1'|]. split; [exact Habs|]. split; [exact Hchat|].
  split; [subst w1'; cbn; rewrite Hto; reflexivity|].
  assert (Hc1 : currentConversation (chat w1') = Some c)
    by (subst w1'; cbn; rewrite Hchat; exact Hc).
  destruct (completed_turn e text response r w1' c _ Ht Hr Hne Hc1 Hh1')
    as (_ & _ & stored2 & Hh2 & _ & Hshape).
  cbn zeta in Hh2, Hshape.
  assert (Hbuf : chat_messages (chat w1') = chat_messages (chat w))
    by (subst w1'; cbn; rewrite Hchat; reflexivity).
  rewrite Hbuf in Hshape.
  eexists. destruct Hshape as [(i & x & Hi & Hx & _) | [_ ->]].
  - exfalso. rewrite (others_absent (id c) stored x) in Hx; [discriminate|].
    apply list_elem_of_In. eapply list_elem_of_lookup_2. exact Hi.
  - split; [apply Hh2|]. split; reflexivity.
Qed.

Lemma deleted_open_conversation_returns_witness :
  let w1 := UIActions.deleteConversation true (id sample_conversation) sample_open in
  let w2 := Chat.sendMessage sample_second_turn (js "and 6+6?") (Ok sample_reply) w1 in
  API.getConversations w1 = Ok (JArr [])
  /\ exists saved, API.getConversations w2 = Ok (JArr [conversation_to_json saved])
                   /\ length (messages saved) = 4%nat.
Proof.
  intros w1 w2.
  destruct (deleted_open_conversation_returns sample_second_turn (js "and 6+6?")
              sample_reply (js "10") sample_open sample_conversation [sample_entry])
    as (Hget1 & _ & _ & _ & saved & Hget2 & _ & Hm).
  - vm_compute. discriminate.
  - vm_compute. reflexivity.
  - discriminate.
  - vm_compute. reflexivity.
  - split; [vm_compute; reflexivity|repeat constructor; discriminate].
  - cbn zeta in *. fold w1 in Hget1, Hget2. fold w2 in Hget2.
    split; [exact Hget1|]. exists saved. split; [exact Hget2|].
    rewrite Hm. reflexivity.
Defined.



(** X14.  The star follows the icon.  [toggleStar] flips the icon
    and shows a toast in every case.  With an open conversation and a
    readable store it sets [starred] to the negation of the state the
    icon had, whatever the conversation's own flag was, and saves the
    conversation as it is in memory, creating its entry when it has none
    yet; without an open conversation nothing is stored. *)
Theorem toggleStar_follows_icon (isStarred : bool) (w : world) (stored : list json) :
  holds w stored ->
  let w' := snd (UIActions.toggleStar isStarred w) in
  fst (UIActions.toggleStar isStarred w) = negb isStarred
  /\ toasts w'
     = toasts w
       ++ [if isStarred
           then Toast (js "Unstarred") (js "Removed from starred") (js "success")
           else Toast (js "Starred") (js "Added to starred") (js "success")]
  /\ chat_messages (chat w') = chat_messages (chat w)
  /\ (currentConversation (chat w) = None -> localStorage w' = localStorage w)
  /\ forall c,
       currentConversation (chat w) = Some c ->
       exists (saved : conversation) (stored' : list json),
         API.getConversations w' = Ok (JArr stored')
         /\ Chat.find_conversation (id c) stored' = Ok (Some (conversation_to_json saved))
         /\ starred saved = negb isStarred
         /\ saved = Chat.resolve (chat_messages (chat w))
                      (UIActions.set_starred (negb isStarred) c)
         /\ currentConversation (chat w')
            = Some (UIActions.set_starred (negb isStarred) c)
         /\ ((forall e, In e stored -> API.has_id (id c) e = false) ->
             stored' = conversation_to_json saved :: stored).
Proof.
  intros Hh. cbn zeta. unfold UIActions.toggleStar. cbn [fst snd].
  destruct (currentConversation (chat w)) as [c|] eqn:Hc.
  - set (c' := UIActions.set_starred (negb isStarred) c).
    set (w1 := Chat.set_currentConversation c' w).
    assert (Hh1 : holds w1 stored) by (apply (holds_storage w); [reflexivity|exact Hh]).
    rewrite saveConversation_saveObject.
    destruct (saveObject_holds w1 stored (id c)
                (conversation_to_json (Chat.resolve (chat_messages (chat w1)) c'))
                Hh1 (conversation_non_null _) (held_has_id _ c'))
      as (w2 & stored' & Hsave & Hh2 & Hfind & Hshape & Hchat & Hto & _).
    change (id (Chat.resolve (chat_messages (chat w1)) c')) with (id c).
    rewrite Hsave.
    split; [reflexivity|]. split; [cbn; rewrite Hto; reflexivity|].
    split; [cbn; rewrite Hchat; reflexivity|]. split; [discriminate|].
    intros c0 Hc0. injection Hc0 as <-.
    exists (Chat.resolve (chat_messages (chat w)) c'), stored'.
    split; [apply Hh2|]. split; [exact Hfind|]. split; [reflexivity|].
    split; [reflexivity|]. split; [cbn; rewrite Hchat; reflexivity|].
    intros Hnew. destruct Hshape as [(i & x & Hi & Hx & _) | [_ ->]]; [|reflexivity].
    rewrite Hnew in Hx; [discriminate|].
    apply list_elem_of_In. eapply list_elem_of_lookup_2. exact Hi.
  - split; [reflexivity|]. split; [reflexivity|]. split; [reflexivity|].
    split; [reflexivity|]. intros c Hc0. discriminate Hc0.
Qed.

Lemma toggleStar_follows_icon_witness :
  let w := Chat.startNewConversation sample_start (page ∅ (js "/")) in
  let w' := snd (UIActions.toggleStar false w) in
  exists saved,
    API.getConversations w' = Ok (JArr [conversation_to_json saved])
    /\ starred saved = true /\ messages saved = [].
Proof.
  intros w w'.
  destruct (toggleStar_follows_icon false w []) as (_ & _ & _ & _ & H).
  - split; [vm_compute; reflexivity|constructor].
  - destruct (H (fresh sample_start)) as (saved & stored' & Hget & _ & Hs & Hsaved & _ & Hnew);
      [reflexivity|].
    cbn zeta in *. fold w' in Hget. exists saved.
    rewrite Hnew in Hget by (intros e []).
    split; [exact Hget|]. split; [exact Hs|]. rewrite Hsaved. reflexivity.
Defined.

End Sidebar.

(** ** Further properties of the session *)

Section AuthFurther.




Lemma includes_auth_page : Auth.includes (js "auth.html") (js "/auth.html") = true.
Proof. vm_compute. reflexivity. Qed.

Lemma includes_home : Auth.includes (js "auth.html") (js "/") = false.
Proof. vm_compute. reflexivity. Qed.

(** X16.  The route guard never bounces.  [checkAuth] reads the page
    and the storage and changes nothing but the requested navigation: it
    answers [true] without navigating, or [false] with a navigation to
    the sign-in page (visitor without token and guest flag) or to the
    home page (visitor with one of them, on the sign-in page).  On the
    page it navigates to, with the same storage, it answers [true]. *)
Theorem checkAuth_no_redirect_loop (w : world) :
  let w1 := fst (Auth.checkAuth w) in
  localStorage w1 = localStorage w /\ api_token w1 = api_token w
  /\ auth_user w1 = auth_user w /\ chat w1 = chat w
  /\ (snd (Auth.checkAuth w) = true -> w1 = w)
  /\ (snd (Auth.checkAuth w) = false ->
      location_href w1
      = Some (if Auth.isLoggedIn w || Auth.isGuestMode w then js "/"
              else js "/auth.html")
      /\ snd (Auth.checkAuth (navigated w1)) = true).
Proof.
  cbn zeta. unfold Auth.checkAuth.
  destruct (Auth.isLoggedIn w || Auth.isGuestMode w) eqn:Haccess;
    destruct (Auth.includes (js "auth.html") (pathname w)) eqn:Hpage;
    cbn [negb andb fst snd]; repeat split; try discriminate;
    unfold navigated; cbn [location_href set_location localStorage];
    unfold Auth.checkAuth, Auth.isLoggedIn, Auth.isGuestMode, API.getToken in *;
    cbn [page localStorage pathname]; rewrite Haccess;
    rewrite ?includes_auth_page, ?includes_home; reflexivity.
Qed.

(** X17.  Leaving guest mode keeps the history, logging out does not.
    [goToSignIn] removes the guest flag and the guest id and nothing
    else: the stored conversations (and a stored token) are still there,
    and a visitor without token lands on the sign-in page and stays.
    [logout] empties local storage: afterwards the conversation store
    reads as empty. *)
Theorem goToSignIn_keeps_history (w : world) :
  let w' := Account.goToSignIn w in
  API.getConversations w' = API.getConversations w
  /\ API.getToken w' = API.getToken w
  /\ Auth.isGuestMode w' = false
  /\ location_href w' = Some (js "/auth.html")
  /\ (Auth.isLoggedIn w = false ->
      Auth.session_of w' = Auth.Unauthenticated
      /\ snd (Auth.checkAuth (navigated w')) = true)
  /\ API.getConversations (Auth.logout w) = Ok (JArr [])
  /\ API.getToken (Auth.logout w) = None.
Proof.
  cbn zeta. unfold Account.goToSignIn.
  assert (Hguest : Auth.isGuestMode
                     (set_location (js "/auth.html")
                        (set_storage (delete "guest_id"
                                        (delete "auth_mode" (localStorage w))) w))
                   = false).
  { unfold Auth.isGuestMode. cbn [localStorage set_location set_storage].
    rewrite lookup_delete_ne by discriminate. rewrite lookup_delete_eq.
    apply bool_decide_eq_false. discriminate. }
  assert (Htoken : API.getToken
                     (set_location (js "/auth.html")
                        (set_storage (delete "guest_id"
                                        (delete "auth_mode" (localStorage w))) w))
                   = API.getToken w).
  { unfold API.getToken. cbn [localStorage set_location set_storage].
    rewrite !lookup_delete_ne by discriminate. reflexivity. }
  split.
  { unfold API.getConversations. cbn [localStorage set_location set_storage].
    rewrite !lookup_delete_ne by discriminate. reflexivity. }
  split; [exact Htoken|]. split; [exact Hguest|]. split; [reflexivity|].
  split; [|split; reflexivity].
  intros Hlogged.
  assert (Hlogged' : Auth.isLoggedIn
                       (set_location (js "/auth.html")
                          (set_storage (delete "guest_id"
                                          (delete "auth_mode" (localStorage w))) w))
                     = false)
    by (unfold Auth.isLoggedIn in *; rewrite Htoken; exact Hlogged).
  split.
  - unfold Auth.session_of. rewrite Hlogged', Hguest. reflexivity.
  - unfold navigated. cbn [location_href set_location].
    unfold Auth.checkAuth, Auth.isLoggedIn, Auth.isGuestMode, API.getToken in *.
    cbn [page localStorage pathname set_storage set_location] in *.
    rewrite Hlogged', Hguest, includes_auth_page. reflexivity.
Qed.

Lemma goToSignIn_keeps_history_witness :
  let w := page {["auth_mode" := js "guest"; "guest_id" := js "g1";
                  CONFIG.CONVERSATIONS_STORAGE_KEY := js "[{}]"]} (js "/") in
  Auth.session_of w = Auth.Guest
  /\ Auth.session_of (Account.goToSignIn w) = Auth.Unauthenticated
  /\ API.getConversations (Account.goToSignIn w) = Ok (JArr [JObj []]).
Proof.
  intros w. split; [vm_compute; reflexivity|].
  destruct (goToSignIn_keeps_history w) as (Hget & _ & _ & _ & H & _).
  destruct H as [Hs _]; [vm_compute; reflexivity|].
  split; [exact Hs|]. cbn zeta in Hget. rewrite Hget. vm_compute. reflexivity.
Defined.

Lemma checkAuth_no_redirect_loop_witness :
  let w := page {["auth_mode" := js "guest"]} (js "/auth.html") in
  Auth.checkAuth w = (set_location (js "/") w, false)
  /\ snd (Auth.checkAuth (page (localStorage w) (js "/"))) = true.
Proof.
  intros w. split; [vm_compute; reflexivity|].
  destruct (checkAuth_no_redirect_loop w) as (_ & _ & _ & _ & _ & H).
  destruct H as [_ H]; [vm_compute; reflexivity|]. exact H.
Defined.



End AuthFurther.

(** ** The input handler, the time labels and the escaping *)

Section PageFurther.

Lemma drop_spaces_length (s : jsstring) :
  (length (drop_spaces s) <= length s)%nat.
Proof.
  induction s as [|c r IH]; simpl; [lia|].
  destruct (is_js_space c); simpl; lia.
Qed.

Lemma trim_length (s : jsstring) : (length (trim s) <= length s)%nat.
Proof.
  unfold trim. rewrite length_rev.
  etransitivity; [apply drop_spaces_length|]. rewrite length_rev.
  apply drop_spaces_length.
Qed.

(** X19.  The send button is disabled exactly when the input is empty
    or longer than [MAX_MESSAGE_LENGTH]; so whenever the handler leaves
    the button enabled, the text that a click would send (the trimmed
    value) is within the limit.  The counter is shown exactly above
    [MAX_MESSAGE_LENGTH - 300], with the length as its text; above the
    limit it carries the class [error] (and keeps [warning] if it had
    it), in the last 100 before the limit [warning] only, below that
    neither; and at or below [MAX_MESSAGE_LENGTH - 300] the classes are
    left as they were. *)
Theorem handleInput_send_button (value : jsstring) (p : Chat.composer) :
  let p' := Chat.handleInput value p in
  let n := length value in
  (Chat.sendBtn_disabled p' = true <-> n = 0 \/ CONFIG.MAX_MESSAGE_LENGTH < n)%nat
  /\ (Chat.sendBtn_disabled p' = false ->
      (length (trim value) <= CONFIG.MAX_MESSAGE_LENGTH)%nat)
  /\ (Chat.charCounter_display p' = js "block" <-> 2700 < n)%nat
  /\ (Chat.charCounter_display p' = js "none" <-> n <= 2700)%nat
  /\ ((2700 < n)%nat -> Chat.charCount p' = JSON.print_N (N.of_nat n))
  /\ ((3000 < n)%nat -> Chat.has_error p' = true /\ Chat.has_warning p' = Chat.has_warning p)
  /\ ((2900 < n <= 3000)%nat -> Chat.has_error p' = false /\ Chat.has_warning p' = true)
  /\ ((2700 < n <= 2900)%nat -> Chat.has_error p' = false /\ Chat.has_warning p' = false)
  /\ ((n <= 2700)%nat ->
      Chat.has_error p' = Chat.has_error p /\ Chat.has_warning p' = Chat.has_warning p
      /\ Chat.charCount p' = Chat.charCount p).
Proof.
  cbn zeta. unfold Chat.handleInput, CONFIG.MAX_MESSAGE_LENGTH.
  pose proof (trim_length value) as Htrim.
  change (3000 - 300)%nat with 2700%nat. change (3000 - 100)%nat with 2900%nat.
  destruct (Nat.ltb_spec 2700 (length value));
    [destruct (Nat.ltb_spec 3000 (length value));
     [|destruct (Nat.ltb_spec 2900 (length value))]|];
    cbn [Chat.sendBtn_disabled Chat.charCounter_display Chat.charCount Chat.has_warning Chat.has_error];
    repeat split; intros; try lia; try discriminate; try reflexivity;
    try (destruct (Nat.eqb_spec (length value) 0); (lia || discriminate || auto)).
Qed.

Lemma handleInput_send_button_witness :
  let p := Chat.Composer true (js "none") (js "0") false false in
  Chat.sendBtn_disabled (Chat.handleInput (repeat 97%N 3001%nat) p) = true
  /\ Chat.sendBtn_disabled (Chat.handleInput (repeat 97%N 3000%nat) p) = false
  /\ (length (trim (repeat 97%N 3000%nat)) <= CONFIG.MAX_MESSAGE_LENGTH)%nat.
Proof.
  intros p.
  destruct (handleInput_send_button (repeat 97%N 3001%nat) p) as (Hover & _).
  destruct (handleInput_send_button (repeat 97%N 3000%nat) p) as (Hat & Hclick & _).
  cbn zeta in *. rewrite repeat_length in *. unfold CONFIG.MAX_MESSAGE_LENGTH in *.
  split; [apply Hover; right; lia|].
  assert (Henabled : Chat.sendBtn_disabled (Chat.handleInput (repeat 97%N 3000%nat) p) = false).
  { destruct (Chat.sendBtn_disabled (Chat.handleInput (repeat 97%N 3000%nat) p));
      [|reflexivity].
    destruct (proj1 Hat eq_refl); lia. }
  split; [exact Henabled|apply Hclick, Henabled].
Defined.

(** X20.  The time label in terms of the age [diff] of the timestamp
    in milliseconds.  Less than one hour, a timestamp in the future
    included, reads 'Just now'; from one hour up to a day the whole hours,
    between 1 and 23; the second day reads 'Yesterday'; from two days up
    to a week the whole days, between 2 and 6; from a week on the date is
    written out. *)
Theorem formatTime_ranges (diff : Z) :
  ((diff < 3600000)%Z -> UIActions.formatTime diff = UIActions.Label (js "Just now"))
  /\ ((3600000 <= diff < 86400000)%Z ->
      exists h, (1 <= h <= 23)%Z
        /\ (h * 3600000 <= diff < (h + 1) * 3600000)%Z
        /\ UIActions.formatTime diff
           = UIActions.Label (JSON.print_N (Z.to_N h) ++ js "h ago"))
  /\ ((86400000 <= diff < 172800000)%Z ->
      UIActions.formatTime diff = UIActions.Label (js "Yesterday"))
  /\ ((172800000 <= diff < 604800000)%Z ->
      exists d, (2 <= d <= 6)%Z
        /\ (d * 86400000 <= diff < (d + 1) * 86400000)%Z
        /\ UIActions.formatTime diff
           = UIActions.Label (JSON.print_N (Z.to_N d) ++ js "d ago"))
  /\ ((604800000 <= diff)%Z -> UIActions.formatTime diff = UIActions.LocaleDate).
Proof.
  unfold UIActions.formatTime. cbn zeta.
  set (h := (diff / 3600000)%Z). set (d := (diff / 86400000)%Z).
  assert (Hh : (h * 3600000 <= diff < (h + 1) * 3600000)%Z)
    by (subst h; Z.to_euclidean_division_equations; lia).
  assert (Hd : (d * 86400000 <= diff < (d + 1) * 86400000)%Z)
    by (subst d; Z.to_euclidean_division_equations; lia).
  assert (Hprint : forall z, (0 <= z)%Z -> JSON.print_Z z = JSON.print_N (Z.to_N z)).
  { intros z Hz. unfold JSON.print_Z.
    destruct (Z.ltb_spec z 0); [lia|]. cbn [app]. f_equal.
    destruct z; try reflexivity. lia. }
  repeat split; intros Hrange.
  - destruct (Z.ltb_spec h 1); [reflexivity|lia].
  - exists h. destruct (Z.ltb_spec h 1); [lia|].
    destruct (Z.ltb_spec h 24); [|lia].
    split; [lia|]. split; [exact Hh|]. rewrite Hprint by lia. reflexivity.
  - destruct (Z.ltb_spec h 1); [lia|]. destruct (Z.ltb_spec h 24); [lia|].
    destruct (Z.eqb_spec d 1); [reflexivity|lia].
  - exists d. destruct (Z.ltb_spec h 1); [lia|]. destruct (Z.ltb_spec h 24); [lia|].
    destruct (Z.eqb_spec d 1); [lia|]. destruct (Z.ltb_spec d 7); [|lia].
    split; [lia|]. split; [exact Hd|]. rewrite Hprint by lia. reflexivity.
  - destruct (Z.ltb_spec h 1); [lia|]. destruct (Z.ltb_spec h 24); [lia|].
    destruct (Z.eqb_spec d 1); [lia|]. destruct (Z.ltb_spec d 7); [lia|reflexivity].
Qed.

Lemma formatTime_ranges_witness :
  UIActions.formatTime (-5000) = UIActions.Label (js "Just now")
  /\ UIActions.formatTime 7199999 = UIActions.Label (js "1h ago")
  /\ UIActions.formatTime 100000000 = UIActions.Label (js "Yesterday")
  /\ UIActions.formatTime 604799999 = UIActions.Label (js "6d ago")
  /\ UIActions.formatTime 604800000 = UIActions.LocaleDate.
Proof.
  destruct (formatTime_ranges (-5000)) as (H1 & _).
  destruct (formatTime_ranges 7199999) as (_ & H2 & _).
  destruct (formatTime_ranges 100000000) as (_ & _ & H3 & _).
  destruct (formatTime_ranges 604799999) as (_ & _ & _ & H4 & _).
  destruct (formatTime_ranges 604800000) as (_ & _ & _ & _ & H5).
  split; [apply H1; lia|]. split; [|split; [apply H3; lia|split; [|apply H5; lia]]].
  - destruct H2 as (h & _ & Hh & ->); [lia|].
    assert (h = 1)%Z as -> by lia. reflexivity.
  - destruct H4 as (d & _ & Hd & ->); [lia|].
    assert (d = 6)%Z as -> by lia. reflexivity.
Defined.

Lemma escape_unit_cases (c : N) :
  (c = 38 /\ UI.escape_unit c = [38; 97; 109; 112; 59])
  \/ (c = 160 /\ UI.escape_unit c = [38; 110; 98; 115; 112; 59])
  \/ (c = 60 /\ UI.escape_unit c = [38; 108; 116; 59])
  \/ (c = 62 /\ UI.escape_unit c = [38; 103; 116; 59])
  \/ (c <> 38 /\ c <> 160 /\ c <> 60 /\ c <> 62 /\ UI.escape_unit c = [c]).
Proof.
  unfold UI.escape_unit, c_amp, c_nbsp, c_lt, c_gt.
  destruct (N.eqb_spec c 38) as [->|]; [left; split; reflexivity|].
  destruct (N.eqb_spec c 160) as [->|]; [right; left; split; reflexivity|].
  destruct (N.eqb_spec c 60) as [->|]; [right; right; left; split; reflexivity|].
  destruct (N.eqb_spec c 62) as [->|]; [right; right; right; left; split; reflexivity|].
  right. right. right. right. repeat split; assumption.
Qed.

(** X21.  Escaping removes every character that could open or close a
    tag and loses nothing.  The escaped text contains no [<], no [>] and
    no no-break space, whatever the input; and two different texts never
    have the same escaped text, so the text can be recovered from its
    escaped form. *)
Theorem escapeHtml_safe_and_injective (s : jsstring) :
  ~ In c_lt (UI.escapeHtml s) /\ ~ In c_gt (UI.escapeHtml s)
  /\ ~ In c_nbsp (UI.escapeHtml s)
  /\ forall t, UI.escapeHtml s = UI.escapeHtml t -> s = t.
Proof.
  unfold UI.escapeHtml, c_lt, c_gt, c_nbsp.
  split; [|split; [|split]].
  - induction s as [|c r IH]; cbn [map concat]; [tauto|].
    rewrite in_app_iff. intros [H|H]; [|tauto].
    destruct (escape_unit_cases c)
      as [[_ E]|[[_ E]|[[_ E]|[[_ E]|(_ & _ & Hn & _ & E)]]]];
      rewrite E in H; cbn in H; intuition (try discriminate; congruence).
  - induction s as [|c r IH]; cbn [map concat]; [tauto|].
    rewrite in_app_iff. intros [H|H]; [|tauto].
    destruct (escape_unit_cases c)
      as [[_ E]|[[_ E]|[[_ E]|[[_ E]|(_ & _ & _ & Hn & E)]]]];
      rewrite E in H; cbn in H; intuition (try discriminate; congruence).
  - induction s as [|c r IH]; cbn [map concat]; [tauto|].
    rewrite in_app_iff. intros [H|H]; [|tauto].
    destruct (escape_unit_cases c)
      as [[_ E]|[[_ E]|[[_ E]|[[_ E]|(_ & Hn & _ & _ & E)]]]];
      rewrite E in H; cbn in H; intuition (try discriminate; congruence).
  - induction s as [|c r IH]; intros [|c' r'] H; cbn [map concat] in H.
    + reflexivity.
    + exfalso.
      destruct (escape_unit_cases c')
        as [[_ E]|[[_ E]|[[_ E]|[[_ E]|(_ & _ & _ & _ & E)]]]];
        rewrite E in H; discriminate H.
    + exfalso.
      destruct (escape_unit_cases c)
        as [[_ E]|[[_ E]|[[_ E]|[[_ E]|(_ & _ & _ & _ & E)]]]];
        rewrite E in H; discriminate H.
    + destruct (escape_unit_cases c)
        as [[-> E]|[[-> E]|[[-> E]|[[-> E]|(N1 & N2 & N3 & N4 & E)]]]];
        destruct (escape_unit_cases c')
          as [[-> E']|[[-> E']|[[-> E']|[[-> E']|(N1' & N2' & N3' & N4' & E')]]]];
        rewrite ?E, ?E' in H; cbn [app] in H;
        try discriminate H;
        try (injection H as H; f_equal; apply IH; exact H);
        try (injection H as H1 H; congruence).
      injection H as -> H. f_equal. apply IH. exact H.
Qed.

Lemma escapeHtml_safe_and_injective_witness :
  UI.escapeHtml (js "a<b") <> UI.escapeHtml (js "a&lt;b")
  /\ ~ In c_lt (UI.escapeHtml (js "<script>")).
Proof.
  destruct (escapeHtml_safe_and_injective (js "a<b")) as (_ & _ & _ & Hinj).
  destruct (escapeHtml_safe_and_injective (js "<script>")) as (Hlt & _).
  split; [|exact Hlt].
  intros H. apply Hinj in H. vm_compute in H. discriminate H.
Defined.

(** X22.  The theme survives a reload.  [toggleTheme] switches 'dark'
    to 'light' and anything else to 'dark', and stores the new theme
    under the theme key only: [loadTheme] on the new storage returns the
    theme just set, and every other key keeps its value.  Without a
    stored theme (or with an empty one) [loadTheme] returns 'dark'. *)
Theorem toggleTheme_persists (theme : jsstring) (ls : gmap string jsstring) :
  let theme' := fst (UIActions.toggleTheme theme ls) in
  let ls' := snd (UIActions.toggleTheme theme ls) in
  UIActions.loadTheme ls' = theme'
  /\ (theme = js "dark" -> theme' = js "light")
  /\ (theme <> js "dark" -> theme' = js "dark")
  /\ (forall k, k <> CONFIG.THEME_STORAGE_KEY -> ls' !! k = ls !! k)
  /\ fst (UIActions.toggleTheme theme' ls') = (if bool_decide (theme = js "dark")
                                               then js "dark" else js "light")
  /\ UIActions.loadTheme ∅ = js "dark"
  /\ UIActions.loadTheme (<[CONFIG.THEME_STORAGE_KEY := []]> ls) = js "dark".
Proof.
  cbn zeta. unfold UIActions.toggleTheme, UIActions.loadTheme. cbn [fst snd].
  rewrite !lookup_insert_eq.
  destruct (bool_decide_reflect (theme = js "dark")) as [->|Hne];
    repeat split; try reflexivity; try congruence;
    intros k Hk; apply lookup_insert_ne; congruence.
Qed.

Lemma toggleTheme_persists_witness :
  UIActions.loadTheme (snd (UIActions.toggleTheme (UIActions.loadTheme ∅) ∅))
  = js "light".
Proof.
  destruct (toggleTheme_persists (UIActions.loadTheme ∅) ∅) as (Hload & Hdark & _).
  cbn zeta in *. rewrite Hload. apply Hdark. reflexivity.
Defined.

Lemma generateConversationId_eq (s1 s2 : id_seed) :
  API.generateConversationId s1 = API.generateConversationId s2
  <-> date_now s1 = date_now s2
      /\ substr 2 9 (random36 s1) = substr 2 9 (random36 s2).
Proof.
  unfold API.generateConversationId. split.
  - intros H. apply app_inv_head in H. cbn [js map list_ascii_of_string app] in H.
    apply print_uint_underscore_inj in H as [Hn Hx].
    split; [apply DecimalN.Unsigned.to_uint_inj, Hn|exact Hx].
  - intros [-> ->]. reflexivity.
Qed.

(** X23.  Conversation ids.  Two generated conversation ids are equal
    exactly when the clock readings and the nine characters kept of the
    random draws are equal, so conversations started at different
    milliseconds never share an id; and a conversation id is never a
    session id.  Hence a conversation started on a store in which every
    id was generated from other readings is saved as a new entry. *)
Theorem startNewConversation_fresh_id (e1 e2 : Chat.start_env) (w1 w2 : world)
    (s : id_seed) :
  let c1 := currentConversation (chat (Chat.startNewConversation e1 w1)) in
  let c2 := currentConversation (chat (Chat.startNewConversation e2 w2)) in
  (option_map id c1 = option_map id c2
   <-> date_now (Chat.conv_seed e1) = date_now (Chat.conv_seed e2)
       /\ substr 2 9 (random36 (Chat.conv_seed e1))
          = substr 2 9 (random36 (Chat.conv_seed e2)))
  /\ option_map id c1 <> Some (API.generateSessionId s)
  /\ option_map id c1 <> sessionId (chat (Chat.startNewConversation e2 w2)).
Proof.
  cbn zeta. cbn [Chat.startNewConversation chat set_chat set_chatTitle
                 currentConversation sessionId option_map id].
  split; [|split].
  - rewrite <- generateConversationId_eq. split; congruence.
  - intros H. injection H as H. vm_compute in H. discriminate H.
  - intros H. injection H as H. vm_compute in H. discriminate H.
Qed.

Lemma startNewConversation_fresh_id_witness :
  let later := Chat.StartEnv (Seed 1700000000001 (js "0.k3j9x8q2ab1"))
                 (js "2023-11-14T22:13:20.001Z") (js "2023-11-14T22:13:20.001Z")
                 (Seed 1700000000001 (js "0.9zw4m1pt7cd")) in
  option_map id (currentConversation
                   (chat (Chat.startNewConversation sample_start (page ∅ (js "/")))))
  <> option_map id (currentConversation
                      (chat (Chat.startNewConversation later (page ∅ (js "/"))))).
Proof.
  intros later.
  destruct (startNewConversation_fresh_id sample_start later (page ∅ (js "/"))
              (page ∅ (js "/")) (Seed 0 [])) as (Heq & _).
  cbn zeta in Heq. intros H. apply Heq in H. destruct H as [H _].
  vm_compute in H. discriminate H.
Defined.




End PageFurther.

(** ** Requests: settlement, login and the password form *)

Section Requests.

Lemma settle_ok (status : N) (text : jsstring) (data : json) :
  API.settle (API.Response status text) = Some (Ok data)
  <-> API.ok status = true /\ JSON.parse text = Some data.
Proof.
  unfold API.settle. destruct (JSON.parse text) as [d|]; [|split; [discriminate|intros [_ H]; discriminate H]].
  destruct (API.ok status).
  - split; [intros H; injection H as ->; auto | intros [_ H]; injection H as ->; reflexivity].
  - split; [|intros [H _]; discriminate H].
    intros H. repeat case_match; discriminate H.
Qed.

Lemma settle_not_ok (status : N) (text : jsstring) (reply : outcome json) :
  API.ok status = false ->
  API.settle (API.Response status text) = Some reply ->
  exists msg, reply = Throw msg
    /\ (forall data e, JSON.parse text = Some data ->
                       get_prop data "error" = Some (JStr e) -> e <> [] -> msg = e)
    /\ (forall data, JSON.parse text = Some data -> data <> JNull ->
                     opt_json_truthy (get_prop data "error") = false ->
                     msg = API.http_error status).
Proof.
  intros Hok H. unfold API.settle in H. rewrite Hok in H.
  destruct (JSON.parse text) as [data|] eqn:Hp.
  2: { injection H as <-. eexists. split; [reflexivity|].
       split; intros; discriminate. }
  assert (Hcase : data = JNull \/ data <> JNull)
    by (destruct data; [left; reflexivity | right; discriminate ..]).
  destruct Hcase as [-> | Hnn].
  { injection H as <-. eexists. split; [reflexivity|]. split.
    - intros d e Hd He. injection Hd as <-. discriminate He.
    - intros d Hd Hn. injection Hd as <-. congruence. }
  assert (H' : match get_prop data "error" with
               | Some (JStr e) =>
                   Some (Throw (or_else (Some e) (API.http_error status)))
               | Some v =>
                   if truthy v then None else Some (Throw (API.http_error status))
               | None => Some (Throw (API.http_error status))
               end = Some reply)
    by (destruct data; first [congruence | exact H]).
  clear H. destruct (get_prop data "error") as [v|] eqn:Hv.
  - assert (Hstr : (exists e, v = JStr e) \/ (forall e, v <> JStr e))
      by (destruct v; first [left; eexists; reflexivity | right; intros; discriminate]).
    destruct Hstr as [[e ->] | Hother].
    + injection H' as <-. eexists. split; [reflexivity|]. split.
      * intros d e0 Hd He Hne. injection Hd as <-. rewrite Hv in He.
        injection He as <-. destruct e; [congruence|reflexivity].
      * intros d Hd _ Ht. injection Hd as <-. rewrite Hv in Ht. cbn in Ht.
        destruct e; [reflexivity|discriminate Ht].
    + assert (H'' : (if truthy v then None else Some (Throw (API.http_error status)))
                    = Some reply)
        by (destruct v; first [exact H' | exfalso; eapply Hother; reflexivity]).
      destruct (truthy v); [discriminate H''|]. injection H'' as <-.
      eexists. split; [reflexivity|]. split.
      * intros d e Hd He. injection Hd as <-. rewrite Hv in He.
        injection He as ->. exfalso. eapply Hother. reflexivity.
      * reflexivity.
  - injection H' as <-. eexists. split; [reflexivity|]. split.
    + intros d e Hd He. injection Hd as <-. rewrite Hv in He. discriminate He.
    + reflexivity.
Qed.

(** X25.  How a request settles.  A failure of the network is passed
    on.  The request resolves, with the parsed body, exactly when the
    status is between 200 and 299 and the body is JSON text; in
    particular a response without a body is a failure even with a
    success status, and a response with any other status never resolves,
    whatever its body says. *)
Theorem request_settlement (status : N) (text : jsstring) :
  (forall m, API.settle (API.NetworkError m) = Some (Throw m))
  /\ (forall data,
        API.settle (API.Response status text) = Some (Ok data)
        <-> (200 <= status <= 299) /\ JSON.parse text = Some data)
  /\ (JSON.parse text = None ->
      API.settle (API.Response status text) = Some (Throw syntax_error))
  /\ API.settle (API.Response status []) = Some (Throw syntax_error)
  /\ ((status < 200 \/ 299 < status) ->
      forall reply, API.settle (API.Response status text) = Some reply ->
                    exists msg, reply = Throw msg).
Proof.
  assert (Hok : API.ok status = true <-> 200 <= status <= 299)
    by (unfold API.ok; rewrite andb_true_iff, !N.leb_le; reflexivity).
  split; [reflexivity|]. split; [|split; [|split]].
  - intros data. rewrite settle_ok, Hok. reflexivity.
  - intros Hp. unfold API.settle. rewrite Hp. reflexivity.
  - reflexivity.
  - intros Hrange reply Hs.
    assert (Hno : API.ok status = false)
      by (destruct (API.ok status); [|reflexivity];
          pose proof (proj1 Hok eq_refl); lia).
    destruct (settle_not_ok status text reply Hno Hs) as (msg & -> & _).
    exists msg. reflexivity.
Qed.

Lemma request_settlement_witness :
  API.settle (API.Response 204 []) = Some (Throw syntax_error)
  /\ API.settle (API.Response 200 (js "{}")) = Some (Ok (JObj []))
  /\ exists msg, API.settle (API.Response 500 (js "{}")) = Some (Throw msg).
Proof.
  destruct (request_settlement 204 []) as (_ & _ & _ & Hempty & _).
  destruct (request_settlement 200 (js "{}")) as (_ & Hok & _).
  destruct (request_settlement 500 (js "{}")) as (_ & _ & _ & _ & Hfail).
  split; [exact Hempty|]. split.
  - apply Hok. split; [lia|vm_compute; reflexivity].
  - destruct (Hfail ltac:(right; lia) (Throw (API.http_error 500))) as (msg & Hmsg).
    + vm_compute. reflexivity.
    + exists (API.http_error 500). reflexivity.
Defined.



Lemma request_with_auth (w : world) (ep meth bod : jsstring) :
  API.request w ep meth bod = API.request_with false w ep meth bod.
Proof.
  unfold API.request, API.request_with. rewrite andb_true_r. reflexivity.
Qed.




(** X28.  The password form.  Every submission shows exactly one
    toast.  A request is sent exactly when no field is empty, the new
    password equals its confirmation and has at least 8 code units; the
    request then carries the two passwords as typed and the held token.
    Otherwise nothing is sent and the toast is a warning (a field is
    empty) or an error.  After a request, the success toast is shown
    exactly when the request resolved with a truthy [success]; a
    rejected request gives the failure toast. *)
Theorem changePassword_form (cur new conf : jsstring) (reply : outcome json)
    (w : world) :
  let w' := Account.changePassword cur new conf reply w in
  (exists t, toasts w' = toasts w ++ [t])
  /\ localStorage w' = localStorage w /\ api_token w' = api_token w
  /\ (acceptable cur new conf ->
      requests w' = requests w ++ [Auth.changePassword_request w cur new]
      /\ JSON.parse (body (Auth.changePassword_request w cur new))
         = Some (JObj [(js "current_password", JStr cur);
                       (js "new_password", JStr new)])
      /\ toasts w'
         = toasts w
           ++ [if match reply with
                  | Ok response => opt_json_truthy (get_prop response "success")
                  | Throw _ => false
                  end
               then Toast (js "Password changed")
                      (js "Your password has been changed successfully") (js "success")
               else Toast (js "Change failed")
                      (js "Failed to change password. Check your current password.")
                      (js "error")])
  /\ (~ acceptable cur new conf ->
      requests w' = requests w
      /\ exists t, toasts w' = toasts w ++ [t]
           /\ (toast_type t = js "warning" \/ toast_type t = js "error")
           /\ (toast_type t = js "warning"
               <-> cur = [] \/ new = [] \/ conf = [])).
Proof.
  cbn zeta. unfold Account.changePassword, acceptable.
  destruct cur as [|c0 cur]; [|destruct new as [|n0 new]; [|destruct conf as [|f0 conf]]];
    cbn [str_truthy negb orb].
  1-3: (split; [eexists; reflexivity|]; split; [reflexivity|]; split; [reflexivity|];
        split; [intros (? & ? & ? & ?); congruence|];
        intros _; split; [reflexivity|]; eexists; split; [reflexivity|];
        split; [left; reflexivity|]; split; auto).
  destruct (bool_decide_reflect (n0 :: new = f0 :: conf)) as [Heq|Hne]; cbn [negb].
  2: { split; [eexists; reflexivity|]. split; [reflexivity|]. split; [reflexivity|].
       split; [intros (_ & _ & ? & _); congruence|].
       intros _. split; [reflexivity|]. eexists. split; [reflexivity|].
       split; [right; reflexivity|].
       split; [intros H; vm_compute in H; discriminate H
              |intros [H|[H|H]]; discriminate H]. }
  destruct (Nat.ltb_spec (length (n0 :: new)) 8) as [Hshort|Hlong].
  { split; [eexists; reflexivity|]. split; [reflexivity|]. split; [reflexivity|].
    split; [intros (_ & _ & _ & ?); lia|].
    intros _. split; [reflexivity|]. eexists. split; [reflexivity|].
    split; [right; reflexivity|].
    split; [intros H; vm_compute in H; discriminate H
           |intros [H|[H|H]]; discriminate H]. }
  assert (Hsuccess : opt_json_truthy (Auth.changePassword reply)
                     = match reply with
                       | Ok response => opt_json_truthy (get_prop response "success")
                       | Throw _ => false
                       end)
    by (destruct reply as [[]|]; reflexivity).
  rewrite Hsuccess.
  split; [destruct (match reply with Ok _ => _ | Throw _ => _ end);
          eexists; reflexivity|].
  split; [destruct (match reply with Ok _ => _ | Throw _ => _ end); reflexivity|].
  split; [destruct (match reply with Ok _ => _ | Throw _ => _ end); reflexivity|].
  split.
  - intros _. split; [destruct (match reply with Ok _ => _ | Throw _ => _ end); reflexivity|].
    split; [apply parse_stringify|].
    destruct (match reply with Ok _ => _ | Throw _ => _ end); reflexivity.
  - intros Hnot. exfalso. apply Hnot. repeat split; [discriminate|discriminate|exact Heq|exact Hlong].
Qed.

Lemma changePassword_form_witness :
  let w := page {["auth_token" := js "tok"]} (js "/") in
  requests (Account.changePassword (js "old-secret") (js "longer-secret")
              (js "longer-secret") (Ok (JObj [(js "success", JBool true)])) w)
  = [Auth.changePassword_request w (js "old-secret") (js "longer-secret")]
  /\ requests (Account.changePassword (js "old-secret") (js "short")
                 (js "short") (Ok (JObj [(js "success", JBool true)])) w)
     = [].
Proof.
  intros w. split.
  - destruct (changePassword_form (js "old-secret") (js "longer-secret")
                (js "longer-secret") (Ok (JObj [(js "success", JBool true)])) w)
      as (_ & _ & _ & H & _).
    destruct H as (Hreq & _).
    + repeat split; [discriminate|discriminate|vm_compute; lia].
    + exact Hreq.
  - destruct (changePassword_form (js "old-secret") (js "short")
                (js "short") (Ok (JObj [(js "success", JBool true)])) w)
      as (_ & _ & _ & _ & H).
    destruct H as (Hreq & _).
    + intros (_ & _ & _ & Hlen). vm_compute in Hlen. lia.
    + exact Hreq.
Defined.

End Requests.
